(** * apim-apk-agent: event-to-artifact synthesis and the entity mirror

    A shallow embedding of
    - [apim-apk-agent/pkg/managementserver/rest_server.go]
      (the [/apis] handler, [createAPIYaml], [createDeployementYaml],
      [extractOperations], [findMatchingAPKOperation],
      [removeVersionSuffix], [processOpenAPIPath], ...), and
    - the [eventhub] marshaller ([MarshalMultipleApplications],
      [MarshalApplication], [MarshalSubscription], [marshalKeyMapping], ...).

    Go strings are byte strings ([string]); Go slices that are appended to
    through more than one variable are modelled with their backing arrays
    (module [GoSlice]); Go maps that are only built and serialised are
    association lists; the mirror maps are [gmap]s.  Behaviour of packages
    outside the repository (yaml, json, regexp, uuid, unicode case folding,
    the import client) is taken as a parameter, see [Lib] and [Run]. *)

From Stdlib Require Import ZArith Ascii String DecimalString.
From stdpp Require Import base option list strings gmap.

(** ** Go's [strings] package, the byte-level part *)

Module GoStrings.

(** [s[n:]] *)
Fixpoint drop (n : nat) (s : string) : string :=
  match n, s with
  | 0, _ => s
  | S _, "" => ""
  | S k, String _ s' => drop k s'
  end.

(** [s[:n]] *)
Fixpoint take (n : nat) (s : string) : string :=
  match n, s with
  | 0, _ => ""
  | S _, "" => ""
  | S k, String c s' => String c (take k s')
  end.

(** [func HasSuffix(s, suffix string) bool {
       return len(s) >= len(suffix) && s[len(s)-len(suffix):] == suffix }] *)
Definition HasSuffix (s suffix : string) : bool :=
  (String.length suffix <=? String.length s)
  && String.eqb (drop (String.length s - String.length suffix) s) suffix.

(** [func TrimSuffix(s, suffix string) string {
       if HasSuffix(s, suffix) { return s[:len(s)-len(suffix)] }; return s }] *)
Definition TrimSuffix (s suffix : string) : string :=
  if HasSuffix s suffix
  then take (String.length s - String.length suffix) s
  else s.

(** [strings.ReplaceAll(s, old, new)] for one-byte [old] and [new]. *)
Fixpoint ReplaceAllByte (s : string) (old new : ascii) : string :=
  match s with
  | "" => ""
  | String c s' =>
      String (if Ascii.eqb c old then new else c) (ReplaceAllByte s' old new)
  end.

(** [fmt.Sprintf("%d", n)] *)
Definition itoa (n : Z) : string := NilZero.string_of_int (Z.to_int n).

End GoStrings.

(** ** The entity mirror ([package eventhub], the marshaller) *)

Module Eventhub.

(** Records of [pkg/eventhub/types], the shapes in which the control plane
    delivers a snapshot.  Only the fields the marshaller reads are kept;
    [int32] and [int64] fields are integers.  Field names are those of
    the Go structs; a prefix or a trailing underscore separates names
    that Go keeps apart by struct ([KeyManager_] is the field
    [KeyManager], [KMTenantDomain] and [SubTenantDomain] are the
    [TenantDomain] fields of a key mapping and a subscription). *)
Module types.
Record Application := {
  UUID : string; ID : Z; Name : string; SubName : string; Policy : string;
  TokenType : string; Attributes : gmap string string;
  TenantID : Z; TenantDomain : string; TimeStamp : Z }.
Record ApplicationKeyMapping := {
  ApplicationID : Z; ApplicationUUID : string; ConsumerKey : string;
  KeyType : string; KeyManager_ : string;
  KMTenantID : Z; KMTenantDomain : string; KMTimeStamp : Z }.
Record Subscription := {
  SubscriptionID : Z; SubscriptionUUID : string; PolicyID : string;
  APIID : Z; APIUUID : string; AppID : Z; SubApplicationUUID : string;
  SubscriptionState : string;
  SubTenantID : Z; SubTenantDomain : string; SubTimeStamp : Z }.
Record KeyManager := { KMName : string; KMEnabled : bool }.
End types.

Record Application := {
  UUID : string; ID : Z; Name : string; SubName : string; Policy : string;
  TokenType : string; Attributes : gmap string string;
  TenantID : Z; TenantDomain : string; TimeStamp : Z }.

Record ApplicationKeyMapping := {
  ApplicationID : Z; ApplicationUUID : string; ConsumerKey : string;
  KeyType : string; KeyManager_ : string;
  KMTenantID : Z; KMTenantDomain : string; KMTimeStamp : Z }.

Record Subscription := {
  SubscriptionID : Z; SubscriptionUUID : string; PolicyID : string;
  APIID : Z; APIUUID : string; AppID : Z; SubApplicationUUID : string;
  SubscriptionState : string;
  SubTenantID : Z; SubTenantDomain : string; SubTimeStamp : Z }.

Record KeyManager := {
  KMName : string; KMEnabled : bool; Issuer : string; Certificate : string }.

(** The four package-level maps. *)
Record Mirror := {
  SubscriptionMap : gmap Z Subscription;
  ApplicationMap : gmap string Application;
  ApplicationKeyMappingMap : gmap string ApplicationKeyMapping;
  KeyManagerMap : gmap string KeyManager }.

Section marshaller.
(** The value of [config.GetControlPlaneConnectedTenantDomain()]. *)
Variable ControlPlaneConnectedTenantDomain : string.

Definition MarshalSubscription (subscriptionInternal : types.Subscription)
  : Subscription :=
  let sub := {|
    SubscriptionID := types.SubscriptionID subscriptionInternal;
    PolicyID := types.PolicyID subscriptionInternal;
    APIID := types.APIID subscriptionInternal;
    AppID := types.AppID subscriptionInternal;
    SubscriptionState := types.SubscriptionState subscriptionInternal;
    SubTimeStamp := types.SubTimeStamp subscriptionInternal;
    SubTenantID := types.SubTenantID subscriptionInternal;
    SubTenantDomain := types.SubTenantDomain subscriptionInternal;
    SubscriptionUUID := types.SubscriptionUUID subscriptionInternal;
    APIUUID := types.APIUUID subscriptionInternal;
    SubApplicationUUID := types.SubApplicationUUID subscriptionInternal |} in
  if String.eqb (SubTenantDomain sub) ""
  then {|
    SubscriptionID := SubscriptionID sub; PolicyID := PolicyID sub;
    APIID := APIID sub; AppID := AppID sub;
    SubscriptionState := SubscriptionState sub;
    SubTimeStamp := SubTimeStamp sub; SubTenantID := SubTenantID sub;
    SubTenantDomain := ControlPlaneConnectedTenantDomain;
    SubscriptionUUID := SubscriptionUUID sub; APIUUID := APIUUID sub;
    SubApplicationUUID := SubApplicationUUID sub |}
  else sub.

Definition MarshalApplication (appInternal : types.Application)
  : Application :=
  let app := {|
    UUID := types.UUID appInternal; ID := types.ID appInternal;
    Name := types.Name appInternal; SubName := types.SubName appInternal;
    Policy := types.Policy appInternal;
    TokenType := types.TokenType appInternal;
    Attributes := types.Attributes appInternal;
    TenantID := types.TenantID appInternal;
    TenantDomain := types.TenantDomain appInternal;
    TimeStamp := types.TimeStamp appInternal |} in
  if String.eqb (TenantDomain app) ""
  then {|
    UUID := UUID app; ID := ID app; Name := Name app;
    SubName := SubName app; Policy := Policy app;
    TokenType := TokenType app; Attributes := Attributes app;
    TenantID := TenantID app;
    TenantDomain := ControlPlaneConnectedTenantDomain;
    TimeStamp := TimeStamp app |}
  else app.

Definition marshalKeyMapping (keyMappingInternal : types.ApplicationKeyMapping)
  : ApplicationKeyMapping := {|
    ConsumerKey := types.ConsumerKey keyMappingInternal;
    KeyType := types.KeyType keyMappingInternal;
    KeyManager_ := types.KeyManager_ keyMappingInternal;
    ApplicationID := types.ApplicationID keyMappingInternal;
    ApplicationUUID := types.ApplicationUUID keyMappingInternal;
    KMTenantID := types.KMTenantID keyMappingInternal;
    KMTenantDomain := types.KMTenantDomain keyMappingInternal;
    KMTimeStamp := types.KMTimeStamp keyMappingInternal |}.

Definition MarshalKeyManager (keyManagerInternal : types.KeyManager)
  : KeyManager := {|
    KMName := types.KMName keyManagerInternal;
    KMEnabled := types.KMEnabled keyManagerInternal;
    Issuer := ""; Certificate := "" |}.

Definition GetApplicationKeyMappingReference
  (keyMapping : types.ApplicationKeyMapping) : string :=
  types.ConsumerKey keyMapping +:+ ":" +:+ types.KeyManager_ keyMapping.

(** Each [MarshalMultiple...] fills a fresh [resourceMap] in list order,
    stores it in the package-level variable and returns it. *)
Definition MarshalKeyManagers (keyManagersList : list types.KeyManager)
  (st : Mirror) : gmap string KeyManager * Mirror :=
  let resourceMap :=
    foldl (fun m keyManager =>
             <[types.KMName keyManager := MarshalKeyManager keyManager]> m)
          ∅ keyManagersList in
  (resourceMap,
   {| SubscriptionMap := SubscriptionMap st;
      ApplicationMap := ApplicationMap st;
      ApplicationKeyMappingMap := ApplicationKeyMappingMap st;
      KeyManagerMap := resourceMap |}).

Definition MarshalMultipleApplications (appList : list types.Application)
  (st : Mirror) : gmap string Application * Mirror :=
  let resourceMap :=
    foldl (fun m application =>
             let applicationSub := MarshalApplication application in
             <[types.UUID application := applicationSub]> m)
          ∅ appList in
  (resourceMap,
   {| SubscriptionMap := SubscriptionMap st;
      ApplicationMap := resourceMap;
      ApplicationKeyMappingMap := ApplicationKeyMappingMap st;
      KeyManagerMap := KeyManagerMap st |}).

Definition MarshalMultipleApplicationKeyMappings
  (keymappingList : list types.ApplicationKeyMapping)
  (st : Mirror) : gmap string ApplicationKeyMapping * Mirror :=
  let resourceMap :=
    foldl (fun m keyMapping =>
             let applicationKeyMappingReference :=
               GetApplicationKeyMappingReference keyMapping in
             let keyMappingSub := marshalKeyMapping keyMapping in
             <[applicationKeyMappingReference := keyMappingSub]> m)
          ∅ keymappingList in
  (resourceMap,
   {| SubscriptionMap := SubscriptionMap st;
      ApplicationMap := ApplicationMap st;
      ApplicationKeyMappingMap := resourceMap;
      KeyManagerMap := KeyManagerMap st |}).

Definition MarshalMultipleSubscriptions
  (subscriptionsList : list types.Subscription)
  (st : Mirror) : gmap Z Subscription * Mirror :=
  let resourceMap :=
    foldl (fun m sb => <[types.SubscriptionID sb := MarshalSubscription sb]> m)
          ∅ subscriptionsList in
  (resourceMap,
   {| SubscriptionMap := resourceMap;
      ApplicationMap := ApplicationMap st;
      ApplicationKeyMappingMap := ApplicationKeyMappingMap st;
      KeyManagerMap := KeyManagerMap st |}).

End marshaller.

(** The application of the snapshot that ends up stored under [uuid]:
    the last one carrying that UUID. *)
Definition latestWithUUID (uuid : string) (appList : list types.Application)
  : option types.Application :=
  last (filter (fun a => types.UUID a = uuid) appList).

End Eventhub.

(** ** Documents

    The generic trees that [yaml.v2] and [encoding/json] read and write:
    [map[string]interface{}], [map[interface{}]interface{}], slices and
    scalars.  A map is the list of its entries; a [float64] is kept by its
    decimal literal (the synthesizer only writes [-1.0]). *)

#[warnings="-register-all"]
Inductive Yaml : Type :=
| YNull
| YBool (b : bool)
| YInt (n : Z)
| YFloat (literal : string)
| YStr (s : string)
| YSeq (items : list Yaml)
| YMap (entries : list (Yaml * Yaml)).

(** [Go](value, err) results. *)
Inductive result (A : Type) : Type :=
| Ok (a : A)
| Err (msg : string).
Arguments Ok {A} a.
Arguments Err {A} msg.

Module GoMap.

Definition isKey (k : string) (y : Yaml) : bool :=
  match y with YStr s => String.eqb s k | _ => false end.

(** [m[k]] *)
Fixpoint get (k : string) (m : list (Yaml * Yaml)) : option Yaml :=
  match m with
  | [] => None
  | (k', v) :: m' => if isKey k k' then Some v else get k m'
  end.

(** [m[k] = v] *)
Fixpoint set (k : string) (v : Yaml) (m : list (Yaml * Yaml))
  : list (Yaml * Yaml) :=
  match m with
  | [] => [(YStr k, v)]
  | (k', v') :: m' =>
      if isKey k k' then (k', v) :: m' else (k', v') :: set k v m'
  end.

(** [delete(m, k)] *)
Fixpoint delete (k : string) (m : list (Yaml * Yaml)) : list (Yaml * Yaml) :=
  match m with
  | [] => []
  | (k', v') :: m' =>
      if isKey k k' then delete k m' else (k', v') :: delete k m'
  end.

(** A map literal with string keys. *)
Definition lit (kvs : list (string * Yaml)) : Yaml :=
  YMap (map (fun kv => (YStr (fst kv), snd kv)) kvs).

Definition strings (l : list string) : Yaml := YSeq (map YStr l).

End GoMap.

(** ** Slices with their backing arrays

    [append(s, x)] writes into the array of [s] when [len(s) < cap(s)] and
    only otherwise copies into a fresh array, so two slice values may see
    each other's later writes.  All slices here start at offset 0 of their
    array. *)

Module GoSlice.
Section slice.
Context {A : Type}.
(** The zero value that fills the unused capacity of a fresh array. *)
Variable zero : A.
(** The runtime's growth rule: the capacity [append] chooses for one more
    element on a full slice of the given capacity. *)
Variable growslice : nat -> nat.

Record Slice := { arr : nat; len : nat; cap : nat }.

(** The heap is the list of the backing arrays, by allocation number. *)

(** The nil slice. *)
Definition nilSlice : Slice := {| arr := 0; len := 0; cap := 0 |}.

(** The elements a slice value shows in a given heap. *)
Definition read (h : list (list A)) (s : Slice) : list A :=
  take (len s) (default [] (h !! arr s)).

Definition append (s : Slice) (x : A) (h : list (list A))
  : Slice * list (list A) :=
  if len s <? cap s
  then ({| arr := arr s; len := S (len s); cap := cap s |},
        alter (fun a => <[len s := x]> a) (arr s) h)
  else
    let newcap := Nat.max (S (len s)) (growslice (cap s)) in
    ({| arr := length h; len := S (len s); cap := newcap |},
     h ++ [read h s ++ x :: replicate (newcap - S (len s)) zero]).

End slice.
Arguments Slice : clear implicits.
End GoSlice.

(** ** The management server ([package managementserver]) *)

(** *** What lies outside the repository *)

(** Library calls whose results are functions of their arguments. *)
Record Lib := {
  (** [strings.EqualFold], [strings.ToUpper] (Unicode aware) *)
  strings_EqualFold : string -> string -> bool;
  strings_ToUpper : string -> string;
  (** [regexp.Compile(pattern)] followed by [MatchString(target)];
      [None] when the pattern does not compile *)
  regexp_MatchString : string -> string -> option bool;
  (** [yaml.Marshal], [json.Marshal] *)
  yaml_Marshal : Yaml -> result string;
  json_Marshal : Yaml -> result string;
  (** [yaml.Unmarshal] into [OpenAPIPaths]: every path with its verbs *)
  yaml_Unmarshal_OpenAPIPaths : string -> result (list (string * list string));
  (** [yaml.Unmarshal] into a [map[string]interface{}] variable that is nil:
      [Ok None] when the call returns no error and leaves the map nil, as it
      does on a null or empty document, [Ok (Some entries)] when it makes a
      map *)
  yaml_Unmarshal : string -> result (option (list (Yaml * Yaml)));
  (** [json.Unmarshal] into [map[string]interface{}]; the map is only handed
      to [yaml.Marshal], which renders the nil map as it renders the empty
      one *)
  json_Unmarshal : string -> result (list (Yaml * Yaml));
  (** capacity growth of [append] on [[]OperationPolicy] *)
  growslice : nat -> nat;
  (** [utils.DeleteAPIRevision(apiID, revisionID, payload)]: the error, if any *)
  utils_DeleteAPIRevision : string -> string -> string -> option string;
  (** [utils.CreateZipFile(&buf, files)]: the bytes written and the error *)
  utils_CreateZipFile : list (string * string) -> string * option string;
  (** [utils.ImportAPI(name, &buf)]: id and revision id, or the error *)
  utils_ImportAPI : string -> string -> result (string * string);
  (** the two decodings read the same document: one that leaves the map nil
      is the null document, which decodes into [OpenAPIPaths] without an
      error and without paths *)
  yaml_Unmarshal_nil :
    forall s, yaml_Unmarshal s = Ok None ->
              yaml_Unmarshal_OpenAPIPaths s = Ok [];
}.

(** Constants of [internal/constants], of [utils] and of the event types. *)
Record Consts := {
  ModelWeightedRoundRobin : string;
  AddHeader : string;
  RemoveHeader : string;
  MirrorRequest : string;
  RedirectRequest : string;
  V1 : string;
  CommonType : string;
  OpenAPIDefaultYaml : string;
  DeleteEvent : string;
}.

(** What may differ between two runs on the same input: the identifiers
    [uuid.New()] hands out ([uuid_New n] is the one of the [n]-th call of a
    run) and the order in which [range] visits the entries of a map
    ([range _ entries] is the order of the visit; within one run, maps with
    the same entries are visited alike). *)
Record Run := {
  uuid_New : nat -> string;
  range : forall A : Type, list A -> list A;
}.

(** [config.ReadConfigs()], the part that is read. *)
Record Config := {
  Provider : string;
  EnvironmentLabels : list string;
}.

(** *** The lifecycle event

    The event types are declared next to [rest_server.go]; the records
    below carry the fields that file reads, under the names it reads them
    by (a prefix separates fields that share a name across structs). *)

Record APKHeader := { HeaderName : string; HeaderValue : string }.

Record APKHeaderModifier := {
  AddHeaders : list APKHeader;
  RemoveHeaders : list string }.

(** The dynamic type of one entry of [Filters]. *)
Inductive Filter :=
| APKHeaders (RequestHeaders ResponseHeaders : APKHeaderModifier)
| APKMirrorRequest (URLs : list string)
| APKRedirectRequest (URL : string)
| UnknownFilter.

Record AIModelWeight := { Model : string; Endpoint : string; Weight : Z }.

Record AIModelRoundRobin := {
  ProductionModels : list AIModelWeight;
  SandboxModels : list AIModelWeight;
  OnQuotaExceedSuspendDuration : Z }.

Record OperationFromDP := {
  Path : string;
  Verb : string;
  Scopes : list string;
  Filters : list Filter;
  OpAIModelBasedRoundRobin : option AIModelRoundRobin }.

Record EndpointSecurity := {
  Enabled : bool;
  SecurityType : string;
  APIKeyName : string;
  APIKeyValue : string;
  BasicUsername : string;
  BasicPassword : string }.

(** One entry of [MultiEndpoints.ProdEndpoints] or [SandEndpoints]. *)
Record EndpointConfig := {
  URL : string;
  EpSecurityEnabled : bool;
  EpSecurityType : string;
  EpBasicUsername : string;
  EpBasicPassword : string;
  EpAPIKeyName : string;
  EpAPIKeyValue : string;
  EpAPIKeyIn : string }.

Record MultiEndpointsT := {
  Protocol : string;
  ProdEndpoints : list EndpointConfig;
  SandEndpoints : list EndpointConfig }.

Record AIConfigurationT := {
  LLMProviderID : string;
  LLMProviderName : string;
  LLMProviderAPIVersion : string }.

Record CORSPolicyT := {
  AccessControlAllowOrigins : list string;
  AccessControlAllowCredentials : bool;
  AccessControlAllowHeaders : list string;
  AccessControlAllowMethods : list string;
  AccessControlExposeHeaders : list string }.

Record AIRL := {
  RequestCount : Z;
  TimeUnit : string;
  PromptTokenCount : option Z;
  CompletionTokenCount : option Z;
  TotalTokenCount : option Z }.

Record API := {
  APIUUID : string;
  RevisionID : string;
  Vhost : string;
  APIName : string;
  APIVersion : string;
  BasePath : string;
  Organization : string;
  APIType : string;
  APISubType : string;
  AIConfiguration : AIConfigurationT;
  Definition_ : string;
  IsDefaultVersion : bool;
  EndpointProtocol : string;
  SandEndpoint : string;
  ProdEndpoint : string;
  SandEndpointSecurity : EndpointSecurity;
  ProdEndpointSecurity : EndpointSecurity;
  AuthHeader : string;
  APIKeyHeader : string;
  SecurityScheme : list string;
  APIProperties : list (string * string);
  CORSPolicy : option CORSPolicyT;
  ProdAIRL : option AIRL;
  SandAIRL : option AIRL;
  AIModelBasedRoundRobin : option AIModelRoundRobin;
  Operations : list OperationFromDP;
  MultiEndpoints : MultiEndpointsT }.

Record APICPEvent := { Event : string; API_ : API }.

(** *** Endpoint descriptors and policies *)

Record SecurityConfig := {
  ScEnabled : bool;
  ScType : string;
  ScUsername : string;
  ScPassword : string;
  ScAPIKeyIdentifier : string;
  ScAPIKeyValue : string;
  ScAPIKeyIdentifierType : string;
  ConnectionTimeoutDuration : string;
  SocketTimeoutDuration : string;
  ConnectionRequestTimeoutDuration : string }.

Record APIMEndpointConfig := {
  EndpointType : string;
  ProductionEndpointsURL : string;
  SandboxEndpointsURL : string;
  EndpointSecurityProduction : SecurityConfig;
  EndpointSecuritySandbox : SecurityConfig }.

Record APIMEndpoint := {
  DeploymentStage : string;
  EndpointUUID : string;
  EndpointName : string;
  EndpointConfig_ : APIMEndpointConfig }.

(** The zero value of [SecurityConfig]. *)
Definition zeroSecurityConfig : SecurityConfig :=
  {| ScEnabled := false; ScType := ""; ScUsername := ""; ScPassword := "";
     ScAPIKeyIdentifier := ""; ScAPIKeyValue := "";
     ScAPIKeyIdentifierType := "";
     ConnectionTimeoutDuration := "0"; SocketTimeoutDuration := "0";
     ConnectionRequestTimeoutDuration := "0" |}.

Record ModelConfig := {
  McModel : string;
  McEndpointID : string;
  McWeight : Z }.

(** The closed set of types that implement [FilterParameters]. *)
Inductive FilterParameters :=
| WeightedRoundRobinConfigs (weightedRoundRobinConfigs : string)
| ModelBasedRoundRobinConfig
    (Production Sandbox : list ModelConfig) (SuspendDuration : string)
| Header (Name Value : string)
| RedirectRequestParams (URL : string)
| MirrorRequestParams (URL : string).

Record OperationPolicy := {
  PolicyName : string;
  PolicyVersion : string;
  PolicyID : string;
  PolicyType : string;
  Parameters : option FilterParameters }.

Definition zeroOperationPolicy : OperationPolicy :=
  {| PolicyName := ""; PolicyVersion := ""; PolicyID := ""; PolicyType := "";
     Parameters := None |}.

(** [S] is what a policy list is held as: a slice while the operations are
    extracted, the list of its elements once they are serialised. *)
Record OperationPolicies (S : Type) := {
  Request : S;
  Response : S;
  Fault : list string }.
Arguments Request {S}.
Arguments Response {S}.
Arguments Fault {S}.

Record APIOperation (S : Type) := {
  ID : string;
  Target : string;
  OpVerb : string;
  AuthType : string;
  ThrottlingPolicy : string;
  OpScopes : list string;
  UsedProductIDs : list string;
  OperationPolicies_ : OperationPolicies S }.
Arguments ID {S}.
Arguments Target {S}.
Arguments OpVerb {S}.
Arguments AuthType {S}.
Arguments ThrottlingPolicy {S}.
Arguments OpScopes {S}.
Arguments UsedProductIDs {S}.
Arguments OperationPolicies_ {S}.

Record Scope := {
  ScopeName : string;
  DisplayName : string;
  Description : string;
  Bindings : list string }.

Record ScopeWrapper := { Scope_ : Scope; Shared : bool }.

Record AdditionalProperty := {
  PropName : string;
  PropValue : string;
  Display : bool }.

(** *** Operation matcher *)

(** Number of bytes before the first ["}"], if there is one. *)
Fixpoint bytesBeforeClose (s : string) : option nat :=
  match s with
  | "" => None
  | String c s' =>
      if Ascii.eqb c "}" then Some 0 else S <$> bytesBeforeClose s'
  end.

(** Length of the match of [{[^}]+}] that starts at the first byte of [s]:
    an opening brace, the longest non-empty run of bytes other than ["}"],
    and the ["}"] that ends it. *)
Definition matchPlaceholder (s : string) : option nat :=
  match s with
  | "" => None
  | String c s' =>
      if Ascii.eqb c "{"
      then match bytesBeforeClose s' with
           | Some (S n) => Some (S n + 2)
           | _ => None
           end
      else None
  end.

(** [re.ReplaceAllString(s, "hardcode")] for [re = {[^}]+}]: the leftmost
    matches, left to right, none overlapping; [skip] bytes of [s] still
    belong to the match replaced last. *)
Fixpoint replacePlaceholders (skip : nat) (s : string) : string :=
  match s with
  | "" => ""
  | String c s' =>
      match skip with
      | S k => replacePlaceholders k s'
      | 0 =>
          match matchPlaceholder s with
          | Some n => "hardcode" +:+ replacePlaceholders (n - 1) s'
          | None => String c (replacePlaceholders 0 s')
          end
      end
  end.

Definition processOpenAPIPath (path : string) : string :=
  replacePlaceholders 0 path.

Definition removeVersionSuffix (str1 str2 : string) : string :=
  if GoStrings.HasSuffix str1 str2
  then GoStrings.TrimSuffix str1 ("/" +:+ str2)
  else str1.

(** One [range] over a Go map with string keys and values. *)
Definition createAdditionalProperties (R : Run) (data : list (string * string))
  : list AdditionalProperty :=
  map (fun kv => {| PropName := fst kv; PropValue := snd kv; Display := false |})
      (range R _ data).

(** The identifier the inner loop of [convertAIModelWeightsToModelConfigs]
    leaves in [endpointID]. *)
Fixpoint endpointIDFor (apimEndpoints : list APIMEndpoint) (target : string)
  : string :=
  match apimEndpoints with
  | [] => ""
  | endpoint :: rest =>
      if String.eqb (ProductionEndpointsURL (EndpointConfig_ endpoint)) target
      then EndpointUUID endpoint
      else if String.eqb (SandboxEndpointsURL (EndpointConfig_ endpoint)) target
      then EndpointUUID endpoint
      else endpointIDFor rest target
  end.

Definition convertAIModelWeightsToModelConfigs (weights : list AIModelWeight)
  (apimEndpoints : list APIMEndpoint) (isProd : bool) : list ModelConfig :=
  map (fun weight =>
         {| McModel := Model weight;
            McEndpointID := endpointIDFor apimEndpoints (Endpoint weight);
            McWeight := Weight weight |})
      weights.

Abbreviation PolicySlice := GoSlice.Slice.
Abbreviation PolicyHeap := (list (list OperationPolicy)).

(** The two accumulators of [extractOperations] and the arrays behind
    them. *)
Record Accumulators := {
  requestOperationPolicies : PolicySlice;
  responseOperationPolicies : PolicySlice;
  heap : PolicyHeap }.

(** The loop state of [extractOperations]. *)
Record Extraction := {
  apiOperations : list (APIOperation PolicySlice);
  accumulators : Accumulators;
  scopewrappers : list (string * ScopeWrapper) }.

(** [scopewrappers[scope] = w] *)
Fixpoint setScope (scope : string) (w : ScopeWrapper)
  (m : list (string * ScopeWrapper)) : list (string * ScopeWrapper) :=
  match m with
  | [] => [(scope, w)]
  | (k, v) :: m' =>
      if String.eqb k scope then (k, w) :: m' else (k, v) :: setScope scope w m'
  end.

Section matcher.
Variable L : Lib.
Variable K : Consts.

Definition matchRegex (regexStr targetStr : string) : bool :=
  match regexp_MatchString L regexStr targetStr with
  | None => false
  | Some b => b
  end.

(** The loop rebinds [path] each time a verb matches. *)
Fixpoint findMatchingAPKOperation (path verb : string)
  (operations : list OperationFromDP) : option OperationFromDP :=
  match operations with
  | [] => None
  | operationFromDP :: rest =>
      if strings_EqualFold L (Verb operationFromDP) verb
      then
        let path := processOpenAPIPath path in
        if matchRegex (Path operationFromDP) path
        then Some operationFromDP
        else findMatchingAPKOperation path verb rest
      else findMatchingAPKOperation path verb rest
  end.

Definition appendPolicy (s : PolicySlice) (p : OperationPolicy) (h : PolicyHeap)
  : PolicySlice * PolicyHeap :=
  GoSlice.append zeroOperationPolicy (growslice L) s p h.

(** [requestOperationPolicies = append(requestOperationPolicies, p)] *)
Definition appendRequest (a : Accumulators) (p : OperationPolicy)
  : Accumulators :=
  let '(s, h) := appendPolicy (requestOperationPolicies a) p (heap a) in
  {| requestOperationPolicies := s;
     responseOperationPolicies := responseOperationPolicies a;
     heap := h |}.

(** [responseOperationPolicies = append(responseOperationPolicies, p)] *)
Definition appendResponse (a : Accumulators) (p : OperationPolicy)
  : Accumulators :=
  let '(s, h) := appendPolicy (responseOperationPolicies a) p (heap a) in
  {| requestOperationPolicies := requestOperationPolicies a;
     responseOperationPolicies := s;
     heap := h |}.

(** [requestOperationPolicies = append(responseOperationPolicies, p)],
    the statement of the request-header removal loop. *)
Definition requestFromResponse (a : Accumulators) (p : OperationPolicy)
  : Accumulators :=
  let '(s, h) := appendPolicy (responseOperationPolicies a) p (heap a) in
  {| requestOperationPolicies := s;
     responseOperationPolicies := responseOperationPolicies a;
     heap := h |}.

Definition addHeaderPolicy (h : APKHeader) : OperationPolicy :=
  {| PolicyName := AddHeader K; PolicyVersion := V1 K;
     PolicyID := ""; PolicyType := "";
     Parameters := Some (Header (HeaderName h) (HeaderValue h)) |}.

Definition removeHeaderPolicy (name : string) : OperationPolicy :=
  {| PolicyName := RemoveHeader K; PolicyVersion := V1 K;
     PolicyID := ""; PolicyType := "";
     Parameters := Some (Header name "") |}.

Definition mirrorPolicy (url : string) : OperationPolicy :=
  {| PolicyName := MirrorRequest K; PolicyVersion := V1 K;
     PolicyID := ""; PolicyType := "";
     Parameters := Some (MirrorRequestParams url) |}.

Definition redirectPolicy (url : string) : OperationPolicy :=
  {| PolicyName := RedirectRequest K; PolicyVersion := V1 K;
     PolicyID := ""; PolicyType := "";
     Parameters := Some (MirrorRequestParams url) |}.

Definition roundRobinPolicy (rr : AIModelRoundRobin)
  (apimEndpoints : list APIMEndpoint) : OperationPolicy :=
  {| PolicyName := ModelWeightedRoundRobin K; PolicyVersion := V1 K;
     PolicyID := ""; PolicyType := "";
     Parameters :=
       Some (ModelBasedRoundRobinConfig
               (convertAIModelWeightsToModelConfigs
                  (ProductionModels rr) apimEndpoints true)
               (convertAIModelWeightsToModelConfigs
                  (SandboxModels rr) apimEndpoints false)
               (GoStrings.itoa (OnQuotaExceedSuspendDuration rr))) |}.

(** One iteration of the [switch] over the filters of an operation. *)
Definition processFilter (a : Accumulators) (operationLevelFilter : Filter)
  : Accumulators :=
  match operationLevelFilter with
  | APKHeaders requestHeaders responseHeaders =>
      let a := foldl (fun a requestHeader =>
                        appendRequest a (addHeaderPolicy requestHeader))
                     a (AddHeaders requestHeaders) in
      let a := foldl (fun a requestHeader =>
                        requestFromResponse a (removeHeaderPolicy requestHeader))
                     a (RemoveHeaders requestHeaders) in
      let a := foldl (fun a responseHeader =>
                        appendResponse a (addHeaderPolicy responseHeader))
                     a (AddHeaders responseHeaders) in
      foldl (fun a responseHeader =>
               appendResponse a (removeHeaderPolicy responseHeader))
            a (RemoveHeaders responseHeaders)
  | APKMirrorRequest urls =>
      foldl (fun a url => appendRequest a (mirrorPolicy url)) a urls
  | APKRedirectRequest url => appendRequest a (redirectPolicy url)
  | UnknownFilter => a
  end.

Definition scopeWrapperOf (scope : string) : ScopeWrapper :=
  {| Scope_ := {| ScopeName := scope; DisplayName := scope;
                  Description := scope; Bindings := [] |};
     Shared := false |}.

(** The body of the loop over the (path, verb) pairs of the schema. *)
Definition extractOne (operations : list OperationFromDP)
  (apimEndpoints : list APIMEndpoint) (st : Extraction)
  (pv : string * string) : Extraction :=
  let '(path, verb) := pv in
  match findMatchingAPKOperation path verb operations with
  | None => st
  | Some operationFromDP =>
      let scopes := Scopes operationFromDP in
      let scopewrappers :=
        foldl (fun m scope => setScope scope (scopeWrapperOf scope) m)
              (scopewrappers st) scopes in
      let a := accumulators st in
      let a := match OpAIModelBasedRoundRobin operationFromDP with
               | Some aiModelBasedRoundRobin =>
                   appendRequest a
                     (roundRobinPolicy aiModelBasedRoundRobin apimEndpoints)
               | None => a
               end in
      let a := foldl processFilter a (Filters operationFromDP) in
      let apiOp :=
        {| ID := ""; Target := path; OpVerb := verb;
           AuthType := "Application & Application User";
           ThrottlingPolicy := "Unlimited";
           OpScopes := scopes; UsedProductIDs := [];
           OperationPolicies_ :=
             {| Request := requestOperationPolicies a;
                Response := responseOperationPolicies a;
                Fault := [] |} |} in
      {| apiOperations := apiOperations st ++ [apiOp];
         accumulators := a;
         scopewrappers := scopewrappers |}
  end.

Definition initialExtraction : Extraction :=
  {| apiOperations := [];
     accumulators := {| requestOperationPolicies := GoSlice.nilSlice;
                        responseOperationPolicies := GoSlice.nilSlice;
                        heap := [] |};
     scopewrappers := [] |}.

(** What the serialiser sees of an operation once extraction is over: the
    elements its two slices show in the arrays as they are left. *)
Definition readOperation (h : PolicyHeap) (op : APIOperation PolicySlice)
  : APIOperation (list OperationPolicy) :=
  {| ID := ID op; Target := Target op; OpVerb := OpVerb op;
     AuthType := AuthType op; ThrottlingPolicy := ThrottlingPolicy op;
     OpScopes := OpScopes op; UsedProductIDs := UsedProductIDs op;
     OperationPolicies_ :=
       {| Request := GoSlice.read h (Request (OperationPolicies_ op));
          Response := GoSlice.read h (Response (OperationPolicies_ op));
          Fault := Fault (OperationPolicies_ op) |} |}.

(** The (path, verb) pairs in the order the two nested [range]s visit
    them. *)
Definition schemaPairs (R : Run) (paths : list (string * list string))
  : list (string * string) :=
  flat_map (fun po => map (pair (fst po)) (range R _ (snd po)))
           (range R _ paths).

Definition extractREST (R : Run) (event : APICPEvent)
  (apimEndpoints : list APIMEndpoint) (paths : list (string * list string))
  : Extraction :=
  foldl (extractOne (Operations (API_ event)) apimEndpoints)
        initialExtraction (schemaPairs R paths).

(** Returns the operations, the scopes and the error.  The GraphQL branch
    fills [apiOperations] and then leaves the [if] for the final [return],
    which hands back empty slices. *)
Definition extractOperations (R : Run) (event : APICPEvent)
  (apimEndpoints : list APIMEndpoint)
  : list (APIOperation (list OperationPolicy)) * list ScopeWrapper
    * option string :=
  if String.eqb (strings_ToUpper L (APIType (API_ event))) "GRAPHQL" then
    let apiOperations : list (APIOperation PolicySlice) :=
      map (fun operation =>
             {| ID := ""; Target := Path operation; OpVerb := Verb operation;
                AuthType := "Application & Application User";
                ThrottlingPolicy := "Unlimited";
                OpScopes := []; UsedProductIDs := [];
                OperationPolicies_ :=
                  {| Request := GoSlice.nilSlice;
                     Response := GoSlice.nilSlice; Fault := [] |} |})
          (Operations (API_ event)) in
    ([], [], None)
  else if String.eqb (strings_ToUpper L (APIType (API_ event))) "REST" then
    match yaml_Unmarshal_OpenAPIPaths L (Definition_ (API_ event)) with
    | Err err => ([], [], Some err)
    | Ok paths =>
        let st := extractREST R event apimEndpoints paths in
        let scopeWrapperSlice := map snd (range R _ (scopewrappers st)) in
        (map (readOperation (heap (accumulators st))) (apiOperations st),
         scopeWrapperSlice, None)
    end
  else ([], [], None).

End matcher.

(** *** Serialised shapes

    What [yaml.Marshal] and [json.Marshal] make of the structs, by their
    field tags ([omitempty] fields are left out when empty; a field without
    a yaml tag goes by its lower-cased name; a nil slice is [[]] in YAML
    and [null] in JSON). *)

Definition quote : string := String (Ascii.ascii_of_nat 34) "".

Definition newline : string := String (Ascii.ascii_of_nat 10) "".

Definition omitempty (key value : string) : list (string * Yaml) :=
  if String.eqb value "" then [] else [(key, YStr value)].

Definition yamlModelConfig (c : ModelConfig) : Yaml :=
  GoMap.lit [("model", YStr (McModel c)); ("endpointId", YStr (McEndpointID c));
             ("weight", YInt (McWeight c))].

Definition yamlParameters (p : option FilterParameters) : Yaml :=
  match p with
  | None => YNull
  | Some (WeightedRoundRobinConfigs s) =>
      GoMap.lit [("weightedRoundRobinConfigs", YStr s)]
  | Some (ModelBasedRoundRobinConfig production sandbox suspendDuration) =>
      GoMap.lit [("production", YSeq (map yamlModelConfig production));
                 ("sandbox", YSeq (map yamlModelConfig sandbox));
                 ("suspendDuration", YStr suspendDuration)]
  | Some (Header name value) =>
      GoMap.lit (("headerName", YStr name) :: omitempty "headerValue" value)
  | Some (RedirectRequestParams url) => GoMap.lit [("url", YStr url)]
  | Some (MirrorRequestParams url) => GoMap.lit [("url", YStr url)]
  end.

Definition yamlOperationPolicy (p : OperationPolicy) : Yaml :=
  GoMap.lit ([("policyName", YStr (PolicyName p));
              ("policyVersion", YStr (PolicyVersion p))]
             ++ omitempty "policyId" (PolicyID p)
             ++ omitempty "policyType" (PolicyType p)
             ++ [("parameters", yamlParameters (Parameters p))]).

Definition yamlOperationPolicies
  (ps : OperationPolicies (list OperationPolicy)) : Yaml :=
  GoMap.lit [("request", YSeq (map yamlOperationPolicy (Request ps)));
             ("response", YSeq (map yamlOperationPolicy (Response ps)));
             ("fault", GoMap.strings (Fault ps))].

Definition yamlAPIOperation (op : APIOperation (list OperationPolicy)) : Yaml :=
  GoMap.lit [("id", YStr (ID op)); ("target", YStr (Target op));
             ("verb", YStr (OpVerb op)); ("authType", YStr (AuthType op));
             ("throttlingPolicy", YStr (ThrottlingPolicy op));
             ("scopes", GoMap.strings (OpScopes op));
             ("usedProductIds", GoMap.strings (UsedProductIDs op));
             ("operationPolicies",
              yamlOperationPolicies (OperationPolicies_ op))].

Definition yamlScopeWrapper (w : ScopeWrapper) : Yaml :=
  GoMap.lit [("scope",
              GoMap.lit [("name", YStr (ScopeName (Scope_ w)));
                         ("displayName", YStr (DisplayName (Scope_ w)));
                         ("description", YStr (Description (Scope_ w)));
                         ("bindings", GoMap.strings (Bindings (Scope_ w)))]);
             ("shared", YBool (Shared w))].

Definition yamlAdditionalProperty (p : AdditionalProperty) : Yaml :=
  GoMap.lit [("name", YStr (PropName p)); ("value", YStr (PropValue p));
             ("display", YBool (Display p))].

Definition jsonModelConfigs (l : list ModelConfig) : Yaml :=
  match l with
  | [] => YNull
  | _ => YSeq (map yamlModelConfig l)
  end.

(** [ModelBasedRoundRobinConfig] as [json.Marshal] sees it. *)
Definition jsonModelBasedRoundRobinConfig
  (production sandbox : list ModelConfig) (suspendDuration : string) : Yaml :=
  GoMap.lit [("production", jsonModelConfigs production);
             ("sandbox", jsonModelConfigs sandbox);
             ("suspendDuration", YStr suspendDuration)].

(** *** Endpoint resolver: the two loops at the head of [createAPIYaml] *)

Record EndpointLoop := {
  count : nat;
  primaryEndpointID : string;
  primaryURL : string;
  apimEndpints : list APIMEndpoint;
  (** calls of [uuid.New()] made so far in this run *)
  uuidCalls : nat }.

Definition securityConfigOf (endpoint : EndpointConfig) : SecurityConfig :=
  {| ScEnabled := EpSecurityEnabled endpoint;
     ScType := EpSecurityType endpoint;
     ScUsername := EpBasicUsername endpoint;
     ScPassword := EpBasicPassword endpoint;
     ScAPIKeyIdentifier := EpAPIKeyName endpoint;
     ScAPIKeyValue := EpAPIKeyValue endpoint;
     ScAPIKeyIdentifierType := EpAPIKeyIn endpoint;
     ConnectionTimeoutDuration := "-1";
     SocketTimeoutDuration := "-1";
     ConnectionRequestTimeoutDuration := "-1" |}.

Definition endpointURL (multiEndpoints : MultiEndpointsT)
  (endpoint : EndpointConfig) : string :=
  if String.eqb (URL endpoint) "" then ""
  else Protocol multiEndpoints +:+ "://" +:+ URL endpoint.

Definition prodEndpointStep (R : Run) (multiEndpoints : MultiEndpointsT)
  (st : EndpointLoop) (endpoint : EndpointConfig) : EndpointLoop :=
  let prodCount := S (count st) in
  let endpointName :=
    if prodCount =? 1 then "Default Production Endpoint"
    else GoStrings.itoa (Z.of_nat prodCount) +:+ " Production Endpoint" in
  let prodEndpoint := endpointURL multiEndpoints endpoint in
  let endpointUUID := uuid_New R (uuidCalls st) +:+ "--PRODUCTION" in
  {| count := prodCount;
     primaryEndpointID :=
       if prodCount =? 1 then endpointUUID else primaryEndpointID st;
     primaryURL := if prodCount =? 1 then prodEndpoint else primaryURL st;
     apimEndpints :=
       apimEndpints st ++
       [{| DeploymentStage := "PRODUCTION";
           EndpointUUID := endpointUUID;
           EndpointName := endpointName;
           EndpointConfig_ :=
             {| EndpointType := Protocol multiEndpoints;
                ProductionEndpointsURL := prodEndpoint;
                SandboxEndpointsURL := "";
                EndpointSecurityProduction := securityConfigOf endpoint;
                EndpointSecuritySandbox := zeroSecurityConfig |} |}];
     uuidCalls := S (uuidCalls st) |}.

Definition sandEndpointStep (R : Run) (multiEndpoints : MultiEndpointsT)
  (st : EndpointLoop) (endpoint : EndpointConfig) : EndpointLoop :=
  let sandCount := S (count st) in
  let endpointName :=
    if sandCount =? 1 then "Default Sandbox Endpoint"
    else GoStrings.itoa (Z.of_nat sandCount) +:+ " Sandbox Endpoint" in
  let sandEndpoint := endpointURL multiEndpoints endpoint in
  let endpointUUID := uuid_New R (uuidCalls st) +:+ "--SANDBOX" in
  {| count := sandCount;
     primaryEndpointID :=
       if sandCount =? 1 then endpointUUID else primaryEndpointID st;
     primaryURL := if sandCount =? 1 then sandEndpoint else primaryURL st;
     apimEndpints :=
       apimEndpints st ++
       [{| DeploymentStage := "SANDBOX";
           EndpointUUID := endpointUUID;
           EndpointName := endpointName;
           EndpointConfig_ :=
             {| EndpointType := Protocol multiEndpoints;
                ProductionEndpointsURL := "";
                SandboxEndpointsURL := sandEndpoint;
                EndpointSecurityProduction := zeroSecurityConfig;
                EndpointSecuritySandbox := securityConfigOf endpoint |} |}];
     uuidCalls := S (uuidCalls st) |}.

(** The state after the production loop, and after the sandbox loop, which
    goes on appending to the same [apimEndpints] with its own counter and
    primary. *)
Definition prodLoop (R : Run) (multiEndpoints : MultiEndpointsT) : EndpointLoop :=
  foldl (prodEndpointStep R multiEndpoints)
        {| count := 0; primaryEndpointID := ""; primaryURL := "";
           apimEndpints := []; uuidCalls := 0 |}
        (ProdEndpoints multiEndpoints).

Definition sandLoop (R : Run) (multiEndpoints : MultiEndpointsT) : EndpointLoop :=
  let prod := prodLoop R multiEndpoints in
  foldl (sandEndpointStep R multiEndpoints)
        {| count := 0; primaryEndpointID := ""; primaryURL := "";
           apimEndpints := apimEndpints prod; uuidCalls := uuidCalls prod |}
        (SandEndpoints multiEndpoints).

(** *** Artifact synthesizer *)

(** [delete(m[key].(map[string]interface{}), inner)] *)
Definition deleteNested (key inner : string) (m : list (Yaml * Yaml))
  : list (Yaml * Yaml) :=
  match GoMap.get key m with
  | Some (YMap e) => GoMap.set key (YMap (GoMap.delete inner e)) m
  | _ => m
  end.

(** One entry of [endpoint_security] of the API definition; the four
    literals of [createAPIYaml] differ in the event field they read and in
    the [type] they write. *)
Definition endpointSecurityEntry (sec : EndpointSecurity) (secType : string)
  : Yaml :=
  GoMap.lit [("apiKeyValue", YStr (APIKeyValue sec));
             ("apiKeyIdentifier", YStr (APIKeyName sec));
             ("apiKeyIdentifierType", YStr "HEADER");
             ("type", YStr secType);
             ("username", YStr (BasicUsername sec));
             ("password", YStr (BasicPassword sec));
             ("enabled", YBool (Enabled sec));
             ("additionalProperties", YMap []);
             ("customParameters", YMap []);
             ("connectionTimeoutDuration", YFloat "-1");
             ("socketTimeoutDuration", YFloat "-1");
             ("connectionRequestTimeoutDuration", YFloat "-1")].

Definition endpointConfigMap (protocol sandboxURL productionURL : string)
  (sandboxSec : Yaml) (productionSec : Yaml) : list (Yaml * Yaml) :=
  [(YStr "endpoint_type", YStr protocol);
   (YStr "sandbox_endpoints", GoMap.lit [("url", YStr sandboxURL)]);
   (YStr "production_endpoints", GoMap.lit [("url", YStr productionURL)]);
   (YStr "endpoint_security",
    GoMap.lit [("sandbox", sandboxSec); ("production", productionSec)])].

Definition setOpt (key : string) (v : option Z) (m : list (Yaml * Yaml))
  : list (Yaml * Yaml) :=
  match v with
  | Some n => GoMap.set key (YInt n) m
  | None => m
  end.

(** The [maxTps] block. *)
Definition maxTpsMap (L : Lib) (api : API) : list (Yaml * Yaml) :=
  let maxTps : list (Yaml * Yaml) := [] in
  let maxTps :=
    match ProdAIRL api with
    | Some airl =>
        let maxTps := GoMap.set "production" (YInt (RequestCount airl)) maxTps in
        let maxTps :=
          GoMap.set "productionTimeUnit"
                    (YStr (strings_ToUpper L (TimeUnit airl))) maxTps in
        let tokenConfig : list (Yaml * Yaml) := [] in
        let tokenConfig :=
          setOpt "productionMaxPromptTokenCount" (PromptTokenCount airl)
                 tokenConfig in
        let tokenConfig :=
          setOpt "productionMaxCompletionTokenCount"
                 (CompletionTokenCount airl) tokenConfig in
        let tokenConfig :=
          setOpt "productionMaxTotalTokenCount" (TotalTokenCount airl)
                 tokenConfig in
        if 0 <? length tokenConfig
        then GoMap.set "tokenBasedThrottlingConfiguration"
               (YMap (GoMap.set "isTokenBasedThrottlingEnabled" (YBool true)
                                tokenConfig))
               maxTps
        else maxTps
    | None => maxTps
    end in
  match SandAIRL api with
  | Some airl =>
      let maxTps := GoMap.set "sandbox" (YInt (RequestCount airl)) maxTps in
      let maxTps :=
        GoMap.set "sandboxTimeUnit"
                  (YStr (strings_ToUpper L (TimeUnit airl))) maxTps in
      let tokenConfig :=
        match GoMap.get "tokenBasedThrottlingConfiguration" maxTps with
        | Some (YMap m) => m
        | _ => []
        end in
      let tokenConfig :=
        setOpt "sandboxMaxPromptTokenCount" (PromptTokenCount airl)
               tokenConfig in
      let tokenConfig :=
        setOpt "sandboxMaxCompletionTokenCount" (CompletionTokenCount airl)
               tokenConfig in
      let tokenConfig :=
        setOpt "sandboxMaxTotalTokenCount" (TotalTokenCount airl)
               tokenConfig in
      GoMap.set "tokenBasedThrottlingConfiguration" (YMap tokenConfig) maxTps
  | None => maxTps
  end.

(** The loop over [operations] for one (path, verb) entry of the parsed
    schema; it ends at the first operation with that target and verb.
    [None] is the panic of [path.(string)] or [verb.(string)] on a key
    that is no string. *)
Fixpoint annotateVerb (L : Lib)
  (operations : list (APIOperation (list OperationPolicy)))
  (path verb verbContent : Yaml) : option Yaml :=
  match operations with
  | [] => Some verbContent
  | operation :: rest =>
      match path with
      | YStr p =>
          if strings_EqualFold L p (Target operation) then
            match verb with
            | YStr v =>
                if strings_EqualFold L v (OpVerb operation) then
                  match verbContent with
                  | YMap verbContentMap =>
                      let verbContentMap :=
                        if 0 <? length (OpScopes operation)
                        then GoMap.set "security"
                               (YSeq [GoMap.lit
                                        [("default",
                                          GoMap.strings (OpScopes operation))]])
                               verbContentMap
                        else verbContentMap in
                      Some (YMap (GoMap.set "x-auth-type"
                                    (YStr "Application & Application User")
                                    verbContentMap))
                  | _ => Some verbContent
                  end
                else annotateVerb L rest path verb verbContent
            | _ => None
            end
          else annotateVerb L rest path verb verbContent
      | _ => None
      end
  end.

Definition annotatePath (L : Lib)
  (operations : list (APIOperation (list OperationPolicy)))
  (entry : Yaml * Yaml) : option (Yaml * Yaml) :=
  let '(path, pathContent) := entry in
  match pathContent with
  | YMap pathContentMap =>
      verbs ← mapM (fun ve : Yaml * Yaml =>
                      c ← annotateVerb L operations path ve.1 ve.2;
                      Some (ve.1, c))
                   pathContentMap;
      Some (path, YMap verbs)
  | _ => Some entry
  end.

(** The REST branch on a schema that parsed: operations annotated, the
    [default] security scheme added to [components].  [openAPI] is [None]
    when the map is nil: reading a key of the nil map finds nothing, and
    the assignment [openAPI["components"] = components] that ends the branch
    panics on it. *)
Definition rewriteOpenAPI (L : Lib)
  (operations : list (APIOperation (list OperationPolicy)))
  (scopes : list ScopeWrapper) (openAPI : option (list (Yaml * Yaml)))
  : option (list (Yaml * Yaml)) :=
  let isNil := match openAPI with None => true | Some _ => false end in
  let openAPI := default [] openAPI in
  openAPI ←
    match GoMap.get "paths" openAPI with
    | Some (YMap paths) =>
        paths ← mapM (annotatePath L operations) paths;
        Some (GoMap.set "paths" (YMap paths) openAPI)
    | _ => Some openAPI
    end;
  let scopesForOpenAPIComponents :=
    foldl (fun m scopeWrapper =>
             GoMap.set (ScopeName (Scope_ scopeWrapper)) (YStr "") m)
          [] scopes in
  let components :=
    match GoMap.get "components" openAPI with
    | Some (YMap m) => m
    | _ => []
    end in
  let securitySchemes :=
    match GoMap.get "securitySchemes" components with
    | Some (YMap m) => m
    | _ => []
    end in
  let securitySchemes :=
    GoMap.set "default"
      (GoMap.lit
         [("type", YStr "oauth2");
          ("flows",
           GoMap.lit
             [("implicit",
               GoMap.lit
                 [("authorizationUrl", YStr "https://test.com");
                  ("scopes", YMap scopesForOpenAPIComponents);
                  ("x-scopes-bindings", YMap scopesForOpenAPIComponents)])])])
      securitySchemes in
  let components :=
    GoMap.set "securitySchemes" (YMap securitySchemes) components in
  if isNil then None
  else Some (GoMap.set "components" (YMap components) openAPI).

(** One entry of [endpoint_security] of the endpoints document. *)
Definition endpointsSecurityEntry (sec : SecurityConfig) : Yaml :=
  GoMap.lit [("enabled", YBool (ScEnabled sec));
             ("type", YStr (ScType sec));
             ("apiKeyIdentifier", YStr (ScAPIKeyIdentifier sec));
             ("apiKeyValue", YStr (ScAPIKeyValue sec));
             ("apiKeyIdentifierType", YStr (ScAPIKeyIdentifierType sec));
             ("username", YStr (ScUsername sec));
             ("customParameters", YStr "{}");
             ("connectionTimeoutDuration",
              YFloat (ConnectionTimeoutDuration sec));
             ("connectionRequestTimeoutDuration",
              YFloat (ConnectionRequestTimeoutDuration sec));
             ("socketTimeoutDuration", YFloat (SocketTimeoutDuration sec));
             ("grantType", YStr "");
             ("tokenUrl", YStr "");
             ("proxyConfigs",
              GoMap.lit [("proxyEnabled", YStr ""); ("proxyHost", YStr "");
                         ("proxyPort", YStr ""); ("proxyUsername", YStr "");
                         ("proxyPassword", YStr "");
                         ("proxyProtocol", YStr "")])].

(** The body of the loop that fills [dataArr]. *)
Definition endpointMapOf (e : APIMEndpoint) : Yaml :=
  let endpointMap : list (Yaml * Yaml) :=
    [(YStr "id", YStr (EndpointUUID e));
     (YStr "name", YStr (EndpointName e));
     (YStr "deploymentStage", YStr (DeploymentStage e))] in
  let configMap : list (Yaml * Yaml) :=
    [(YStr "endpoint_type", YStr (EndpointType (EndpointConfig_ e)))] in
  let configMap :=
    if String.eqb (DeploymentStage e) "PRODUCTION" then
      GoMap.set "production_endpoints"
        (GoMap.lit [("url", YStr (ProductionEndpointsURL (EndpointConfig_ e)))])
        configMap
    else if String.eqb (DeploymentStage e) "SANDBOX" then
      GoMap.set "sandbox_endpoints"
        (GoMap.lit [("url", YStr (SandboxEndpointsURL (EndpointConfig_ e)))])
        configMap
    else configMap in
  let endpointSecurityMap : list (Yaml * Yaml) := [] in
  let endpointSecurityMap :=
    if String.eqb (DeploymentStage e) "PRODUCTION" then
      GoMap.set "production"
        (endpointsSecurityEntry (EndpointSecurityProduction (EndpointConfig_ e)))
        endpointSecurityMap
    else if String.eqb (DeploymentStage e) "SANDBOX" then
      GoMap.set "sandbox"
        (endpointsSecurityEntry (EndpointSecuritySandbox (EndpointConfig_ e)))
        endpointSecurityMap
    else endpointSecurityMap in
  let endpointSecurityMap :=
    GoMap.set "customParameters" (YStr "null") endpointSecurityMap in
  let configMap :=
    GoMap.set "endpoint_security" (YMap endpointSecurityMap) configMap in
  YMap (GoMap.set "endpointConfig" (YMap configMap) endpointMap).

Section synthesizer.
Variable L : Lib.
Variable K : Consts.

(** [yaml.Marshal] where the error is dropped: [string(nil)] on failure. *)
Definition marshalOrEmpty (y : Yaml) : string :=
  match yaml_Marshal L y with
  | Ok s => s
  | Err _ => ""
  end.

(** The provider: ["admin"] unless the configuration could be read. *)
Definition providerOf (cfg : result Config) : string :=
  match cfg with
  | Ok config => Provider config
  | Err _ => "admin"
  end.

(** The environment labels: [["Default"]] unless the configuration could be
    read. *)
Definition envLabelOf (cfg : result Config) : list string :=
  match cfg with
  | Ok config => EnvironmentLabels config
  | Err _ => ["Default"]
  end.

(** [ConvertYAMLToMap] converts a YAML string to a
    [map[string]interface{}]; [yamlData] is declared nil, and is returned
    nil, without an error, when [yaml.Unmarshal] leaves it so. *)
Definition ConvertYAMLToMap (yamlString : string)
  : result (option (list (Yaml * Yaml))) :=
  yaml_Unmarshal L yamlString.

(** [createAPIYaml] builds the map under ["data"] as one literal and then
    updates it in place, statement by statement.  Each definition below is
    one of these statements, in the order of the source. *)

(** The literal. *)
Definition initialData (R : Run) (cfg : result Config) (api : API)
  (operations : list (APIOperation (list OperationPolicy)))
  (scopes : list ScopeWrapper) : list (Yaml * Yaml) :=
  let provider := providerOf cfg in
  let context := removeVersionSuffix (BasePath api) (APIVersion api) in
  let sandEndpoint :=
    if String.eqb (SandEndpoint api) "" then SandEndpoint api
    else EndpointProtocol api +:+ "://" +:+ SandEndpoint api in
  let prodEndpoint :=
    if String.eqb (ProdEndpoint api) "" then ProdEndpoint api
    else EndpointProtocol api +:+ "://" +:+ ProdEndpoint api in
  let authHeader := AuthHeader api in
  let apiKeyHeader := APIKeyHeader api in
  let apiType :=
    if String.eqb (APIType api) "GraphQL" then "GRAPHQL" else "HTTP" in
  let sandboxSecType :=
    if String.eqb (SecurityType (SandEndpointSecurity api)) "" then "NONE"
    else SecurityType (SandEndpointSecurity api) in
  let prodSecType :=
    if String.eqb (SecurityType (ProdEndpointSecurity api)) "" then "NONE"
    else SecurityType (ProdEndpointSecurity api) in
  [(YStr "name", YStr (APIName api));
   (YStr "context", YStr context);
   (YStr "version", YStr (APIVersion api));
   (YStr "organizationId", YStr (Organization api));
   (YStr "provider", YStr provider);
   (YStr "lifeCycleStatus", YStr "CREATED");
   (YStr "responseCachingEnabled", YBool false);
   (YStr "cacheTimeout", YInt 300);
   (YStr "hasThumbnail", YBool false);
   (YStr "isDefaultVersion", YBool (IsDefaultVersion api));
   (YStr "isRevision", YBool false);
   (YStr "enableSchemaValidation", YBool false);
   (YStr "enableSubscriberVerification", YBool false);
   (YStr "type", YStr apiType);
   (YStr "transport", GoMap.strings ["http"; "https"]);
   (YStr "endpointConfig",
    YMap (endpointConfigMap (EndpointProtocol api) sandEndpoint prodEndpoint
            (endpointSecurityEntry (SandEndpointSecurity api) sandboxSecType)
            (endpointSecurityEntry (ProdEndpointSecurity api) prodSecType)));
   (YStr "policies", GoMap.strings ["Unlimited"]);
   (YStr "gatewayType", YStr "wso2/apk");
   (YStr "gatewayVendor", YStr "wso2");
   (YStr "operations", YSeq (map yamlAPIOperation operations));
   (YStr "additionalProperties",
    YSeq (map yamlAdditionalProperty
            (createAdditionalProperties R (APIProperties api))));
   (YStr "securityScheme", GoMap.strings (SecurityScheme api));
   (YStr "authorizationHeader", YStr authHeader);
   (YStr "apiKeyHeader", YStr apiKeyHeader);
   (YStr "scopes", YSeq (map yamlScopeWrapper scopes))].

(** [if len(subTypeConfiguration) > 0 { data["subtypeConfiguration"] = ... }] *)
Definition setSubtypeConfiguration (api : API) (data : list (Yaml * Yaml))
  : list (Yaml * Yaml) :=
  let subTypeConfiguration : list (Yaml * Yaml) :=
    if negb (String.eqb (APISubType api) "")
       && negb (String.eqb (LLMProviderID (AIConfiguration api)) "")
       && negb (String.eqb (LLMProviderName (AIConfiguration api)) "")
       && negb (String.eqb (LLMProviderAPIVersion (AIConfiguration api)) "")
    then
      GoMap.set "_configuration"
        (YStr ("{" +:+ quote +:+ "llmProviderId" +:+ quote +:+ ":" +:+ quote
               +:+ LLMProviderID (AIConfiguration api) +:+ quote +:+ "}"))
        (GoMap.set "subtype" (YStr (APISubType api)) [])
    else [] in
  if 0 <? length subTypeConfiguration
  then GoMap.set "subtypeConfiguration" (YMap subTypeConfiguration) data
  else data.

(** The two [delete]s on the inline [endpointConfig]. *)
Definition deleteEmptyEndpoints (api : API) (data : list (Yaml * Yaml))
  : list (Yaml * Yaml) :=
  let data :=
    if String.eqb (SandEndpoint api) ""
    then deleteNested "endpointConfig" "sandbox_endpoints" data
    else data in
  if String.eqb (ProdEndpoint api) ""
  then deleteNested "endpointConfig" "production_endpoints" data
  else data.

(** [if apiCPEvent.API.CORSPolicy != nil { data["corsConfiguration"] = ... }] *)
Definition setCORS (api : API) (data : list (Yaml * Yaml))
  : list (Yaml * Yaml) :=
  match CORSPolicy api with
  | Some cors =>
      GoMap.set "corsConfiguration"
        (GoMap.lit
           [("corsConfigurationEnabled", YBool true);
            ("accessControlAllowOrigins",
             GoMap.strings (AccessControlAllowOrigins cors));
            ("accessControlAllowCredentials",
             YBool (AccessControlAllowCredentials cors));
            ("accessControlAllowHeaders",
             GoMap.strings (AccessControlAllowHeaders cors));
            ("accessControlAllowMethods",
             GoMap.strings (AccessControlAllowMethods cors));
            ("accessControlExposeHeaders",
             GoMap.strings (AccessControlExposeHeaders cors))])
        data
  | None => data
  end.

(** [if len(maxTps) > 0 { data["maxTps"] = maxTps }] *)
Definition setMaxTps (api : API) (data : list (Yaml * Yaml))
  : list (Yaml * Yaml) :=
  let maxTps := maxTpsMap L api in
  if 0 <? length maxTps then GoMap.set "maxTps" (YMap maxTps) data
  else data.

(** [if primaryProductionEndpointID != "" || primarySandboxEndpointID != ""]:
    the primaries, the marker and a new [endpointConfig]. *)
Definition setPrimaryEndpoints (api : API)
  (primaryProductionEndpointID primarySandboxEndpointID : string)
  (primaryProdcutionURL primarySandboxURL : string)
  (data : list (Yaml * Yaml)) : list (Yaml * Yaml) :=
  if negb (String.eqb primaryProductionEndpointID "")
     || negb (String.eqb primarySandboxEndpointID "")
  then
    let data :=
      GoMap.set "primaryProductionEndpointId"
                (YStr primaryProductionEndpointID) data in
    let data :=
      GoMap.set "primarySandboxEndpointId"
                (YStr primarySandboxEndpointID) data in
    let data :=
      GoMap.set "endpointImplementationType" (YStr "ENDPOINT") data in
    GoMap.set "endpointConfig"
      (YMap (endpointConfigMap (EndpointProtocol api)
               primarySandboxURL primaryProdcutionURL
               (endpointSecurityEntry (SandEndpointSecurity api)
                  (SecurityType (SandEndpointSecurity api)))
               (endpointSecurityEntry (ProdEndpointSecurity api)
                  (SecurityType (ProdEndpointSecurity api)))))
      data
  else data.

(** The API-level policy list. *)
Definition apiRequestPolicies (api : API) (apimEndpints : list APIMEndpoint)
  : list OperationPolicy :=
  match AIModelBasedRoundRobin api with
  | Some aiModelBasedRoundRobin =>
      if negb (String.eqb (APIType api) "GraphQL") then
        let wrr :=
          jsonModelBasedRoundRobinConfig
            (convertAIModelWeightsToModelConfigs
               (ProductionModels aiModelBasedRoundRobin) apimEndpints true)
            (convertAIModelWeightsToModelConfigs
               (SandboxModels aiModelBasedRoundRobin) apimEndpints false)
            (GoStrings.itoa
               (OnQuotaExceedSuspendDuration aiModelBasedRoundRobin)) in
        let jsonStr :=
          match json_Marshal L wrr with
          | Ok s => s
          | Err _ => ""
          end in
        let singleQuoted :=
          GoStrings.ReplaceAllByte jsonStr (Ascii.ascii_of_nat 34) "'" in
        [{| PolicyName := ModelWeightedRoundRobin K;
            PolicyVersion := V1 K;
            PolicyID := "";
            PolicyType := CommonType K;
            Parameters := Some (WeightedRoundRobinConfigs singleQuoted) |}]
      else []
  | None => []
  end.

(** [data["apiPolicies"] = OperationPolicies{Request: ...}] *)
Definition setAPIPolicies (api : API) (apimEndpints : list APIMEndpoint)
  (data : list (Yaml * Yaml)) : list (Yaml * Yaml) :=
  let requestOperationPolicies := apiRequestPolicies api apimEndpints in
  GoMap.set "apiPolicies"
    (yamlOperationPolicies
       {| Request := requestOperationPolicies; Response := []; Fault := [] |})
    data.

(** The [definition] that is returned: for a REST API whose schema parses,
    the rewritten schema if it serialises; the event's text otherwise.
    [None] when the rewriting panics. *)
Definition rewriteDefinition (api : API)
  (operations : list (APIOperation (list OperationPolicy)))
  (scopes : list ScopeWrapper) : option string :=
  let definition := Definition_ api in
  if strings_EqualFold L (APIType api) "rest" then
    match ConvertYAMLToMap definition with
    | Ok openAPI =>
        openAPI ← rewriteOpenAPI L operations scopes openAPI;
        match yaml_Marshal L (YMap openAPI) with
        | Err _ => Some definition
        | Ok yamlBytes => Some yamlBytes
        end
    | Err _ => Some definition
    end
  else Some definition.

(** [endpointsData]: the nil map unless a stage has more than one entry. *)
Definition endpointsDataOf (prodCount sandCount : nat)
  (apimEndpints : list APIMEndpoint) : list (Yaml * Yaml) :=
  let dataArr := map endpointMapOf apimEndpints in
  if (1 <? prodCount) || (1 <? sandCount)
  then [(YStr "type", YStr "endpoints");
        (YStr "version", YStr "v4.6.0");
        (YStr "data", YSeq dataArr)]
  else [].

(** [operations] and [scopes] as [createAPIYaml] goes on with them: no
    operations when the extraction failed. *)
Definition operationsAndScopes (R : Run) (apiCPEvent : APICPEvent)
  (apimEndpints : list APIMEndpoint)
  : list (APIOperation (list OperationPolicy)) * list ScopeWrapper :=
  let '(operations, scopes, operationsErr) :=
    extractOperations L K R apiCPEvent apimEndpints in
  let operations :=
    match operationsErr with
    | Some _ => []
    | None => operations
    end in
  (operations, scopes).

(** The map under ["data"] of the API definition document when
    [createAPIYaml] serialises it. *)
Definition apiData (R : Run) (cfg : result Config) (apiCPEvent : APICPEvent)
  : list (Yaml * Yaml) :=
  let api := API_ apiCPEvent in
  let multiEndpoints := MultiEndpoints api in
  let prod := prodLoop R multiEndpoints in
  let sand := sandLoop R multiEndpoints in
  let apimEndpints := apimEndpints sand in
  let primaryProductionEndpointID := primaryEndpointID prod in
  let primarySandboxEndpointID := primaryEndpointID sand in
  let primaryProdcutionURL := primaryURL prod in
  let primarySandboxURL := primaryURL sand in
  let '(operations, scopes) := operationsAndScopes R apiCPEvent apimEndpints in
  let data := initialData R cfg api operations scopes in
  let data := setSubtypeConfiguration api data in
  let data := deleteEmptyEndpoints api data in
  let data := setCORS api data in
  let data := setMaxTps api data in
  let data :=
    setPrimaryEndpoints api primaryProductionEndpointID
      primarySandboxEndpointID primaryProdcutionURL primarySandboxURL data in
  setAPIPolicies api apimEndpints data.

(** [endpointsData] when [createAPIYaml] serialises it. *)
Definition endpointsData (R : Run) (apiCPEvent : APICPEvent)
  : list (Yaml * Yaml) :=
  let multiEndpoints := MultiEndpoints (API_ apiCPEvent) in
  let prod := prodLoop R multiEndpoints in
  let sand := sandLoop R multiEndpoints in
  endpointsDataOf (count prod) (count sand) (apimEndpints sand).

(** The [definition] that [createAPIYaml] returns; [None] when the
    rewriting panics. *)
Definition definitionOf (R : Run) (apiCPEvent : APICPEvent) : option string :=
  let api := API_ apiCPEvent in
  let sand := sandLoop R (MultiEndpoints api) in
  let '(operations, scopes) :=
    operationsAndScopes R apiCPEvent (apimEndpints sand) in
  rewriteDefinition api operations scopes.

(** The API definition document. *)
Definition apiDocument (data : list (Yaml * Yaml)) : Yaml :=
  GoMap.lit [("type", YStr "api"); ("version", YStr "v4.6.0");
             ("data", YMap data)].

(** The three strings returned; [None] when the function panics, which
    happens in the rewriting of the schema, after [data] has its last
    content but for the primaries and the API policies, neither of which
    can fail. *)
Definition createAPIYaml (R : Run) (cfg : result Config)
  (apiCPEvent : APICPEvent) : option (string * string * string) :=
  definition ← definitionOf R apiCPEvent;
  Some (marshalOrEmpty (apiDocument (apiData R cfg apiCPEvent)), definition,
        marshalOrEmpty (YMap (endpointsData R apiCPEvent))).

Definition createDeployementYaml (cfg : result Config) (vhost : string)
  : string :=
  let envLabel := envLabelOf cfg in
  let deploymentEnvData :=
    map (fun label =>
           GoMap.lit [("displayOnDevportal", YBool true);
                      ("deploymentEnvironment", YStr label);
                      ("deploymentVhost", YStr vhost)])
        envLabel in
  let data :=
    GoMap.lit [("type", YStr "deployment_environments");
               ("version", YStr "v4.3.0");
               ("data", YSeq deploymentEnvData)] in
  marshalOrEmpty data.

Definition JSONToYAML (jsonString : string) : result string :=
  match json_Unmarshal L jsonString with
  | Err err => Err err
  | Ok jsonData =>
      match yaml_Marshal L (YMap jsonData) with
      | Err err => Err err
      | Ok yamlBytes => Ok yamlBytes
      end
  end.

End synthesizer.

(** *** Event ingestion endpoint: [POST /apis] *)

(** [c.JSON(status, body)] *)
Record HTTPResponse := { status : nat; body : Yaml }.

(** Calls that leave the process, in the order they are made. *)
Inductive Call :=
| DeleteAPIRevisionCall (apiID revisionID payload : string)
| CreateZipFileCall (zipFiles : list (string * string))
| ImportAPICall (name archive : string).

Definition StatusOK : nat := 200.
Definition StatusBadRequest : nat := 400.
Definition StatusInternalServerError : nat := 500.
Definition StatusServiceUnavailable : nat := 503.

(** [event.API.Definition = d] *)
Definition withDefinition (event : APICPEvent) (d : string) : APICPEvent :=
  let api := API_ event in
  {| Event := Event event;
     API_ :=
       {| APIUUID := APIUUID api; RevisionID := RevisionID api;
          Vhost := Vhost api; APIName := APIName api;
          APIVersion := APIVersion api; BasePath := BasePath api;
          Organization := Organization api; APIType := APIType api;
          APISubType := APISubType api;
          AIConfiguration := AIConfiguration api;
          Definition_ := d;
          IsDefaultVersion := IsDefaultVersion api;
          EndpointProtocol := EndpointProtocol api;
          SandEndpoint := SandEndpoint api; ProdEndpoint := ProdEndpoint api;
          SandEndpointSecurity := SandEndpointSecurity api;
          ProdEndpointSecurity := ProdEndpointSecurity api;
          AuthHeader := AuthHeader api; APIKeyHeader := APIKeyHeader api;
          SecurityScheme := SecurityScheme api;
          APIProperties := APIProperties api;
          CORSPolicy := CORSPolicy api;
          ProdAIRL := ProdAIRL api; SandAIRL := SandAIRL api;
          AIModelBasedRoundRobin := AIModelBasedRoundRobin api;
          Operations := Operations api;
          MultiEndpoints := MultiEndpoints api |} |}.

Section ingestion.
Variable L : Lib.
Variable K : Consts.

(** The payload of the undeploy call, before [json.Marshal]. *)
Definition undeployPayload (event : APICPEvent) (label : string) : Yaml :=
  YSeq [GoMap.lit [("revisionUuid", YStr (RevisionID (API_ event)));
                   ("name", YStr label);
                   ("vhost", YStr (Vhost (API_ event)));
                   ("displayOnDevportal", YBool true)]].

(** The files handed to the packer. *)
Definition zipFilesOf (event : APICPEvent)
  (apiYaml definition endpointsYaml deploymentContent : string)
  : list (string * string) :=
  let api := API_ event in
  let dir := APIName api +:+ "-" +:+ APIVersion api in
  let definitionPath :=
    if String.eqb (strings_ToUpper L (APIType api)) "GRAPHQL"
    then dir +:+ "/Definitions/schema.graphql"
    else dir +:+ "/Definitions/swagger.yaml" in
  if negb (String.eqb endpointsYaml ("{}" +:+ newline))
  then [(dir +:+ "/api.yaml", apiYaml);
        (dir +:+ "/endpoints.yaml", endpointsYaml);
        (dir +:+ "/deployment_environments.yaml", deploymentContent);
        (definitionPath, definition)]
  else [(dir +:+ "/api.yaml", apiYaml);
        (dir +:+ "/deployment_environments.yaml", deploymentContent);
        (definitionPath, definition)].

(** The handler of [POST /apis]: [binding] is the outcome of
    [c.ShouldBindJSON(&event)].  The result is the response written and the
    calls made; [None] when the handler panics (an empty list of
    environment labels on a delete event, or a panic of
    [createAPIYaml]). *)
Definition postAPIs (R : Run) (cfg : result Config)
  (binding : result APICPEvent) : option (HTTPResponse * list Call) :=
  let envLabel := envLabelOf cfg in
  match binding with
  | Err err =>
      Some ({| status := StatusBadRequest;
               body := GoMap.lit [("error", YStr err)] |}, [])
  | Ok event =>
      if String.eqb (Event event) (DeleteEvent K) then
        label ← head envLabel;
        let payload := undeployPayload event label in
        match json_Marshal L payload with
        | Err err =>
            Some ({| status := StatusInternalServerError;
                     body := YStr err |}, [])
        | Ok jsonPayload =>
            let call :=
              DeleteAPIRevisionCall (APIUUID (API_ event))
                (RevisionID (API_ event)) jsonPayload in
            match utils_DeleteAPIRevision L (APIUUID (API_ event))
                    (RevisionID (API_ event)) jsonPayload with
            | Some errorUndeployRevision =>
                Some ({| status := StatusServiceUnavailable;
                         body := YStr errorUndeployRevision |}, [call])
            | None =>
                Some ({| status := StatusOK;
                         body := GoMap.lit [("message", YStr "Success")] |},
                      [call])
            end
        end
      else
        let event :=
          if strings_EqualFold L (APIType (API_ event)) "rest"
             && String.eqb (Definition_ (API_ event)) ""
          then withDefinition event (OpenAPIDefaultYaml K)
          else event in
        let event :=
          if strings_EqualFold L (APIType (API_ event)) "rest" then
            match JSONToYAML L (Definition_ (API_ event)) with
            | Ok yaml => withDefinition event yaml
            | Err _ => event
            end
          else event in
        '(apiYaml, definition, endpointsYaml) ← createAPIYaml L K R cfg event;
        let deploymentContent :=
          createDeployementYaml L cfg (Vhost (API_ event)) in
        let zipFiles :=
          zipFilesOf event apiYaml definition endpointsYaml deploymentContent in
        let '(buf, _) := utils_CreateZipFile L zipFiles in
        let name :=
          "admin-" +:+ APIName (API_ event) +:+ "-"
          +:+ APIVersion (API_ event) +:+ ".zip" in
        let calls := [CreateZipFileCall zipFiles; ImportAPICall name buf] in
        match utils_ImportAPI L name buf with
        | Err err =>
            Some ({| status := StatusServiceUnavailable; body := YStr err |},
                  calls)
        | Ok (id, revisionID) =>
            Some ({| status := StatusOK;
                     body := GoMap.lit [("id", YStr id);
                                        ("revisionID", YStr revisionID)] |},
                  calls)
        end
  end.

End ingestion.

(** ** A concrete library, for running the model

    ASCII case folding, literal patterns, a one-line rendering of trees and
    a parser that knows one schema and the null document.  On the inputs of the examples below
    these agree with the Go packages they stand for in every respect the
    examples rely on. *)

Module Fixture.

Definition upper (c : ascii) : ascii :=
  let n := nat_of_ascii c in
  if (97 <=? n) && (n <=? 122) then ascii_of_nat (n - 32) else c.

Fixpoint ToUpper (s : string) : string :=
  match s with
  | "" => ""
  | String c s' => String (upper c) (ToUpper s')
  end.

Definition EqualFold (s t : string) : bool :=
  String.eqb (ToUpper s) (ToUpper t).

(** A pattern without metacharacters matches the targets that contain
    it. *)
Fixpoint contains (pattern target : string) : bool :=
  String.prefix pattern target
  || match target with
     | "" => false
     | String _ target' => contains pattern target'
     end.

Fixpoint render (y : Yaml) : string :=
  match y with
  | YNull => "null"
  | YBool b => if b then "true" else "false"
  | YInt n => GoStrings.itoa n
  | YFloat l => l
  | YStr s => quote +:+ s +:+ quote
  | YSeq items =>
      "[" +:+
      (fix go (l : list Yaml) : string :=
         match l with
         | [] => "]"
         | x :: r =>
             render x +:+ match r with [] => "" | _ => ", " end +:+ go r
         end) items
  | YMap entries =>
      "{" +:+
      (fix go (l : list (Yaml * Yaml)) : string :=
         match l with
         | [] => "}"
         | (k, v) :: r =>
             render k +:+ ": " +:+ render v
             +:+ match r with [] => "" | _ => ", " end +:+ go r
         end) entries
  end.

Definition nl : string := String (ascii_of_nat 10) "".

(** A schema with two paths, and what [yaml.v2] reads from it. *)
Definition petstore : string :=
  "paths:" +:+ nl +:+
  "  /pets/{petId}:" +:+ nl +:+
  "    get: {}" +:+ nl +:+
  "  /orders:" +:+ nl +:+
  "    post: {}" +:+ nl.

Definition petstorePaths : list (string * list string) :=
  [("/pets/{petId}", ["get"]); ("/orders", ["post"])].

Definition petstoreTree : list (Yaml * Yaml) :=
  [(YStr "paths",
    GoMap.lit [("/pets/{petId}", GoMap.lit [("get", YMap [])]);
               ("/orders", GoMap.lit [("post", YMap [])])])].

(** What the parser reads: the schema above, and the null document [~],
    which has no paths and leaves a map nil. *)
Definition unmarshalPaths (s : string) : result (list (string * list string)) :=
  if String.eqb s petstore then Ok petstorePaths
  else if String.eqb s "~" then Ok []
  else Err "yaml: unmarshal errors".

Definition unmarshalTree (s : string) : result (option (list (Yaml * Yaml))) :=
  if String.eqb s petstore then Ok (Some petstoreTree)
  else if String.eqb s "~" then Ok None
  else Err "yaml: unmarshal errors".

Definition unmarshalNil (s : string) :
  unmarshalTree s = Ok None -> unmarshalPaths s = Ok [].
Proof.
  unfold unmarshalTree, unmarshalPaths.
  destruct (String.eqb s petstore); [discriminate|].
  destruct (String.eqb s "~"); [reflexivity|discriminate].
Defined.

Definition lib : Lib :=
  {| strings_EqualFold := EqualFold;
     strings_ToUpper := ToUpper;
     regexp_MatchString := fun pattern target => Some (contains pattern target);
     yaml_Marshal := fun y => Ok (render y +:+ nl);
     json_Marshal := fun y => Ok (render y);
     yaml_Unmarshal_OpenAPIPaths := unmarshalPaths;
     yaml_Unmarshal := unmarshalTree;
     json_Unmarshal := fun _ =>
       Err "invalid character 'p' looking for beginning of value";
     growslice := fun cap => if cap =? 0 then 1 else 2 * cap;
     utils_DeleteAPIRevision := fun apiID _ _ =>
       if String.eqb apiID "unreachable" then Some "connection refused"
       else None;
     utils_CreateZipFile := fun files =>
       (foldr (fun f acc => f.1 +:+ nl +:+ f.2 +:+ acc) "" files, None);
     utils_ImportAPI := fun _ _ => Ok ("api-1", "rev-1");
     yaml_Unmarshal_nil := unmarshalNil |}.

Definition consts : Consts :=
  {| ModelWeightedRoundRobin := "modelWeightedRoundRobin";
     AddHeader := "addHeader";
     RemoveHeader := "removeHeader";
     MirrorRequest := "mirrorRequest";
     RedirectRequest := "redirectRequest";
     V1 := "v1";
     CommonType := "common";
     OpenAPIDefaultYaml := petstore;
     DeleteEvent := "DELETE" |}.

(** A run that hands out [id-0], [id-1], ... and visits maps in the order
    of their entries. *)
Definition run (tag : string) : Run :=
  {| uuid_New := fun n => tag +:+ "-" +:+ GoStrings.itoa (Z.of_nat n);
     range := fun _ l => l |}.

(** The same, visiting maps from their last entry to their first. *)
Definition backwards (tag : string) : Run :=
  {| uuid_New := fun n => tag +:+ "-" +:+ GoStrings.itoa (Z.of_nat n);
     range := fun _ l => rev l |}.

Definition config : result Config :=
  Ok {| Provider := "admin"; EnvironmentLabels := ["Default"] |}.

Definition noSecurity : EndpointSecurity :=
  {| Enabled := false; SecurityType := ""; APIKeyName := "";
     APIKeyValue := ""; BasicUsername := ""; BasicPassword := "" |}.

Definition noModifier : APKHeaderModifier :=
  {| AddHeaders := []; RemoveHeaders := [] |}.

Definition endpointAt (url : string) : EndpointConfig :=
  {| URL := url; EpSecurityEnabled := false; EpSecurityType := "";
     EpBasicUsername := ""; EpBasicPassword := ""; EpAPIKeyName := "";
     EpAPIKeyValue := ""; EpAPIKeyIn := "" |}.

(** A REST API on the schema above. *)
Definition apiWith (operations : list OperationFromDP)
  (prod sand : list EndpointConfig) : API :=
  {| APIUUID := "X"; RevisionID := "2"; Vhost := "foo";
     APIName := "pets"; APIVersion := "1.0"; BasePath := "/pets/1.0";
     Organization := "org"; APIType := "REST"; APISubType := "";
     AIConfiguration := {| LLMProviderID := ""; LLMProviderName := "";
                           LLMProviderAPIVersion := "" |};
     Definition_ := petstore;
     IsDefaultVersion := false;
     EndpointProtocol := "https";
     SandEndpoint := ""; ProdEndpoint := "api.example.com";
     SandEndpointSecurity := noSecurity;
     ProdEndpointSecurity := noSecurity;
     AuthHeader := "Authorization"; APIKeyHeader := "ApiKey";
     SecurityScheme := ["oauth2"];
     APIProperties := [];
     CORSPolicy := None; ProdAIRL := None; SandAIRL := None;
     AIModelBasedRoundRobin := None;
     Operations := operations;
     MultiEndpoints := {| Protocol := "https"; ProdEndpoints := prod;
                          SandEndpoints := sand |} |}.

Definition createEvent (operations : list OperationFromDP)
  (prod sand : list EndpointConfig) : APICPEvent :=
  {| Event := "CREATE"; API_ := apiWith operations prod sand |}.

Definition deleteEvent : APICPEvent :=
  {| Event := "DELETE"; API_ := apiWith [] [] [] |}.

(** Declared operations on the two paths of the schema. *)
Definition getPet (filters : list Filter) : OperationFromDP :=
  {| Path := "/pets/hardcode"; Verb := "GET"; Scopes := [];
     Filters := filters; OpAIModelBasedRoundRobin := None |}.

Definition postOrder (filters : list Filter) : OperationFromDP :=
  {| Path := "/orders"; Verb := "POST"; Scopes := [];
     Filters := filters; OpAIModelBasedRoundRobin := None |}.

Definition header (name : string) : APKHeader :=
  {| HeaderName := name; HeaderValue := "v" |}.

(** Header filters with one kind of entry. *)
Definition removeFromRequest (names : list string) : Filter :=
  APKHeaders {| AddHeaders := []; RemoveHeaders := names |} noModifier.

Definition addToRequest (names : list string) : Filter :=
  APKHeaders {| AddHeaders := map header names; RemoveHeaders := [] |}
             noModifier.

Definition addToResponse (names : list string) : Filter :=
  APKHeaders noModifier
             {| AddHeaders := map header names; RemoveHeaders := [] |}.

(** The operations [extractOperations] returns for a REST event with the
    given declared operations, maps visited forwards and backwards. *)
Definition extracted (operations : list OperationFromDP)
  : list (APIOperation (list OperationPolicy)) :=
  (extractOperations lib consts (run "id") (createEvent operations [] []) []).1.1.

Definition extractedBackwards (operations : list OperationFromDP)
  : list (APIOperation (list OperationPolicy)) :=
  (extractOperations lib consts (backwards "id")
     (createEvent operations [] []) []).1.1.

Definition addHeaderOf (name : string) : OperationPolicy :=
  addHeaderPolicy consts (header name).

Definition removeHeaderOf (name : string) : OperationPolicy :=
  removeHeaderPolicy consts name.

Definition mirrorOf (url : string) : OperationPolicy :=
  mirrorPolicy consts url.

(** A snapshot of one application, one subscription and one key mapping,
    none of which names a tenant domain. *)
Definition application : Eventhub.types.Application :=
  {| Eventhub.types.UUID := "app-1"; Eventhub.types.ID := 1;
     Eventhub.types.Name := "shop"; Eventhub.types.SubName := "admin";
     Eventhub.types.Policy := "Unlimited"; Eventhub.types.TokenType := "JWT";
     Eventhub.types.Attributes := ∅; Eventhub.types.TenantID := -1234;
     Eventhub.types.TenantDomain := ""; Eventhub.types.TimeStamp := 0 |}.

Definition subscription : Eventhub.types.Subscription :=
  {| Eventhub.types.SubscriptionID := 7;
     Eventhub.types.SubscriptionUUID := "sub-7";
     Eventhub.types.PolicyID := "Gold"; Eventhub.types.APIID := 3;
     Eventhub.types.APIUUID := "api-3"; Eventhub.types.AppID := 1;
     Eventhub.types.SubApplicationUUID := "app-1";
     Eventhub.types.SubscriptionState := "UNBLOCKED";
     Eventhub.types.SubTenantID := -1234;
     Eventhub.types.SubTenantDomain := ""; Eventhub.types.SubTimeStamp := 0 |}.

Definition keyMapping : Eventhub.types.ApplicationKeyMapping :=
  {| Eventhub.types.ApplicationID := 1;
     Eventhub.types.ApplicationUUID := "app-1";
     Eventhub.types.ConsumerKey := "ck";
     Eventhub.types.KeyType := "PRODUCTION";
     Eventhub.types.KeyManager_ := "Resident";
     Eventhub.types.KMTenantID := -1234;
     Eventhub.types.KMTenantDomain := ""; Eventhub.types.KMTimeStamp := 0 |}.

Definition emptyMirror : Eventhub.Mirror :=
  {| Eventhub.SubscriptionMap := ∅; Eventhub.ApplicationMap := ∅;
     Eventhub.ApplicationKeyMappingMap := ∅; Eventhub.KeyManagerMap := ∅ |}.

End Fixture.

(** ** Vocabulary of the statements *)

(** [c] does not occur in [s]. *)
Fixpoint freeOf (c : ascii) (s : string) : Prop :=
  match s with
  | "" => True
  | String c' s' => c' <> c /\ freeOf c s'
  end.

(** A templated path cut into literal text and [{name}] placeholders. *)
Inductive Segment :=
| Literal (text : string)
| Placeholder (name : string).

(** The path as the schema writes it. *)
Fixpoint templated (segments : list Segment) : string :=
  match segments with
  | [] => ""
  | Literal text :: rest => text +:+ templated rest
  | Placeholder name :: rest => "{" +:+ name +:+ "}" +:+ templated rest
  end.

(** The path with the fixed token in place of every placeholder. *)
Fixpoint normalised (segments : list Segment) : string :=
  match segments with
  | [] => ""
  | Literal text :: rest => text +:+ normalised rest
  | Placeholder _ :: rest => "hardcode" +:+ normalised rest
  end.

(** Literal text has no opening brace; a placeholder name is not empty and
    has no closing brace. *)
Definition wellFormed (segment : Segment) : Prop :=
  match segment with
  | Literal text => freeOf "{" text
  | Placeholder name => name <> "" /\ freeOf "}" name
  end.

(** The descriptor the production loop appends for the entry at position
    [i] of [ProdEndpoints], and the one the sandbox loop appends for the
    entry at position [i] of [SandEndpoints], [n] production entries
    having drawn their identifiers before. *)
Definition prodDescriptor (R : Run) (multiEndpoints : MultiEndpointsT)
  (i : nat) (endpoint : EndpointConfig) : APIMEndpoint :=
  {| DeploymentStage := "PRODUCTION";
     EndpointUUID := uuid_New R i +:+ "--PRODUCTION";
     EndpointName :=
       if S i =? 1 then "Default Production Endpoint"
       else GoStrings.itoa (Z.of_nat (S i)) +:+ " Production Endpoint";
     EndpointConfig_ :=
       {| EndpointType := Protocol multiEndpoints;
          ProductionEndpointsURL := endpointURL multiEndpoints endpoint;
          SandboxEndpointsURL := "";
          EndpointSecurityProduction := securityConfigOf endpoint;
          EndpointSecuritySandbox := zeroSecurityConfig |} |}.

Definition sandDescriptor (R : Run) (multiEndpoints : MultiEndpointsT)
  (n i : nat) (endpoint : EndpointConfig) : APIMEndpoint :=
  {| DeploymentStage := "SANDBOX";
     EndpointUUID := uuid_New R (n + i) +:+ "--SANDBOX";
     EndpointName :=
       if S i =? 1 then "Default Sandbox Endpoint"
       else GoStrings.itoa (Z.of_nat (S i)) +:+ " Sandbox Endpoint";
     EndpointConfig_ :=
       {| EndpointType := Protocol multiEndpoints;
          ProductionEndpointsURL := "";
          SandboxEndpointsURL := endpointURL multiEndpoints endpoint;
          EndpointSecurityProduction := zeroSecurityConfig;
          EndpointSecuritySandbox := securityConfigOf endpoint |} |}.

(** The inline endpoint configuration of an API without multi-endpoint
    entries: the single-endpoint fields, a stage left out when its URL is
    empty. *)
Definition inlineEndpointConfig (api : API) : list (Yaml * Yaml) :=
  [(YStr "endpoint_type", YStr (EndpointProtocol api))]
  ++ (if String.eqb (SandEndpoint api) "" then []
      else [(YStr "sandbox_endpoints",
             GoMap.lit [("url", YStr (EndpointProtocol api +:+ "://"
                                      +:+ SandEndpoint api))])])
  ++ (if String.eqb (ProdEndpoint api) "" then []
      else [(YStr "production_endpoints",
             GoMap.lit [("url", YStr (EndpointProtocol api +:+ "://"
                                      +:+ ProdEndpoint api))])])
  ++ [(YStr "endpoint_security",
       GoMap.lit
         [("sandbox",
           endpointSecurityEntry (SandEndpointSecurity api)
             (if String.eqb (SecurityType (SandEndpointSecurity api)) ""
              then "NONE" else SecurityType (SandEndpointSecurity api)));
          ("production",
           endpointSecurityEntry (ProdEndpointSecurity api)
             (if String.eqb (SecurityType (ProdEndpointSecurity api)) ""
              then "NONE" else SecurityType (ProdEndpointSecurity api)))])].

(** The endpoint configuration written in place of the inline one: the
    URLs of the two primaries. *)
Definition primaryEndpointConfig (api : API)
  (primarySandboxURL primaryProductionURL : string) : list (Yaml * Yaml) :=
  endpointConfigMap (EndpointProtocol api) primarySandboxURL
    primaryProductionURL
    (endpointSecurityEntry (SandEndpointSecurity api)
       (SecurityType (SandEndpointSecurity api)))
    (endpointSecurityEntry (ProdEndpointSecurity api)
       (SecurityType (ProdEndpointSecurity api))).




(** A slice value fits the heap: its length is within its capacity, and
    its capacity within the array it points to. *)
Definition fits (h : PolicyHeap) (s : PolicySlice) : Prop :=
  GoSlice.len s <= GoSlice.cap s
  /\ GoSlice.cap s <= length (default [] (h !! GoSlice.arr s)).

Definition fitsBoth (a : Accumulators) : Prop :=
  fits (heap a) (requestOperationPolicies a)
  /\ fits (heap a) (responseOperationPolicies a).

(** A placeholder [{name}], with a name that is not empty and has no
    closing brace, occurs in [s]. *)
Definition hasPlaceholder (s : string) : Prop :=
  exists pre name post,
    name <> "" /\ freeOf "}" name
    /\ s = pre +:+ "{" +:+ name +:+ "}" +:+ post.

(** The (path, verb) pairs of the schema that find a declared operation,
    each with the operation found, in the order of the pairs. *)
Definition matchedOperations (L : Lib) (operations : list OperationFromDP)
  (pairs : list (string * string))
  : list (string * string * OperationFromDP) :=
  omap (fun pv =>
          pair pv <$> findMatchingAPKOperation L pv.1 pv.2 operations)
       pairs.

(** Every key under [paths] of a parsed schema is a string: the path keys,
    and the verb keys of each path whose content is a map. *)
Definition stringKeyed (openAPI : list (Yaml * Yaml)) : Prop :=
  match GoMap.get "paths" openAPI with
  | Some (YMap paths) =>
      Forall (fun entry : Yaml * Yaml =>
                (exists path, entry.1 = YStr path)
                /\ match entry.2 with
                   | YMap pathContentMap =>
                       Forall (fun ve : Yaml * Yaml =>
                                 exists verb, ve.1 = YStr verb)
                              pathContentMap
                   | _ => True
                   end)
             paths
  | _ => True
  end.

(** The rewriting of the schema has what it needs: whenever the
    definition parses, it parses to a map that is not nil and whose keys
    under [paths] are strings. *)
Definition rewritable (L : Lib) (definition : string) : Prop :=
  forall openAPI,
    ConvertYAMLToMap L definition = Ok openAPI ->
    exists entries, openAPI = Some entries /\ stringKeyed entries.

(** ** Further events, for running the model *)

Module Sample.

(** [event.API.APIType = t] *)
Definition withAPIType (event : APICPEvent) (t : string) : APICPEvent :=
  let api := API_ event in
  {| Event := Event event;
     API_ :=
       {| APIUUID := APIUUID api; RevisionID := RevisionID api;
          Vhost := Vhost api; APIName := APIName api;
          APIVersion := APIVersion api; BasePath := BasePath api;
          Organization := Organization api; APIType := t;
          APISubType := APISubType api;
          AIConfiguration := AIConfiguration api;
          Definition_ := Definition_ api;
          IsDefaultVersion := IsDefaultVersion api;
          EndpointProtocol := EndpointProtocol api;
          SandEndpoint := SandEndpoint api; ProdEndpoint := ProdEndpoint api;
          SandEndpointSecurity := SandEndpointSecurity api;
          ProdEndpointSecurity := ProdEndpointSecurity api;
          AuthHeader := AuthHeader api; APIKeyHeader := APIKeyHeader api;
          SecurityScheme := SecurityScheme api;
          APIProperties := APIProperties api;
          CORSPolicy := CORSPolicy api;
          ProdAIRL := ProdAIRL api; SandAIRL := SandAIRL api;
          AIModelBasedRoundRobin := AIModelBasedRoundRobin api;
          Operations := Operations api;
          MultiEndpoints := MultiEndpoints api |} |}.

(** [POST /orders], declared with scopes. *)
Definition postOrderScoped (scopes : list string) : OperationFromDP :=
  {| Path := "/orders"; Verb := "POST"; Scopes := scopes;
     Filters := []; OpAIModelBasedRoundRobin := None |}.

(** A GraphQL event that declares one operation. *)
Definition graphqlEvent : APICPEvent :=
  withAPIType (Fixture.createEvent [Fixture.postOrder []] [] []) "GraphQL".

(** A REST event whose schema is not the one the parser knows. *)
Definition unparsableEvent : APICPEvent :=
  withDefinition (Fixture.createEvent [Fixture.postOrder []] [] [])
                 "paths: [".

End Sample.

(** The event as the handler of [POST /apis] hands it to [createAPIYaml]:
    a REST event without a definition is given the default schema, and the
    definition of a REST event that reads as JSON is replaced by its YAML
    form. *)
Definition preparedEvent (L : Lib) (K : Consts) (event : APICPEvent)
  : APICPEvent :=
  let event :=
    if strings_EqualFold L (APIType (API_ event)) "rest"
       && String.eqb (Definition_ (API_ event)) ""
    then withDefinition event (OpenAPIDefaultYaml K)
    else event in
  if strings_EqualFold L (APIType (API_ event)) "rest" then
    match JSONToYAML L (Definition_ (API_ event)) with
    | Ok yaml => withDefinition event yaml
    | Err _ => event
    end
  else event.

(** The request policies and the response policies one filter stands for,
    when it removes no request header. *)
Definition requestPoliciesOfFilter (K : Consts) (operationLevelFilter : Filter)
  : list OperationPolicy :=
  match operationLevelFilter with
  | APKHeaders requestHeaders _ =>
      map (addHeaderPolicy K) (AddHeaders requestHeaders)
  | APKMirrorRequest urls => map (mirrorPolicy K) urls
  | APKRedirectRequest url => [redirectPolicy K url]
  | UnknownFilter => []
  end.

Definition responsePoliciesOfFilter (K : Consts)
  (operationLevelFilter : Filter) : list OperationPolicy :=
  match operationLevelFilter with
  | APKHeaders _ responseHeaders =>
      map (addHeaderPolicy K) (AddHeaders responseHeaders)
      ++ map (removeHeaderPolicy K) (RemoveHeaders responseHeaders)
  | _ => []
  end.

(** The policies of one declared operation: its round robin, then those of
    its filters in their order. *)
Definition requestPoliciesOf (K : Consts) (apimEndpoints : list APIMEndpoint)
  (operationFromDP : OperationFromDP) : list OperationPolicy :=
  match OpAIModelBasedRoundRobin operationFromDP with
  | Some aiModelBasedRoundRobin =>
      [roundRobinPolicy K aiModelBasedRoundRobin apimEndpoints]
  | None => []
  end
  ++ flat_map (requestPoliciesOfFilter K) (Filters operationFromDP).

Definition responsePoliciesOf (K : Consts) (operationFromDP : OperationFromDP)
  : list OperationPolicy :=
  flat_map (responsePoliciesOfFilter K) (Filters operationFromDP).

(** No filter of the operation removes a request header. *)
Definition removesNoRequestHeader (operationFromDP : OperationFromDP) : Prop :=
  Forall (fun operationLevelFilter =>
            match operationLevelFilter with
            | APKHeaders requestHeaders _ => RemoveHeaders requestHeaders = []
            | _ => True
            end)
         (Filters operationFromDP).

(** The request list and the response list of each operation when the
    policies of the operations matched so far pile up: those of the
    operations before it, then its own. *)
Fixpoint accumulated (K : Consts) (apimEndpoints : list APIMEndpoint)
  (request response : list OperationPolicy)
  (operations : list OperationFromDP)
  : list (list OperationPolicy * list OperationPolicy) :=
  match operations with
  | [] => []
  | operationFromDP :: rest =>
      let request :=
        request ++ requestPoliciesOf K apimEndpoints operationFromDP in
      let response := response ++ responsePoliciesOf K operationFromDP in
      (request, response) :: accumulated K apimEndpoints request response rest
  end.

(** Two slice values that cannot write into each other's elements: one of
    them has no capacity, or they are on different arrays. *)
Definition apart (s t : PolicySlice) : Prop :=
  GoSlice.cap s = 0 \/ GoSlice.cap t = 0 \/ GoSlice.arr s <> GoSlice.arr t.

(** An [append] to [s] leaves the elements of [t] alone. *)
Definition outOfReach (s t : PolicySlice) : Prop :=
  GoSlice.cap s = 0 \/ GoSlice.arr t <> GoSlice.arr s
  \/ GoSlice.len t <= GoSlice.len s.

(** The accumulators are in order: both fit the heap and they are apart. *)
Definition inOrder (a : Accumulators) : Prop :=
  fitsBoth a
  /\ apart (requestOperationPolicies a) (responseOperationPolicies a).

(** A slice value recorded in an operation stays as it is under appends to
    either accumulator. *)
Definition settled (a : Accumulators) (t : PolicySlice) : Prop :=
  fits (heap a) t
  /\ outOfReach (requestOperationPolicies a) t
  /\ outOfReach (responseOperationPolicies a) t.

(** [a'] comes from [a] by appending [request] to the request list and
    [response] to the response list, settled slices untouched. *)
Definition extends (a a' : Accumulators)
  (request response : list OperationPolicy) : Prop :=
  inOrder a'
  /\ GoSlice.read (heap a') (requestOperationPolicies a')
     = GoSlice.read (heap a) (requestOperationPolicies a) ++ request
  /\ GoSlice.read (heap a') (responseOperationPolicies a')
     = GoSlice.read (heap a) (responseOperationPolicies a) ++ response
  /\ forall t, settled a t ->
       settled a' t /\ GoSlice.read (heap a') t = GoSlice.read (heap a) t.

(** The operations recorded so far show the lists they were recorded
    with. *)
Definition recorded (st : Extraction)
  (lists : list (list OperationPolicy * list OperationPolicy)) : Prop :=
  Forall2 (fun (op : APIOperation PolicySlice) e =>
             settled (accumulators st) (Request (OperationPolicies_ op))
             /\ settled (accumulators st) (Response (OperationPolicies_ op))
             /\ GoSlice.read (heap (accumulators st))
                  (Request (OperationPolicies_ op)) = e.1
             /\ GoSlice.read (heap (accumulators st))
                  (Response (OperationPolicies_ op)) = e.2)
          (apiOperations st) lists.




(** * Properties *)

(** ** Byte strings *)

Section GoStrings_facts.
Import GoStrings.

Lemma str_app_cons (c : ascii) (s t : string) :
  String c s +:+ t = String c (s +:+ t).
Proof. reflexivity. Qed.

Lemma str_app_empty_r (s : string) : s +:+ "" = s.
Proof. induction s as [|c s IH]; [done|]. by rewrite str_app_cons, IH. Qed.

Lemma str_app_assoc (s t u : string) : (s +:+ t) +:+ u = s +:+ (t +:+ u).
Proof.
  induction s as [|c s IH]; [done|]. by rewrite !str_app_cons, IH.
Qed.

Lemma str_length_app (s t : string) :
  String.length (s +:+ t) = String.length s + String.length t.
Proof.
  induction s as [|c s IH]; [done|]. rewrite str_app_cons. simpl. by rewrite IH.
Qed.

Lemma drop_app_length (p s : string) : drop (String.length p) (p +:+ s) = s.
Proof. induction p as [|c p IH]; [by destruct s|]. by rewrite str_app_cons. Qed.

Lemma take_app_length (p s : string) : take (String.length p) (p +:+ s) = p.
Proof.
  induction p as [|c p IH]; [by destruct s|].
  rewrite str_app_cons. simpl. by rewrite IH.
Qed.

Lemma take_drop_id (n : nat) (s : string) : take n s +:+ drop n s = s.
Proof.
  revert s. induction n as [|n IH]; intros [|c s]; try done.
  simpl. by rewrite str_app_cons, IH.
Qed.

Lemma HasSuffix_app (p suffix : string) : HasSuffix (p +:+ suffix) suffix = true.
Proof.
  unfold HasSuffix. rewrite str_length_app.
  replace (String.length p + String.length suffix - String.length suffix)
    with (String.length p) by lia.
  rewrite drop_app_length, String.eqb_refl, andb_true_r.
  apply Nat.leb_le. lia.
Qed.

Lemma HasSuffix_inv (s suffix : string) :
  HasSuffix s suffix = true -> exists p, s = p +:+ suffix.
Proof.
  unfold HasSuffix. intros [_ Heq%String.eqb_eq]%andb_true_iff.
  exists (take (String.length s - String.length suffix) s).
  by rewrite <- Heq at 2; rewrite take_drop_id.
Qed.

Lemma TrimSuffix_app (p suffix : string) : TrimSuffix (p +:+ suffix) suffix = p.
Proof.
  unfold TrimSuffix. rewrite HasSuffix_app, str_length_app.
  replace (String.length p + String.length suffix - String.length suffix)
    with (String.length p) by lia.
  apply take_app_length.
Qed.

Lemma TrimSuffix_not_suffix (s suffix : string) :
  HasSuffix s suffix = false -> TrimSuffix s suffix = s.
Proof. unfold TrimSuffix. by intros ->. Qed.

End GoStrings_facts.

(** ** Path normalisation *)

Lemma bytesBeforeClose_None (s : string) :
  bytesBeforeClose s = None <-> freeOf "}" s.
Proof.
  induction s as [|c s IH]; simpl; [done|].
  destruct (Ascii.eqb_spec c "}") as [->|Hc].
  - split; [done|]. by intros [? _].
  - destruct (bytesBeforeClose s); simpl; split; try done.
    + intros [_ H]. by apply IH in H.
    + intros _. split; [done|]. by apply IH.
Qed.

Lemma bytesBeforeClose_Some (s : string) (n : nat) :
  bytesBeforeClose s = Some n ->
  exists name rest,
    s = name +:+ String "}" rest /\ String.length name = n /\ freeOf "}" name.
Proof.
  revert n. induction s as [|c s IH]; intros n; simpl; [done|].
  destruct (Ascii.eqb_spec c "}") as [->|Hc].
  - intros [= <-]. by exists "", s.
  - destruct (bytesBeforeClose s) as [m|]; simpl; [|done].
    intros [= <-]. destruct (IH m eq_refl) as (name & rest & -> & <- & Hfree).
    by exists (String c name), rest.
Qed.

Lemma bytesBeforeClose_app (name rest : string) :
  freeOf "}" name ->
  bytesBeforeClose (name +:+ String "}" rest) = Some (String.length name).
Proof.
  induction name as [|c name IH]; simpl.
  - intros _. reflexivity.
  - intros [Hc Hfree]. rewrite ?str_app_cons. simpl.
    destruct (Ascii.eqb_spec c "}") as [->|_]; [done|].
    by rewrite IH.
Qed.

Lemma freeOf_app (c : ascii) (s t : string) :
  freeOf c (s +:+ t) <-> freeOf c s /\ freeOf c t.
Proof.
  induction s as [|c' s IH]; [by intuition|].
  rewrite str_app_cons. simpl. rewrite IH. tauto.
Qed.

Lemma replacePlaceholders_skip (k : nat) (s : string) :
  replacePlaceholders k s = replacePlaceholders 0 (GoStrings.drop k s).
Proof.
  revert s. induction k as [|k IH]; intros [|c s]; try done.
  simpl. apply IH.
Qed.

(** The unfolding equations of [processOpenAPIPath]. *)
Lemma processOpenAPIPath_other (c : ascii) (s : string) :
  c <> "{"%char ->
  processOpenAPIPath (String c s) = String c (processOpenAPIPath s).
Proof.
  intros Hc. unfold processOpenAPIPath. simpl.
  by destruct (Ascii.eqb_spec c "{").
Qed.

Lemma processOpenAPIPath_placeholder (name rest : string) :
  name <> "" -> freeOf "}" name ->
  processOpenAPIPath ("{" +:+ name +:+ "}" +:+ rest)
  = "hardcode" +:+ processOpenAPIPath rest.
Proof.
  intros Hne Hfree. unfold processOpenAPIPath.
  change ("{" +:+ name +:+ "}" +:+ rest)
    with (String "{" (name +:+ String "}" rest)).
  simpl. rewrite bytesBeforeClose_app by done.
  destruct name as [|c name]; [done|]. simpl String.length. cbv iota beta.
  f_equal. rewrite replacePlaceholders_skip. f_equal.
  transitivity (GoStrings.drop (String.length (String c name +:+ "}"))
                  ((String c name +:+ "}") +:+ rest));
    [|apply drop_app_length].
  f_equal.
  - rewrite str_length_app. simpl. lia.
  - by rewrite str_app_assoc.
Qed.

Lemma processOpenAPIPath_empty_braces (rest : string) :
  processOpenAPIPath (String "{" (String "}" rest))
  = String "{" (String "}" (processOpenAPIPath rest)).
Proof. reflexivity. Qed.

Lemma processOpenAPIPath_unclosed (s : string) :
  freeOf "}" s -> processOpenAPIPath s = s.
Proof.
  unfold processOpenAPIPath. induction s as [|c s IH]; [done|].
  intros [Hc Hfree]. simpl.
  destruct (Ascii.eqb_spec c "{") as [->|_].
  - rewrite (proj2 (bytesBeforeClose_None s) Hfree). by rewrite IH.
  - by rewrite IH.
Qed.

Lemma processOpenAPIPath_literal (text rest : string) :
  freeOf "{" text ->
  processOpenAPIPath (text +:+ rest) = text +:+ processOpenAPIPath rest.
Proof.
  induction text as [|c text IH]; [done|]. intros [Hc Hfree].
  rewrite !str_app_cons, processOpenAPIPath_other by done. by rewrite IH.
Qed.

Lemma processOpenAPIPath_token (s : string) :
  processOpenAPIPath ("hardcode" +:+ s) = "hardcode" +:+ processOpenAPIPath s.
Proof. apply processOpenAPIPath_literal. by repeat split. Qed.

(** Normalising twice is normalising once: the loop of
    [findMatchingAPKOperation] may rebind [path] as often as it likes. *)
Lemma processOpenAPIPath_idempotent (s : string) :
  processOpenAPIPath (processOpenAPIPath s) = processOpenAPIPath s.
Proof.
  remember (String.length s) as n eqn:Hn.
  revert s Hn. induction (lt_wf n) as [n _ IH]. intros s ->.
  destruct s as [|c s]; [done|].
  destruct (Ascii.eqb_spec c "{") as [->|Hc].
  - destruct (bytesBeforeClose s) as [[|m]|] eqn:Hclose.
    + apply bytesBeforeClose_Some in Hclose as (name & rest & -> & Hlen & _).
      destruct name; [|done]. clear Hlen.
      change ("" +:+ String "}" rest) with (String "}" rest).
      rewrite !processOpenAPIPath_empty_braces.
      do 2 f_equal. eapply IH; [|done]. simpl. lia.
    + apply bytesBeforeClose_Some in Hclose as (name & rest & -> & Hlen & Hfree).
      change (String "{" (name +:+ String "}" rest))
        with ("{" +:+ name +:+ "}" +:+ rest).
      rewrite processOpenAPIPath_placeholder by (done || by destruct name).
      rewrite processOpenAPIPath_token. f_equal.
      eapply IH; [|done]. simpl. rewrite str_length_app. simpl. lia.
    + apply bytesBeforeClose_None in Hclose.
      by rewrite !(processOpenAPIPath_unclosed (String "{" s)).
  - rewrite !processOpenAPIPath_other by done. f_equal.
    eapply IH; [|done]. simpl. lia.
Qed.

Lemma processOpenAPIPath_segments (segments : list Segment) :
  Forall wellFormed segments ->
  processOpenAPIPath (templated segments) = normalised segments.
Proof.
  induction 1 as [|[text|name] segments Hwf _ IH]; [done|..]; simpl.
  - by rewrite processOpenAPIPath_literal, IH.
  - destruct Hwf. by rewrite processOpenAPIPath_placeholder, IH.
Qed.

(** ** Maps *)

Lemma isKey_eq (k : string) (y : Yaml) : GoMap.isKey k y = true <-> y = YStr k.
Proof.
  destruct y; simpl; try (split; [done|by intros [=]]).
  rewrite String.eqb_eq. split; [by intros ->|by intros [= ->]].
Qed.

Lemma isKey_other (k k' : string) (y : Yaml) :
  k <> k' -> GoMap.isKey k y = true -> GoMap.isKey k' y = false.
Proof.
  intros Hne ->%isKey_eq. simpl. by apply String.eqb_neq.
Qed.

Lemma get_set_eq (k : string) (v : Yaml) (m : list (Yaml * Yaml)) :
  GoMap.get k (GoMap.set k v m) = Some v.
Proof.
  induction m as [|[k' v'] m IH]; simpl.
  - by rewrite String.eqb_refl.
  - destruct (GoMap.isKey k k') eqn:Hk; simpl; by rewrite Hk.
Qed.

Lemma get_set_ne (k k' : string) (v : Yaml) (m : list (Yaml * Yaml)) :
  k <> k' -> GoMap.get k (GoMap.set k' v m) = GoMap.get k m.
Proof.
  intros Hne. induction m as [|[k0 v0] m IH]; simpl.
  - by destruct (String.eqb_spec k' k); [congruence|].
  - destruct (GoMap.isKey k' k0) eqn:Hk'; simpl; [|by rewrite IH].
    by rewrite (isKey_other k' k k0).
Qed.

Lemma get_delete_eq (k : string) (m : list (Yaml * Yaml)) :
  GoMap.get k (GoMap.delete k m) = None.
Proof.
  induction m as [|[k0 v0] m IH]; simpl; [done|].
  destruct (GoMap.isKey k k0) eqn:Hk; simpl; [done|]. by rewrite Hk.
Qed.

Lemma get_delete_ne (k k' : string) (m : list (Yaml * Yaml)) :
  k <> k' -> GoMap.get k (GoMap.delete k' m) = GoMap.get k m.
Proof.
  intros Hne. induction m as [|[k0 v0] m IH]; simpl; [done|].
  destruct (GoMap.isKey k' k0) eqn:Hk'; simpl; [|by rewrite IH].
  by rewrite (isKey_other k' k k0).
Qed.

Lemma get_deleteNested_ne (k k' inner : string) (m : list (Yaml * Yaml)) :
  k <> k' -> GoMap.get k (deleteNested k' inner m) = GoMap.get k m.
Proof.
  intros Hne. unfold deleteNested.
  destruct (GoMap.get k' m) as [[]|]; try done. by apply get_set_ne.
Qed.

Lemma get_deleteNested_eq (k inner : string) (m e : list (Yaml * Yaml)) :
  GoMap.get k m = Some (YMap e) ->
  GoMap.get k (deleteNested k inner m) = Some (YMap (GoMap.delete inner e)).
Proof. intros H. unfold deleteNested. rewrite H. apply get_set_eq. Qed.

(** ** The fields of the API definition document *)

Section apiData_facts.
Variable L : Lib.
Variable K : Consts.

(** Every statement after the literal leaves a key alone that it does not
    name. *)
Lemma get_setSubtypeConfiguration (k : string) (api : API) (data : list (Yaml * Yaml)) :
  k <> "subtypeConfiguration" ->
  GoMap.get k (setSubtypeConfiguration api data) = GoMap.get k data.
Proof.
  intros Hk. unfold setSubtypeConfiguration.
  destruct (0 <? _); [|done]. by apply get_set_ne.
Qed.

Lemma get_deleteEmptyEndpoints (k : string) (api : API) (data : list (Yaml * Yaml)) :
  k <> "endpointConfig" ->
  GoMap.get k (deleteEmptyEndpoints api data) = GoMap.get k data.
Proof.
  intros Hk. unfold deleteEmptyEndpoints.
  destruct (String.eqb (ProdEndpoint api) ""), (String.eqb (SandEndpoint api) "");
    by rewrite ?get_deleteNested_ne.
Qed.

Lemma get_setCORS (k : string) (api : API) (data : list (Yaml * Yaml)) :
  k <> "corsConfiguration" ->
  GoMap.get k (setCORS api data) = GoMap.get k data.
Proof.
  intros Hk. unfold setCORS. destruct (CORSPolicy api); [|done].
  by apply get_set_ne.
Qed.

Lemma get_setMaxTps (k : string) (api : API) (data : list (Yaml * Yaml)) :
  k <> "maxTps" -> GoMap.get k (setMaxTps L api data) = GoMap.get k data.
Proof.
  intros Hk. unfold setMaxTps. destruct (0 <? _); [|done]. by apply get_set_ne.
Qed.

Lemma get_setAPIPolicies (k : string) (api : API) (eps : list APIMEndpoint)
  (data : list (Yaml * Yaml)) :
  k <> "apiPolicies" ->
  GoMap.get k (setAPIPolicies L K api eps data) = GoMap.get k data.
Proof. intros Hk. by apply get_set_ne. Qed.

Lemma get_setPrimaryEndpoints_other (k : string) (api : API)
  (pid sid purl surl : string) (data : list (Yaml * Yaml)) :
  k <> "primaryProductionEndpointId" -> k <> "primarySandboxEndpointId" ->
  k <> "endpointImplementationType" -> k <> "endpointConfig" ->
  GoMap.get k (setPrimaryEndpoints api pid sid purl surl data) = GoMap.get k data.
Proof.
  intros. unfold setPrimaryEndpoints. destruct (_ || _); [|done].
  by rewrite !get_set_ne.
Qed.

Lemma apiData_context (R : Run) (cfg : result Config) (event : APICPEvent) :
  GoMap.get "context" (apiData L K R cfg event)
  = Some (YStr (removeVersionSuffix (BasePath (API_ event))
                                    (APIVersion (API_ event)))).
Proof.
  unfold apiData. destruct (operationsAndScopes _ _ _ _ _) as [operations scopes].
  rewrite get_setAPIPolicies, get_setPrimaryEndpoints_other, get_setMaxTps,
    get_setCORS, get_deleteEmptyEndpoints, get_setSubtypeConfiguration by done.
  reflexivity.
Qed.

End apiData_facts.

(** ** The synthesized context *)

(** C9.  The [context] field of the API definition document is
    [removeVersionSuffix] of the event's base path and version: when the
    base path ends with the version it is the base path with the suffix
    ["/"+version] trimmed, so [p] for a base path [p/version]; when the
    base path does not end with the version it is the base path itself.
    A base path [/pets/1.0] of version [1.0] gives [/pets]. *)
Theorem context_strips_version_suffix (L : Lib) (K : Consts) (R : Run)
  (cfg : result Config) (event : APICPEvent) :
  let basePath := BasePath (API_ event) in
  let version := APIVersion (API_ event) in
  exists context,
    GoMap.get "context" (apiData L K R cfg event) = Some (YStr context)
    /\ (GoStrings.HasSuffix basePath version = true ->
        context = GoStrings.TrimSuffix basePath ("/" +:+ version))
    /\ (forall p, basePath = p +:+ "/" +:+ version -> context = p)
    /\ (GoStrings.HasSuffix basePath version = false -> context = basePath)
    /\ removeVersionSuffix "/pets/1.0" "1.0" = "/pets".
Proof.
  intros basePath version. exists (removeVersionSuffix basePath version).
  split; [apply apiData_context|]. unfold removeVersionSuffix.
  repeat split.
  - by intros ->.
  - intros p ->.
    replace (p +:+ "/" +:+ version) with ((p +:+ "/") +:+ version)
      by apply str_app_assoc.
    rewrite HasSuffix_app, str_app_assoc. apply TrimSuffix_app.
  - by intros ->.
Qed.

(** ** The operation matcher *)

Lemma findMatchingAPKOperation_normalised (L : Lib) (path verb : string)
  (operations : list OperationFromDP) :
  findMatchingAPKOperation L (processOpenAPIPath path) verb operations
  = findMatchingAPKOperation L path verb operations.
Proof.
  revert path. induction operations as [|op operations IH]; intros path; [done|].
  simpl. rewrite processOpenAPIPath_idempotent.
  destruct (strings_EqualFold L (Verb op) verb); [|apply IH].
  by destruct (matchRegex L (Path op) (processOpenAPIPath path)).
Qed.

(** C7.  The operation matched to a (path, verb) pair of the schema is the
    first declared operation whose verb equals the schema verb under
    [strings.EqualFold] and whose path, compiled as a regular expression,
    matches the normalised schema path; no operation is matched when there
    is none.  Normalising replaces every placeholder [{name}] by the token
    [hardcode], whatever the name. *)
Theorem findMatchingAPKOperation_first_match (L : Lib) (path verb : string)
  (operations : list OperationFromDP) :
  findMatchingAPKOperation L path verb operations
  = List.find (fun op =>
                 strings_EqualFold L (Verb op) verb
                 && matchRegex L (Path op) (processOpenAPIPath path))
              operations
  /\ (forall segments,
        Forall wellFormed segments ->
        processOpenAPIPath (templated segments) = normalised segments).
Proof.
  split; [|apply processOpenAPIPath_segments].
  induction operations as [|op operations IH]; [done|]. simpl.
  destruct (strings_EqualFold L (Verb op) verb); simpl; [|apply IH].
  destruct (matchRegex L (Path op) (processOpenAPIPath path)); [done|].
  by rewrite findMatchingAPKOperation_normalised.
Qed.

(** ** The entity mirror *)

Section mirror_facts.
Import Eventhub.
Variable tenant : string.

Lemma latestWithUUID_snoc (uuid : string) (appList : list types.Application)
  (a : types.Application) :
  latestWithUUID uuid (appList ++ [a])
  = if decide (types.UUID a = uuid) then Some a else latestWithUUID uuid appList.
Proof.
  unfold latestWithUUID. rewrite filter_app.
  case_decide as Ha.
  - rewrite filter_cons_True, filter_nil by done. apply last_snoc.
  - rewrite filter_cons_False, filter_nil by done. by rewrite app_nil_r.
Qed.

Lemma latestWithUUID_None (uuid : string) (appList : list types.Application) :
  uuid ∉ types.UUID <$> appList -> latestWithUUID uuid appList = None.
Proof.
  induction appList as [|a appList IH]; [done|].
  rewrite fmap_cons. intros [Hne Hnot]%not_elem_of_cons.
  unfold latestWithUUID in *. rewrite filter_cons_False by done.
  by apply IH.
Qed.

Lemma latestWithUUID_Some (uuid : string) (appList : list types.Application)
  (a : types.Application) :
  latestWithUUID uuid appList = Some a -> a ∈ appList /\ types.UUID a = uuid.
Proof.
  unfold latestWithUUID. intros H%last_Some_elem_of.
  by apply list_elem_of_filter in H as [? ?].
Qed.

Lemma resourceMap_lookup (appList : list types.Application)
  (m0 : gmap string Application) (uuid : string) :
  foldl (fun m application =>
           <[types.UUID application := MarshalApplication tenant application]> m)
        m0 appList !! uuid
  = match latestWithUUID uuid appList with
    | Some a => Some (MarshalApplication tenant a)
    | None => m0 !! uuid
    end.
Proof.
  induction appList as [|a appList IH] using rev_ind; [done|].
  rewrite foldl_app, latestWithUUID_snoc. simpl. case_decide as Ha.
  - subst uuid. apply lookup_insert_eq.
  - by rewrite lookup_insert_ne.
Qed.

(** Marshalling an application or a subscription fills in an empty tenant
    domain; marshalling a key mapping copies the field as it is. *)
Lemma MarshalApplication_TenantDomain (a : types.Application) :
  TenantDomain (MarshalApplication tenant a)
  = if String.eqb (types.TenantDomain a) "" then tenant
    else types.TenantDomain a.
Proof. unfold MarshalApplication. simpl. by destruct (String.eqb _ _). Qed.

Lemma MarshalSubscription_TenantDomain (s : types.Subscription) :
  SubTenantDomain (MarshalSubscription tenant s)
  = if String.eqb (types.SubTenantDomain s) "" then tenant
    else types.SubTenantDomain s.
Proof. unfold MarshalSubscription. simpl. by destruct (String.eqb _ _). Qed.

Lemma marshalKeyMapping_TenantDomain (k : types.ApplicationKeyMapping) :
  KMTenantDomain (marshalKeyMapping k) = types.KMTenantDomain k.
Proof. reflexivity. Qed.

End mirror_facts.

(** C8.  After [MarshalMultipleApplications] the application map is the
    map built from the new snapshot alone: under each UUID it holds the
    marshalled form of the last application of the snapshot with that UUID,
    it holds nothing under a UUID the snapshot does not contain, whatever
    the map held before, and the other three maps are as they were. *)
Theorem MarshalMultipleApplications_replaces_map (tenant : string)
  (appList : list Eventhub.types.Application) (st : Eventhub.Mirror) :
  let '(resourceMap, st') :=
    Eventhub.MarshalMultipleApplications tenant appList st in
  Eventhub.ApplicationMap st' = resourceMap
  /\ (forall uuid,
        Eventhub.ApplicationMap st' !! uuid
        = Eventhub.MarshalApplication tenant
            <$> Eventhub.latestWithUUID uuid appList)
  /\ (forall uuid a,
        Eventhub.ApplicationMap st' !! uuid = Some a ->
        exists a0, a0 ∈ appList /\ Eventhub.types.UUID a0 = uuid
                   /\ a = Eventhub.MarshalApplication tenant a0)
  /\ (forall a0, a0 ∈ appList ->
        is_Some (Eventhub.ApplicationMap st' !! Eventhub.types.UUID a0))
  /\ (forall uuid,
        uuid ∉ Eventhub.types.UUID <$> appList ->
        Eventhub.ApplicationMap st' !! uuid = None)
  /\ Eventhub.SubscriptionMap st' = Eventhub.SubscriptionMap st
  /\ Eventhub.ApplicationKeyMappingMap st' = Eventhub.ApplicationKeyMappingMap st
  /\ Eventhub.KeyManagerMap st' = Eventhub.KeyManagerMap st.
Proof.
  simpl.
  assert (forall uuid,
    foldl (fun m application =>
             <[Eventhub.types.UUID application :=
                 Eventhub.MarshalApplication tenant application]> m)
          (∅ : gmap string Eventhub.Application) appList !! uuid
    = Eventhub.MarshalApplication tenant <$> Eventhub.latestWithUUID uuid appList)
    as Hlookup.
  { intros uuid. rewrite resourceMap_lookup.
    by destruct (Eventhub.latestWithUUID uuid appList). }
  repeat split; try done.
  - intros uuid a. rewrite Hlookup.
    destruct (Eventhub.latestWithUUID uuid appList) as [a0|] eqn:Hlatest; [|done].
    intros [= <-]. apply latestWithUUID_Some in Hlatest as [? ?]. eauto.
  - intros a0 Ha0. rewrite Hlookup.
    destruct (Eventhub.latestWithUUID _ appList) as [a1|] eqn:Hlatest; [by eexists|].
    exfalso. revert Hlatest. unfold Eventhub.latestWithUUID.
    intros Hlast%last_None.
    assert (a0 ∈ filter (λ a, Eventhub.types.UUID a = Eventhub.types.UUID a0) appList)
      as Hin by (by apply list_elem_of_filter).
    rewrite Hlast in Hin. by apply not_elem_of_nil in Hin.
  - intros uuid Hnot. by rewrite Hlookup, latestWithUUID_None.
Qed.

(** C4, at a snapshot whose entities carry no tenant domain, with the
    connected tenant domain [carbon.super]: the application and the
    subscription are stored with [carbon.super], the key mapping is stored
    with the empty tenant domain. *)
Theorem key_mapping_tenant_domain_stays_empty :
  let st := Fixture.emptyMirror in
  let st := (Eventhub.MarshalMultipleApplications "carbon.super"
               [Fixture.application] st).2 in
  let st := (Eventhub.MarshalMultipleSubscriptions "carbon.super"
               [Fixture.subscription] st).2 in
  let st := (Eventhub.MarshalMultipleApplicationKeyMappings
               [Fixture.keyMapping] st).2 in
  Eventhub.TenantDomain <$> Eventhub.ApplicationMap st !! "app-1"
  = Some "carbon.super"
  /\ Eventhub.SubTenantDomain <$> Eventhub.SubscriptionMap st !! 7%Z
     = Some "carbon.super"
  /\ Eventhub.KMTenantDomain
       <$> Eventhub.ApplicationKeyMappingMap st !! "ck:Resident"
     = Some "".
Proof. simpl. by repeat split. Qed.

(** ** The endpoint resolver *)

Section resolver_facts.
Variable R : Run.
Variable multiEndpoints : MultiEndpointsT.

Lemma prodEndpointStep_fold (l : list EndpointConfig) (st : EndpointLoop) :
  uuidCalls st = count st ->
  let st' := foldl (prodEndpointStep R multiEndpoints) st l in
  count st' = count st + length l
  /\ uuidCalls st' = count st'
  /\ apimEndpints st'
     = apimEndpints st
       ++ imap (fun i => prodDescriptor R multiEndpoints (count st + i)) l
  /\ (0 < count st ->
      primaryEndpointID st' = primaryEndpointID st
      /\ primaryURL st' = primaryURL st).
Proof.
  revert st. induction l as [|e l IH]; intros st Hcalls; simpl.
  - rewrite app_nil_r. repeat split; lia || done.
  - destruct (IH (prodEndpointStep R multiEndpoints st e))
      as (Hcount & Huuid & Heps & Hprim); [simpl; lia|].
    simpl in *. rewrite Hcount, Huuid, Heps. repeat split; try lia.
    + rewrite <- app_assoc. simpl. rewrite Hcalls, Nat.add_0_r.
      do 2 f_equal. apply imap_ext. intros i x _. simpl.
      by replace (S (count st + i)) with (count st + S i) by lia.
    + destruct Hprim as [-> _]; [lia|].
      by destruct (count st); [lia|].
    + destruct Hprim as [_ ->]; [lia|].
      by destruct (count st); [lia|].
Qed.

Lemma sandEndpointStep_fold (n : nat) (l : list EndpointConfig)
  (st : EndpointLoop) :
  uuidCalls st = n + count st ->
  let st' := foldl (sandEndpointStep R multiEndpoints) st l in
  count st' = count st + length l
  /\ uuidCalls st' = n + count st'
  /\ apimEndpints st'
     = apimEndpints st
       ++ imap (fun i => sandDescriptor R multiEndpoints n (count st + i)) l
  /\ (0 < count st ->
      primaryEndpointID st' = primaryEndpointID st
      /\ primaryURL st' = primaryURL st).
Proof.
  revert st. induction l as [|e l IH]; intros st Hcalls; simpl.
  - rewrite app_nil_r. repeat split; lia || done.
  - destruct (IH (sandEndpointStep R multiEndpoints st e))
      as (Hcount & Huuid & Heps & Hprim); [simpl; lia|].
    simpl in *. rewrite Hcount, Huuid, Heps. repeat split; try lia.
    + rewrite <- app_assoc. simpl. rewrite Hcalls, Nat.add_0_r.
      do 2 f_equal. apply imap_ext. intros i x _. simpl.
      by replace (S (count st + i)) with (count st + S i) by lia.
    + destruct Hprim as [-> _]; [lia|].
      by destruct (count st); [lia|].
    + destruct Hprim as [_ ->]; [lia|].
      by destruct (count st); [lia|].
Qed.

(** The state the production loop ends in. *)
Lemma prodLoop_closed :
  let l := ProdEndpoints multiEndpoints in
  prodLoop R multiEndpoints
  = {| count := length l;
       primaryEndpointID :=
         match l with
         | [] => ""
         | _ :: _ => uuid_New R 0 +:+ "--PRODUCTION"
         end;
       primaryURL :=
         match l with
         | [] => ""
         | e :: _ => endpointURL multiEndpoints e
         end;
       apimEndpints := imap (prodDescriptor R multiEndpoints) l;
       uuidCalls := length l |}.
Proof.
  unfold prodLoop. destruct (ProdEndpoints multiEndpoints) as [|e l]; [done|].
  simpl.
  destruct (prodEndpointStep_fold l
              (prodEndpointStep R multiEndpoints
                 {| count := 0; primaryEndpointID := ""; primaryURL := "";
                    apimEndpints := []; uuidCalls := 0 |} e))
    as (Hcount & Huuid & Heps & Hprim); [done|].
  destruct Hprim as [Hid Hurl]; [simpl; lia|].
  destruct (foldl _ _ l) as [c pid purl eps calls]. simpl in *. by subst.
Qed.

(** The state the sandbox loop ends in. *)
Lemma sandLoop_closed :
  let n := length (ProdEndpoints multiEndpoints) in
  let l := SandEndpoints multiEndpoints in
  sandLoop R multiEndpoints
  = {| count := length l;
       primaryEndpointID :=
         match l with
         | [] => ""
         | _ :: _ => uuid_New R n +:+ "--SANDBOX"
         end;
       primaryURL :=
         match l with
         | [] => ""
         | e :: _ => endpointURL multiEndpoints e
         end;
       apimEndpints :=
         imap (prodDescriptor R multiEndpoints) (ProdEndpoints multiEndpoints)
         ++ imap (sandDescriptor R multiEndpoints n) l;
       uuidCalls := n + length l |}.
Proof.
  unfold sandLoop. rewrite prodLoop_closed. simpl.
  destruct (SandEndpoints multiEndpoints) as [|e l]; simpl.
  { by rewrite app_nil_r, Nat.add_0_r. }
  set (st1 := sandEndpointStep R multiEndpoints _ e).
  destruct (sandEndpointStep_fold (length (ProdEndpoints multiEndpoints)) l st1)
    as (Hcount & Huuid & Heps & Hprim); [simpl; lia|].
  destruct Hprim as [Hid Hurl]; [simpl; lia|].
  destruct (foldl _ st1 l) as [c pid purl eps calls]. simpl in *. subst.
  f_equal. rewrite <- app_assoc. f_equal. simpl. f_equal.
  unfold sandDescriptor. by rewrite Nat.add_0_r.
Qed.

End resolver_facts.

(** ** Primary endpoints and the endpoints document *)

Lemma stage_suffix_not_empty (s suffix : string) :
  suffix <> "" -> s +:+ suffix <> "".
Proof. by destruct s, suffix. Qed.


Section primary_facts.
Variable L : Lib.
Variable K : Consts.
Variable R : Run.
Variable cfg : result Config.
Variable event : APICPEvent.

Let api := API_ event.
Let prod := prodLoop R (MultiEndpoints api).
Let sand := sandLoop R (MultiEndpoints api).

(** With a primary of either stage, [createAPIYaml] writes both
    identifiers, the marker and the configuration of the primaries. *)
Lemma apiData_with_primary :
  primaryEndpointID prod <> "" \/ primaryEndpointID sand <> "" ->
  let data := apiData L K R cfg event in
  GoMap.get "primaryProductionEndpointId" data
  = Some (YStr (primaryEndpointID prod))
  /\ GoMap.get "primarySandboxEndpointId" data
     = Some (YStr (primaryEndpointID sand))
  /\ GoMap.get "endpointImplementationType" data = Some (YStr "ENDPOINT")
  /\ GoMap.get "endpointConfig" data
     = Some (YMap (primaryEndpointConfig api (primaryURL sand) (primaryURL prod))).
Proof.
  intros Hprimary. unfold apiData. fold api prod sand.
  destruct (operationsAndScopes _ _ _ _ _) as [operations scopes].
  cbv zeta. rewrite !get_setAPIPolicies by done. unfold setPrimaryEndpoints.
  assert (negb (String.eqb (primaryEndpointID prod) "")
          || negb (String.eqb (primaryEndpointID sand) "") = true) as ->.
  { destruct Hprimary as [H|H]; apply String.eqb_neq in H; rewrite H;
      by rewrite ?orb_true_r. }
  repeat split.
  - by rewrite !get_set_ne, get_set_eq by done.
  - by rewrite !get_set_ne, get_set_eq by done.
  - by rewrite !get_set_ne, get_set_eq by done.
  - by rewrite get_set_eq.
Qed.

(** The inline configuration as the literal has it. *)
Lemma initialData_endpointConfig
  (operations : list (APIOperation (list OperationPolicy)))
  (scopes : list ScopeWrapper) :
  GoMap.get "endpointConfig" (initialData R cfg api operations scopes)
  = Some (YMap (endpointConfigMap (EndpointProtocol api)
                  (if String.eqb (SandEndpoint api) "" then SandEndpoint api
                   else EndpointProtocol api +:+ "://" +:+ SandEndpoint api)
                  (if String.eqb (ProdEndpoint api) "" then ProdEndpoint api
                   else EndpointProtocol api +:+ "://" +:+ ProdEndpoint api)
                  (endpointSecurityEntry (SandEndpointSecurity api)
                     (if String.eqb (SecurityType (SandEndpointSecurity api)) ""
                      then "NONE"
                      else SecurityType (SandEndpointSecurity api)))
                  (endpointSecurityEntry (ProdEndpointSecurity api)
                     (if String.eqb (SecurityType (ProdEndpointSecurity api)) ""
                      then "NONE"
                      else SecurityType (ProdEndpointSecurity api))))).
Proof. reflexivity. Qed.

(** Without one, it writes none of them and the inline configuration
    stays. *)
Lemma apiData_without_primary :
  primaryEndpointID prod = "" -> primaryEndpointID sand = "" ->
  let data := apiData L K R cfg event in
  GoMap.get "primaryProductionEndpointId" data = None
  /\ GoMap.get "primarySandboxEndpointId" data = None
  /\ GoMap.get "endpointImplementationType" data = None
  /\ GoMap.get "endpointConfig" data = Some (YMap (inlineEndpointConfig api)).
Proof.
  intros Hprod Hsand. unfold apiData. fold api prod sand.
  destruct (operationsAndScopes _ _ _ _ _) as [operations scopes].
  cbv zeta. rewrite !get_setAPIPolicies by done. unfold setPrimaryEndpoints.
  rewrite Hprod, Hsand.
  change (negb (String.eqb "" "") || negb (String.eqb "" "")) with false.
  cbv iota.
  rewrite !get_setMaxTps, !get_setCORS by done.
  rewrite !get_deleteEmptyEndpoints, !get_setSubtypeConfiguration by done.
  repeat split.
  pose proof (eq_trans
                (get_setSubtypeConfiguration "endpointConfig" api
                   (initialData R cfg api operations scopes) ltac:(done))
                (initialData_endpointConfig operations scopes)) as H0.
  unfold deleteEmptyEndpoints, inlineEndpointConfig.
  destruct (String.eqb (SandEndpoint api) "") eqn:Hs,
           (String.eqb (ProdEndpoint api) "") eqn:Hp.
  - by rewrite (get_deleteNested_eq _ _ _ _ (get_deleteNested_eq _ _ _ _ H0)).
  - by rewrite (get_deleteNested_eq _ _ _ _ H0).
  - by rewrite (get_deleteNested_eq _ _ _ _ H0).
  - by rewrite H0.
Qed.

Lemma primaryEndpointID_prod :
  primaryEndpointID prod <> "" <-> 0 < length (ProdEndpoints (MultiEndpoints api)).
Proof.
  unfold prod. rewrite prodLoop_closed. simpl.
  destruct (ProdEndpoints (MultiEndpoints api)); simpl; [split; [done|lia]|].
  split; [lia|]. intros _. by apply stage_suffix_not_empty.
Qed.

Lemma primaryEndpointID_sand :
  primaryEndpointID sand <> "" <-> 0 < length (SandEndpoints (MultiEndpoints api)).
Proof.
  unfold sand. rewrite sandLoop_closed. simpl.
  destruct (SandEndpoints (MultiEndpoints api)); simpl; [split; [done|lia]|].
  split; [lia|]. intros _. by apply stage_suffix_not_empty.
Qed.




End primary_facts.



Lemma mapM_is_Some_Forall {A B : Type} (f : A -> option B) (l : list A) :
  Forall (fun x => is_Some (f x)) l -> is_Some (mapM f l).
Proof.
  induction 1 as [|x l [y Hy] _ [ys IH]]; [by eexists|].
  simpl. rewrite Hy. simpl. rewrite IH. by eexists.
Qed.

(** With string keys the type assertions hold. *)
Lemma annotateVerb_strings (L : Lib)
  (operations : list (APIOperation (list OperationPolicy)))
  (path verb : string) (verbContent : Yaml) :
  is_Some (annotateVerb L operations (YStr path) (YStr verb) verbContent).
Proof.
  induction operations as [|operation operations IH]; simpl; [by eexists|].
  destruct (strings_EqualFold L path (Target operation)); [|done].
  destruct (strings_EqualFold L verb (OpVerb operation)); [|done].
  destruct verbContent; by eexists.
Qed.

Lemma rewriteOpenAPI_stringKeyed (L : Lib)
  (operations : list (APIOperation (list OperationPolicy)))
  (scopes : list ScopeWrapper) (openAPI : list (Yaml * Yaml)) :
  stringKeyed openAPI ->
  is_Some (rewriteOpenAPI L operations scopes (Some openAPI)).
Proof.
  unfold stringKeyed, rewriteOpenAPI. cbn [default from_option id].
  destruct (GoMap.get "paths" openAPI) as [[| | | | | |paths]|];
    try (by eexists).
  intros Hkeys.
  destruct (mapM_is_Some_Forall (annotatePath L operations) paths) as [r ->];
    [|by eexists].
  eapply Forall_impl; [exact Hkeys|].
  intros [path pathContent] [[p Hp] Hverbs]. simpl in *. subst path.
  destruct pathContent; try (by eexists).
  destruct (mapM_is_Some_Forall
              (fun ve : Yaml * Yaml =>
                 c ← annotateVerb L operations (YStr p) ve.1 ve.2;
                 Some (ve.1, c)) entries) as [r ->]; [|by eexists].
  eapply Forall_impl; [exact Hverbs|].
  intros [verb verbContent] [v Hv]. simpl in *. subst verb.
  destruct (annotateVerb_strings L operations p v verbContent) as [c ->].
  by eexists.
Qed.

(** [createAPIYaml] returns when the rewriting has a map that is not nil
    and has string keys to work on, or has nothing to do. *)
Lemma createAPIYaml_returns (L : Lib) (K : Consts) (R : Run)
  (cfg : result Config) (event : APICPEvent) :
  rewritable L (Definition_ (API_ event)) ->
  exists definition,
    createAPIYaml L K R cfg event
    = Some (marshalOrEmpty L (apiDocument (apiData L K R cfg event)),
            definition, marshalOrEmpty L (YMap (endpointsData R event))).
Proof.
  intros Hkeys. unfold createAPIYaml, definitionOf.
  destruct (operationsAndScopes _ _ _ _ _) as [operations scopes].
  unfold rewriteDefinition.
  destruct (strings_EqualFold L _ "rest"); [|by eexists].
  destruct (ConvertYAMLToMap L (Definition_ (API_ event))) as [openAPI|] eqn:Hc;
    [|by eexists].
  destruct (Hkeys openAPI Hc) as (entries & -> & Hentries).
  destruct (rewriteOpenAPI_stringKeyed L operations scopes entries Hentries)
    as [r ->].
  simpl. destruct (yaml_Marshal L (YMap r)); by eexists.
Qed.

(** On the nil map the rewriting panics, whatever the operations, and
    [createAPIYaml] with it. *)
Lemma rewriteOpenAPI_nil_map (L : Lib)
  (operations : list (APIOperation (list OperationPolicy)))
  (scopes : list ScopeWrapper) :
  rewriteOpenAPI L operations scopes None = None.
Proof. reflexivity. Qed.

Lemma createAPIYaml_nil_map (L : Lib) (K : Consts) (R : Run)
  (cfg : result Config) (event : APICPEvent) :
  strings_EqualFold L (APIType (API_ event)) "rest" = true ->
  ConvertYAMLToMap L (Definition_ (API_ event)) = Ok None ->
  createAPIYaml L K R cfg event = None.
Proof.
  intros Hrest Hnil. unfold createAPIYaml, definitionOf.
  destruct (operationsAndScopes _ _ _ _ _) as [operations scopes].
  unfold rewriteDefinition. by rewrite Hrest, Hnil, rewriteOpenAPI_nil_map.
Qed.






(** ** Primaries and the inline endpoint configuration *)

(** C5, as the code has it.  The primary-endpoint identifiers, the marker
    [ENDPOINT] and the configuration of the primaries take the place of
    the inline endpoint configuration exactly when the event has at least
    one multi-endpoint entry, of either stage; with none, the three keys
    are absent and the inline configuration built from the single-endpoint
    fields is kept. *)
Theorem primaries_replace_inline_configuration (L : Lib) (K : Consts)
  (R : Run) (cfg : result Config) (event : APICPEvent) :
  let api := API_ event in
  let N := length (ProdEndpoints (MultiEndpoints api)) in
  let M := length (SandEndpoints (MultiEndpoints api)) in
  let prod := prodLoop R (MultiEndpoints api) in
  let sand := sandLoop R (MultiEndpoints api) in
  let data := apiData L K R cfg event in
  (0 < N \/ 0 < M ->
   GoMap.get "primaryProductionEndpointId" data
   = Some (YStr (primaryEndpointID prod))
   /\ GoMap.get "primarySandboxEndpointId" data
      = Some (YStr (primaryEndpointID sand))
   /\ GoMap.get "endpointImplementationType" data = Some (YStr "ENDPOINT")
   /\ GoMap.get "endpointConfig" data
      = Some (YMap (primaryEndpointConfig api (primaryURL sand)
                      (primaryURL prod))))
  /\ (N = 0 /\ M = 0 ->
      GoMap.get "primaryProductionEndpointId" data = None
      /\ GoMap.get "primarySandboxEndpointId" data = None
      /\ GoMap.get "endpointImplementationType" data = None
      /\ GoMap.get "endpointConfig" data
         = Some (YMap (inlineEndpointConfig api))).
Proof.
  intros api N M prod sand data. split.
  - intros Hsome. apply apiData_with_primary.
    destruct Hsome as [H|H]; [left|right].
    + by apply primaryEndpointID_prod.
    + by apply primaryEndpointID_sand.
  - intros [HN HM]. apply apiData_without_primary.
    + destruct (decide (primaryEndpointID prod = "")) as [|Hne]; [done|].
      apply primaryEndpointID_prod in Hne. fold api N in Hne. lia.
    + destruct (decide (primaryEndpointID sand = "")) as [|Hne]; [done|].
      apply primaryEndpointID_sand in Hne. fold api M in Hne. lia.
Qed.

(** C5 as it is stated fails on an event with one production entry and no
    sandbox entry: no stage has more than one endpoint, and yet the marker
    and the primary identifier are written and the configuration is that
    of the primary, not the inline one. *)
Lemma single_entry_replaces_inline_configuration :
  let event :=
    Fixture.createEvent [] [Fixture.endpointAt "a.example.com"] [] in
  let data :=
    apiData Fixture.lib Fixture.consts (Fixture.run "id") Fixture.config
      event in
  length (ProdEndpoints (MultiEndpoints (API_ event))) = 1
  /\ length (SandEndpoints (MultiEndpoints (API_ event))) = 0
  /\ GoMap.get "endpointImplementationType" data = Some (YStr "ENDPOINT")
  /\ GoMap.get "primaryProductionEndpointId" data
     = Some (YStr "id-0--PRODUCTION")
  /\ GoMap.get "endpointConfig" data
     <> Some (YMap (inlineEndpointConfig (API_ event)))
  /\ endpointsData (Fixture.run "id") event = [].
Proof. vm_compute. by repeat split. Qed.

(** ** What a run can change *)

Section runs.
Variable L : Lib.
Variable K : Consts.
Variables R1 R2 : Run.
Hypothesis same_order : forall (A : Type) (l : list A), range R1 A l = range R2 A l.



Section same_identifiers.
Variable multiEndpoints : MultiEndpointsT.
Hypothesis same_identifiers :
  forall n,
    n < length (ProdEndpoints multiEndpoints)
        + length (SandEndpoints multiEndpoints) ->
    uuid_New R1 n = uuid_New R2 n.



End same_identifiers.


End runs.

(** ** What a run cannot change *)

Section agreement.
Variable keys : string -> Prop.






End agreement.



Section independence.
Variable L : Lib.
Variable K : Consts.
Variables R1 R2 : Run.
Hypothesis same_order : forall (A : Type) (l : list A), range R1 A l = range R2 A l.











End independence.




(** ** The delete path *)

(** C6.  On a delete event, with a first environment label to name and a
    payload that [json.Marshal] serialises, the handler makes exactly one
    outside call, [DeleteAPIRevision], with the event's artifact id, its
    revision id and the serialised payload; the payload is a list of one
    object carrying the revision id, the first environment label, the
    event's vhost and [displayOnDevportal: true].  The response is 503
    with the error text when the call returns an error, and otherwise 200
    with [{"message": "Success"}]. *)
Theorem delete_event_undeploys_revision (L : Lib) (K : Consts) (R : Run)
  (cfg : result Config) (event : APICPEvent) (label : string)
  (labels : list string) (jsonPayload : string) :
  Event event = DeleteEvent K ->
  envLabelOf cfg = label :: labels ->
  json_Marshal L (undeployPayload event label) = Ok jsonPayload ->
  let apiID := APIUUID (API_ event) in
  let revisionID := RevisionID (API_ event) in
  undeployPayload event label
  = YSeq [YMap [(YStr "revisionUuid", YStr revisionID);
                (YStr "name", YStr label);
                (YStr "vhost", YStr (Vhost (API_ event)));
                (YStr "displayOnDevportal", YBool true)]]
  /\ exists response,
       postAPIs L K R cfg (Ok event)
       = Some (response, [DeleteAPIRevisionCall apiID revisionID jsonPayload])
       /\ match utils_DeleteAPIRevision L apiID revisionID jsonPayload with
          | Some err =>
              response = {| status := 503; body := YStr err |}
          | None =>
              response = {| status := 200;
                            body := YMap [(YStr "message", YStr "Success")] |}
          end.
Proof.
  intros Hdelete Hlabels Hjson apiID revisionID. split; [reflexivity|].
  unfold postAPIs. rewrite Hdelete, String.eqb_refl, Hlabels. simpl.
  rewrite Hjson. fold apiID revisionID.
  destruct (utils_DeleteAPIRevision L apiID revisionID jsonPayload); eauto.
Qed.

(** The delete event of artifact [X], revision [2], vhost [foo], once with
    an import client that accepts it and once, for the artifact
    [unreachable], with one that refuses. *)
Lemma delete_event_witness :
  Event Fixture.deleteEvent = DeleteEvent Fixture.consts
  /\ envLabelOf Fixture.config = ["Default"]
  /\ exists jsonPayload response,
       json_Marshal Fixture.lib (undeployPayload Fixture.deleteEvent "Default")
       = Ok jsonPayload
       /\ postAPIs Fixture.lib Fixture.consts (Fixture.run "id") Fixture.config
            (Ok Fixture.deleteEvent)
          = Some (response, [DeleteAPIRevisionCall "X" "2" jsonPayload])
       /\ response = {| status := 200;
                        body := YMap [(YStr "message", YStr "Success")] |}.
Proof.
  split; [reflexivity|]. split; [reflexivity|].
  destruct (delete_event_undeploys_revision
              Fixture.lib Fixture.consts (Fixture.run "id") Fixture.config
              Fixture.deleteEvent "Default" [] _ eq_refl eq_refl eq_refl)
    as (_ & response & Hpost & Hresponse).
  eexists _, response. split; [reflexivity|]. split; [exact Hpost|].
  exact Hresponse.
Defined.

(** ** Operation policies *)

(** [append] on a slice that fits the heap shows the old elements and the
    new one; slices that fit the heap still fit it, and a slice on another
    array, or no longer than the one appended to, shows what it showed. *)

Section slices.
Variable L : Lib.

Lemma fits_grow (h : PolicyHeap) (array : list OperationPolicy) (t : PolicySlice) :
  fits h t ->
  fits (h ++ [array]) t /\ GoSlice.read (h ++ [array]) t = GoSlice.read h t.
Proof.
  intros [Hlen Hcap]. unfold fits, GoSlice.read.
  destruct (h !! GoSlice.arr t) as [old|] eqn:Hold.
  - rewrite (lookup_app_l_Some _ _ _ _ Hold). done.
  - simpl in Hcap. assert (GoSlice.len t = 0) as -> by lia.
    split; [split; lia|done].
Qed.

Lemma appendPolicy_read (s : PolicySlice) (p : OperationPolicy) (h : PolicyHeap) :
  fits h s ->
  let '(s', h') := appendPolicy L s p h in
  GoSlice.read h' s' = GoSlice.read h s ++ [p]
  /\ fits h' s'
  /\ (forall t, fits h t -> fits h' t)
  /\ (forall t, fits h t ->
        GoSlice.arr t <> GoSlice.arr s \/ GoSlice.len t <= GoSlice.len s ->
        GoSlice.read h' t = GoSlice.read h t).
Proof.
  intros [Hlen Hcap]. unfold appendPolicy, GoSlice.append.
  destruct s as [a n c]. simpl in *.
  destruct (Nat.ltb_spec n c) as [Hlt|Hge].
  - unfold fits, GoSlice.read. cbn [GoSlice.arr GoSlice.len GoSlice.cap].
    destruct (h !! a) as [array|] eqn:Harray; simpl in Hcap; [|lia].
    rewrite list_lookup_alter_eq, Harray. simpl.
    split; [|split; [|split]].
    + rewrite (take_S_r _ _ p) by (apply list_lookup_insert_eq; lia).
      by rewrite take_insert_ge by lia.
    + rewrite length_insert. lia.
    + intros [ta tn tc] [Ht1 Ht2]. simpl in *. split; [done|].
      destruct (decide (ta = a)) as [->|Hne].
      * rewrite list_lookup_alter_eq, Harray. simpl. rewrite length_insert.
        by rewrite Harray in Ht2.
      * by rewrite list_lookup_alter_ne.
    + intros [ta tn tc] _ Hother. simpl in *.
      destruct (decide (ta = a)) as [->|Hne];
        [|by rewrite list_lookup_alter_ne].
      rewrite list_lookup_alter_eq, Harray. simpl.
      rewrite take_insert_ge; [done|]. destruct Hother; [done|lia].
  - assert (n = c) as -> by lia.
    set (array := GoSlice.read h _ ++ _).
    split; [|split; [|split]].
    + unfold GoSlice.read at 1. simpl. rewrite list_lookup_middle by done. simpl.
      subst array. unfold GoSlice.read. simpl.
      assert (length (take c (default [] (h !! a))) = c) as Htake
        by (rewrite length_take; lia).
      rewrite (cons_middle p), app_assoc.
      apply take_app_length'. rewrite length_app. simpl. lia.
    + unfold fits. simpl. rewrite list_lookup_middle by done. simpl.
      subst array. rewrite length_app. simpl. rewrite length_replicate.
      unfold GoSlice.read. simpl. rewrite length_take. lia.
    + intros t Ht. by apply fits_grow.
    + intros t Ht _. by apply fits_grow.
Qed.
End slices.

Section accumulators.
Variable L : Lib.
Variable K : Consts.

Lemma appendRequest_fits (a : Accumulators) (p : OperationPolicy) :
  fitsBoth a -> fitsBoth (appendRequest L a p).
Proof.
  intros [Hreq Hresp]. unfold appendRequest, fitsBoth.
  pose proof (appendPolicy_read L _ p _ Hreq) as Happend.
  destruct (appendPolicy L _ p _) as [s h]. simpl.
  destruct Happend as (_ & Hs & Hfits & _). auto.
Qed.

Lemma appendResponse_fits (a : Accumulators) (p : OperationPolicy) :
  fitsBoth a -> fitsBoth (appendResponse L a p).
Proof.
  intros [Hreq Hresp]. unfold appendResponse, fitsBoth.
  pose proof (appendPolicy_read L _ p _ Hresp) as Happend.
  destruct (appendPolicy L _ p _) as [s h]. simpl.
  destruct Happend as (_ & Hs & Hfits & _). auto.
Qed.

Lemma requestFromResponse_read (a : Accumulators) (p : OperationPolicy) :
  fits (heap a) (responseOperationPolicies a) ->
  let a' := requestFromResponse L a p in
  GoSlice.read (heap a') (requestOperationPolicies a')
  = GoSlice.read (heap a) (responseOperationPolicies a) ++ [p]
  /\ responseOperationPolicies a' = responseOperationPolicies a
  /\ GoSlice.read (heap a') (responseOperationPolicies a')
     = GoSlice.read (heap a) (responseOperationPolicies a)
  /\ fitsBoth a'.
Proof.
  intros Hresp. unfold requestFromResponse, fitsBoth.
  pose proof (appendPolicy_read L _ p _ Hresp) as Happend.
  destruct (appendPolicy L _ p _) as [s h]. simpl.
  destruct Happend as (Hread & Hs & Hfits & Hsame).
  split; [done|]. split; [done|]. split; [|split; [done|by apply Hfits]].
  apply Hsame; [done|]. by right.
Qed.

Lemma requestFromResponse_fits (a : Accumulators) (p : OperationPolicy) :
  fitsBoth a -> fitsBoth (requestFromResponse L a p).
Proof. intros [_ Hresp]. by apply requestFromResponse_read. Qed.

(** The loop over the request headers to remove, from any state the
    extraction can be in: whatever the request list held, it ends as the
    response list followed by one removal policy, for the last name. *)
Lemma request_removal_loop (a : Accumulators) (names : list string)
  (name : string) :
  fits (heap a) (responseOperationPolicies a) ->
  let a' :=
    foldl (fun a requestHeader =>
             requestFromResponse L a (removeHeaderPolicy K requestHeader))
          a (names ++ [name]) in
  GoSlice.read (heap a') (requestOperationPolicies a')
  = GoSlice.read (heap a) (responseOperationPolicies a)
    ++ [removeHeaderPolicy K name]
  /\ GoSlice.read (heap a') (responseOperationPolicies a')
     = GoSlice.read (heap a) (responseOperationPolicies a).
Proof.
  revert a. induction names as [|n names IH]; intros a Hresp; simpl.
  - by destruct (requestFromResponse_read a (removeHeaderPolicy K name) Hresp)
      as (? & _ & ? & _).
  - destruct (requestFromResponse_read a (removeHeaderPolicy K n) Hresp)
      as (_ & _ & Hread & _ & Hfits).
    destruct (IH _ Hfits) as [Hreq' Hresp']. simpl in *.
    by rewrite Hreq', Hresp', Hread.
Qed.

Lemma foldl_fits {A : Type} (f : Accumulators -> A -> Accumulators)
  (l : list A) (a : Accumulators) :
  (forall a x, fitsBoth a -> fitsBoth (f a x)) ->
  fitsBoth a -> fitsBoth (foldl f a l).
Proof.
  intros Hf. revert a. induction l as [|x l IH]; intros a Ha; [done|].
  simpl. by apply IH, Hf.
Qed.

Lemma processFilter_fits (a : Accumulators) (f : Filter) :
  fitsBoth a -> fitsBoth (processFilter L K a f).
Proof.
  intros Ha. destruct f as [request response|urls|url|]; simpl; [| | |done].
  - repeat apply foldl_fits; try done; intros;
      by (apply appendRequest_fits || apply appendResponse_fits
          || apply requestFromResponse_fits).
  - apply foldl_fits; [|done]. intros. by apply appendRequest_fits.
  - by apply appendRequest_fits.
Qed.

Lemma extractOne_fits (operations : list OperationFromDP)
  (apimEndpoints : list APIMEndpoint) (st : Extraction) (pv : string * string) :
  fitsBoth (accumulators st) ->
  fitsBoth (accumulators (extractOne L K operations apimEndpoints st pv)).
Proof.
  intros Hst. unfold extractOne. destruct pv as [path verb].
  destruct (findMatchingAPKOperation L path verb operations) as [op|]; [|done].
  simpl. apply foldl_fits; [apply processFilter_fits|].
  destruct (OpAIModelBasedRoundRobin op); [|done]. by apply appendRequest_fits.
Qed.

(** Every state of the extraction fits its heap. *)
Lemma extractREST_fits (R : Run) (event : APICPEvent)
  (apimEndpoints : list APIMEndpoint) (paths : list (string * list string)) :
  fitsBoth (accumulators (extractREST L K R event apimEndpoints paths)).
Proof.
  unfold extractREST.
  assert (fitsBoth (accumulators initialExtraction)) as Hinit
    by (repeat split; simpl; lia).
  revert Hinit. generalize initialExtraction.
  induction (schemaPairs R paths) as [|pv l IH]; intros st Hst; [done|].
  simpl. by apply IH, extractOne_fits.
Qed.

End accumulators.


(** C3, evaluated.  The loop over the request headers to remove assigns
    [append(responseOperationPolicies, policy)] to
    [requestOperationPolicies].  On the REST event whose operation
    [POST /orders] removes the request headers [X-A] and [X-B] the request
    list holds one removal policy, for [X-B], not two.  A request header
    added before is dropped, and a response header added before shows up
    in the request list.  And since the request list may come to share the
    array of the response list, a later request policy can land in the
    response list: after five response headers (capacity eight), a
    removal, two more response headers and a mirror, both lists end with
    the mirror policy and the seventh response header is lost. *)
Theorem request_header_removal_overwrites_request_policies :
  map (fun op => Request (OperationPolicies_ op))
      (Fixture.extracted
         [Fixture.postOrder [Fixture.removeFromRequest ["X-A"; "X-B"]]])
  = [[Fixture.removeHeaderOf "X-B"]]
  /\ map (fun op => Request (OperationPolicies_ op))
       (Fixture.extracted
          [Fixture.postOrder [Fixture.addToRequest ["X-Add"];
                              Fixture.addToResponse ["X-Resp"];
                              Fixture.removeFromRequest ["X-A"]]])
     = [[Fixture.addHeaderOf "X-Resp"; Fixture.removeHeaderOf "X-A"]]
  /\ map (fun op => Response (OperationPolicies_ op))
       (Fixture.extracted
          [Fixture.postOrder
             [Fixture.addToResponse ["R1"; "R2"; "R3"; "R4"; "R5"];
              Fixture.removeFromRequest ["X-A"];
              Fixture.addToResponse ["R6"; "R7"];
              APKMirrorRequest ["http://mirror"]]])
     = [[Fixture.addHeaderOf "R1"; Fixture.addHeaderOf "R2";
         Fixture.addHeaderOf "R3"; Fixture.addHeaderOf "R4";
         Fixture.addHeaderOf "R5"; Fixture.addHeaderOf "R6";
         Fixture.mirrorOf "http://mirror"]].
Proof. by vm_compute. Qed.

(** C10, evaluated.  [GET /pets/{petId}] removes the request header [X-A]
    and mirrors its requests to [http://a], [POST /orders] removes [X-B]
    and mirrors to [http://b].  Whichever of the two is matched first, the
    request list of the one matched second is its own removal policy and
    its own mirror policy: the policies of the first are not in it. *)
Theorem later_request_policies_drop_earlier_ones :
  let operations :=
    [Fixture.getPet [Fixture.removeFromRequest ["X-A"];
                     APKMirrorRequest ["http://a"]];
     Fixture.postOrder [Fixture.removeFromRequest ["X-B"];
                        APKMirrorRequest ["http://b"]]] in
  map (fun op => (Target op, Request (OperationPolicies_ op)))
      (Fixture.extracted operations)
  = [("/pets/{petId}",
      [Fixture.removeHeaderOf "X-A"; Fixture.mirrorOf "http://a"]);
     ("/orders",
      [Fixture.removeHeaderOf "X-B"; Fixture.mirrorOf "http://b"])]
  /\ map (fun op => (Target op, Request (OperationPolicies_ op)))
       (Fixture.extractedBackwards operations)
     = [("/orders",
         [Fixture.removeHeaderOf "X-B"; Fixture.mirrorOf "http://b"]);
        ("/pets/{petId}",
         [Fixture.removeHeaderOf "X-A"; Fixture.mirrorOf "http://a"])].
Proof. by vm_compute. Qed.

(** * Further properties *)

(** ** The other maps of the entity mirror *)

Section snapshot_facts.
Context {A K V : Type} `{Countable K}.
Variables (key : A -> K) (val : A -> V).

(** A map filled in list order holds, under each key, the value of the
    last element of the list with that key. *)
Lemma snapshot_lookup (l : list A) (m0 : gmap K V) (k : K) :
  foldl (fun m a => <[key a := val a]> m) m0 l !! k
  = match last (filter (fun a => key a = k) l) with
    | Some a => Some (val a)
    | None => m0 !! k
    end.
Proof.
  induction l as [|a l IH] using rev_ind; [done|].
  rewrite foldl_app, filter_app. simpl.
  destruct (decide (key a = k)) as [Ha|Ha].
  - rewrite filter_cons_True, filter_nil by done.
    rewrite last_snoc. subst k. apply lookup_insert_eq.
  - rewrite filter_cons_False, filter_nil, app_nil_r by done.
    by rewrite lookup_insert_ne.
Qed.

Lemma snapshot_lookup_empty (l : list A) (k : K) :
  foldl (fun m a => <[key a := val a]> m) (∅ : gmap K V) l !! k
  = val <$> last (filter (fun a => key a = k) l).
Proof.
  rewrite snapshot_lookup.
  by destruct (last (filter (fun a => key a = k) l)).
Qed.

Lemma snapshot_lookup_Some (l : list A) (k : K) (v : V) :
  foldl (fun m a => <[key a := val a]> m) (∅ : gmap K V) l !! k = Some v ->
  exists a, a ∈ l /\ key a = k /\ v = val a.
Proof.
  rewrite snapshot_lookup_empty.
  destruct (last (filter (fun a => key a = k) l)) as [a|] eqn:Hlast; [|done].
  intros [= <-]. apply last_Some_elem_of in Hlast.
  apply list_elem_of_filter in Hlast as [? ?]. eauto.
Qed.

Lemma snapshot_lookup_None (l : list A) (k : K) :
  k ∉ key <$> l ->
  foldl (fun m a => <[key a := val a]> m) (∅ : gmap K V) l !! k = None.
Proof.
  intros Hnot. rewrite snapshot_lookup_empty.
  destruct (last (filter (fun a => key a = k) l)) as [a|] eqn:Hlast; [|done].
  apply last_Some_elem_of in Hlast.
  apply list_elem_of_filter in Hlast as [<- Ha].
  exfalso. apply Hnot. by apply list_elem_of_fmap_2.
Qed.

End snapshot_facts.

(** X1.  After [MarshalMultipleSubscriptions] the subscription map is the
    map built from the new snapshot alone.  Under each identifier it holds
    the marshalled form of the last subscription of the snapshot with that
    identifier; every stored subscription is stored under its own
    identifier; nothing is stored under an identifier the snapshot does not
    contain, whatever the map held before; the other three maps are as
    they were. *)
Theorem MarshalMultipleSubscriptions_replaces_map (tenant : string)
  (subscriptionsList : list Eventhub.types.Subscription)
  (st : Eventhub.Mirror) :
  let '(resourceMap, st') :=
    Eventhub.MarshalMultipleSubscriptions tenant subscriptionsList st in
  Eventhub.SubscriptionMap st' = resourceMap
  /\ (forall id,
        Eventhub.SubscriptionMap st' !! id
        = Eventhub.MarshalSubscription tenant
            <$> last (filter (fun sb => Eventhub.types.SubscriptionID sb = id)
                             subscriptionsList))
  /\ (forall id sub,
        Eventhub.SubscriptionMap st' !! id = Some sub ->
        Eventhub.SubscriptionID sub = id)
  /\ (forall id,
        id ∉ Eventhub.types.SubscriptionID <$> subscriptionsList ->
        Eventhub.SubscriptionMap st' !! id = None)
  /\ Eventhub.ApplicationMap st' = Eventhub.ApplicationMap st
  /\ Eventhub.ApplicationKeyMappingMap st'
     = Eventhub.ApplicationKeyMappingMap st
  /\ Eventhub.KeyManagerMap st' = Eventhub.KeyManagerMap st.
Proof.
  simpl. repeat split.
  - intros id.
    apply (snapshot_lookup_empty Eventhub.types.SubscriptionID
             (Eventhub.MarshalSubscription tenant)).
  - intros id sub Hsub.
    apply (snapshot_lookup_Some Eventhub.types.SubscriptionID
             (Eventhub.MarshalSubscription tenant)) in Hsub
      as (sb & _ & <- & ->).
    unfold Eventhub.MarshalSubscription. simpl.
    by destruct (String.eqb _ _).
  - intros id.
    apply (snapshot_lookup_None Eventhub.types.SubscriptionID
             (Eventhub.MarshalSubscription tenant)).
Qed.

(** X2.  After [MarshalMultipleApplicationKeyMappings] the key-mapping map
    is the map built from the new snapshot alone.  Under each reference it
    holds the last key mapping of the snapshot with that reference, copied
    field by field; every stored key mapping is stored under
    [ConsumerKey:KeyManager] of its own fields; nothing is stored under a
    reference the snapshot does not contain; the other three maps are as
    they were. *)
Theorem MarshalMultipleApplicationKeyMappings_replaces_map
  (keymappingList : list Eventhub.types.ApplicationKeyMapping)
  (st : Eventhub.Mirror) :
  let '(resourceMap, st') :=
    Eventhub.MarshalMultipleApplicationKeyMappings keymappingList st in
  Eventhub.ApplicationKeyMappingMap st' = resourceMap
  /\ (forall ref,
        Eventhub.ApplicationKeyMappingMap st' !! ref
        = Eventhub.marshalKeyMapping
            <$> last (filter (fun keyMapping =>
                                Eventhub.GetApplicationKeyMappingReference
                                  keyMapping = ref)
                             keymappingList))
  /\ (forall ref keyMapping,
        Eventhub.ApplicationKeyMappingMap st' !! ref = Some keyMapping ->
        ref = Eventhub.ConsumerKey keyMapping +:+ ":"
              +:+ Eventhub.KeyManager_ keyMapping)
  /\ (forall ref,
        ref ∉ Eventhub.GetApplicationKeyMappingReference <$> keymappingList ->
        Eventhub.ApplicationKeyMappingMap st' !! ref = None)
  /\ Eventhub.SubscriptionMap st' = Eventhub.SubscriptionMap st
  /\ Eventhub.ApplicationMap st' = Eventhub.ApplicationMap st
  /\ Eventhub.KeyManagerMap st' = Eventhub.KeyManagerMap st.
Proof.
  simpl. repeat split.
  - intros ref.
    apply (snapshot_lookup_empty Eventhub.GetApplicationKeyMappingReference
             Eventhub.marshalKeyMapping).
  - intros ref keyMapping Hk.
    by apply (snapshot_lookup_Some Eventhub.GetApplicationKeyMappingReference
                Eventhub.marshalKeyMapping) in Hk as (k & _ & <- & ->).
  - intros ref.
    apply (snapshot_lookup_None Eventhub.GetApplicationKeyMappingReference
             Eventhub.marshalKeyMapping).
Qed.

(** X3.  After [MarshalKeyManagers] the key-manager map is the map built
    from the new snapshot alone.  Every stored key manager is stored under
    its own name, carries the name and the enabled flag of a key manager of
    the snapshot, and has an empty issuer and an empty certificate; nothing
    is stored under a name the snapshot does not contain; the other three
    maps are as they were. *)
Theorem MarshalKeyManagers_replaces_map
  (keyManagersList : list Eventhub.types.KeyManager) (st : Eventhub.Mirror) :
  let '(resourceMap, st') := Eventhub.MarshalKeyManagers keyManagersList st in
  Eventhub.KeyManagerMap st' = resourceMap
  /\ (forall name,
        Eventhub.KeyManagerMap st' !! name
        = Eventhub.MarshalKeyManager
            <$> last (filter (fun keyManager =>
                                Eventhub.types.KMName keyManager = name)
                             keyManagersList))
  /\ (forall name keyManager,
        Eventhub.KeyManagerMap st' !! name = Some keyManager ->
        Eventhub.KMName keyManager = name
        /\ Eventhub.Issuer keyManager = ""
        /\ Eventhub.Certificate keyManager = ""
        /\ exists keyManagerInternal,
             keyManagerInternal ∈ keyManagersList
             /\ Eventhub.types.KMName keyManagerInternal = name
             /\ Eventhub.types.KMEnabled keyManagerInternal
                = Eventhub.KMEnabled keyManager)
  /\ (forall name,
        name ∉ Eventhub.types.KMName <$> keyManagersList ->
        Eventhub.KeyManagerMap st' !! name = None)
  /\ Eventhub.SubscriptionMap st' = Eventhub.SubscriptionMap st
  /\ Eventhub.ApplicationMap st' = Eventhub.ApplicationMap st
  /\ Eventhub.ApplicationKeyMappingMap st'
     = Eventhub.ApplicationKeyMappingMap st.
Proof.
  simpl. split; [done|]. split; [|split; [|split; [|done]]].
  - intros name.
    apply (snapshot_lookup_empty Eventhub.types.KMName
             Eventhub.MarshalKeyManager).
  - intros name keyManager Hk.
    apply (snapshot_lookup_Some Eventhub.types.KMName
             Eventhub.MarshalKeyManager) in Hk as (k & Hin & <- & ->).
    repeat split. by exists k.
  - intros name.
    apply (snapshot_lookup_None Eventhub.types.KMName
             Eventhub.MarshalKeyManager).
Qed.

(** X4.  When the connected tenant domain is not empty, no application and
    no subscription of the mirror has an empty tenant domain after its
    snapshot has been taken in.  What is stored under a UUID, or under a
    subscription identifier, is the last entity of the snapshot with that
    UUID or identifier: it keeps the tenant domain that entity came with,
    and has the connected tenant domain when that entity came with
    none. *)
Theorem mirror_tenant_domains_filled (tenant : string)
  (appList : list Eventhub.types.Application)
  (subscriptionsList : list Eventhub.types.Subscription)
  (st : Eventhub.Mirror) :
  tenant <> "" ->
  let st1 := (Eventhub.MarshalMultipleApplications tenant appList st).2 in
  let st2 :=
    (Eventhub.MarshalMultipleSubscriptions tenant subscriptionsList st1).2 in
  (forall uuid app,
     Eventhub.ApplicationMap st2 !! uuid = Some app ->
     Eventhub.UUID app = uuid
     /\ Eventhub.TenantDomain app <> ""
     /\ exists appInternal,
          Eventhub.latestWithUUID uuid appList = Some appInternal
          /\ Eventhub.types.UUID appInternal = uuid
          /\ (Eventhub.types.TenantDomain appInternal <> "" ->
              Eventhub.TenantDomain app
              = Eventhub.types.TenantDomain appInternal)
          /\ (Eventhub.types.TenantDomain appInternal = "" ->
              Eventhub.TenantDomain app = tenant))
  /\ (forall id sub,
        Eventhub.SubscriptionMap st2 !! id = Some sub ->
        Eventhub.SubscriptionID sub = id
        /\ Eventhub.SubTenantDomain sub <> ""
        /\ exists subscriptionInternal,
             last (filter (fun sb => Eventhub.types.SubscriptionID sb = id)
                          subscriptionsList)
             = Some subscriptionInternal
             /\ Eventhub.types.SubscriptionID subscriptionInternal = id
             /\ (Eventhub.types.SubTenantDomain subscriptionInternal <> "" ->
                 Eventhub.SubTenantDomain sub
                 = Eventhub.types.SubTenantDomain subscriptionInternal)
             /\ (Eventhub.types.SubTenantDomain subscriptionInternal = "" ->
                 Eventhub.SubTenantDomain sub = tenant)).
Proof.
  intros Htenant. simpl. split.
  - intros uuid app.
    rewrite (snapshot_lookup_empty Eventhub.types.UUID
               (Eventhub.MarshalApplication tenant)).
    fold (Eventhub.latestWithUUID uuid appList).
    destruct (Eventhub.latestWithUUID uuid appList) as [a|] eqn:Hlast; [|done].
    intros [= <-].
    assert (Eventhub.types.UUID a = uuid) as Huuid.
    { apply last_Some_elem_of in Hlast.
      by apply list_elem_of_filter in Hlast as [? _]. }
    split; [|split; [|exists a; split; [done|split; [done|]]]].
    + unfold Eventhub.MarshalApplication. simpl. by destruct (String.eqb _ _).
    + rewrite MarshalApplication_TenantDomain.
      by destruct (String.eqb_spec (Eventhub.types.TenantDomain a) "").
    + rewrite MarshalApplication_TenantDomain.
      by destruct (String.eqb_spec (Eventhub.types.TenantDomain a) "").
  - intros id sub.
    rewrite (snapshot_lookup_empty Eventhub.types.SubscriptionID
               (Eventhub.MarshalSubscription tenant)).
    destruct (last (filter (fun sb => Eventhub.types.SubscriptionID sb = id)
                           subscriptionsList)) as [s|] eqn:Hlast; [|done].
    intros [= <-].
    assert (Eventhub.types.SubscriptionID s = id) as Hid.
    { apply last_Some_elem_of in Hlast.
      by apply list_elem_of_filter in Hlast as [? _]. }
    split; [|split; [|exists s; split; [done|split; [done|]]]].
    + unfold Eventhub.MarshalSubscription. simpl. by destruct (String.eqb _ _).
    + rewrite MarshalSubscription_TenantDomain.
      by destruct (String.eqb_spec (Eventhub.types.SubTenantDomain s) "").
    + rewrite MarshalSubscription_TenantDomain.
      by destruct (String.eqb_spec (Eventhub.types.SubTenantDomain s) "").
Qed.

Lemma mirror_tenant_domains_witness :
  "carbon.super" <> ""
  /\ Eventhub.SubTenantDomain
       (Eventhub.MarshalSubscription "carbon.super" Fixture.subscription)
     <> ""
  /\ Eventhub.TenantDomain
       (Eventhub.MarshalApplication "carbon.super" Fixture.application)
     <> "".
Proof.
  assert ("carbon.super" <> "") as Htenant by discriminate.
  split; [exact Htenant|].
  destruct (mirror_tenant_domains_filled "carbon.super"
              [Fixture.application] [Fixture.subscription]
              Fixture.emptyMirror Htenant) as [Happ Hsub].
  split.
  - exact (proj1 (proj2 (Hsub 7%Z _ eq_refl))).
  - exact (proj1 (proj2 (Happ "app-1" _ eq_refl))).
Defined.

Lemma app_colon_inj (a a' b b' : string) :
  freeOf ":" a -> freeOf ":" a' ->
  a +:+ ":" +:+ b = a' +:+ ":" +:+ b' -> a = a' /\ b = b'.
Proof.
  revert a'. induction a as [|c a IH]; intros [|c' a'] Ha Ha' Heq.
  - injection Heq as Heq. change (b = b') in Heq. by subst.
  - injection Heq as Hc _. destruct Ha' as [Hc' _]. by subst.
  - injection Heq as Hc _. destruct Ha as [Hc' _]. by subst.
  - injection Heq as -> Heq. destruct Ha as [_ Ha], Ha' as [_ Ha'].
    by destruct (IH a' Ha Ha' Heq) as [-> ->].
Qed.

(** X5.  Among key mappings whose consumer keys have no colon, the
    reference [ConsumerKey:KeyManager] names one pair of consumer key and
    key manager: two such key mappings have the same reference exactly when
    they agree on both. *)
Theorem GetApplicationKeyMappingReference_injective
  (keyMapping keyMapping' : Eventhub.types.ApplicationKeyMapping) :
  freeOf ":" (Eventhub.types.ConsumerKey keyMapping) ->
  freeOf ":" (Eventhub.types.ConsumerKey keyMapping') ->
  Eventhub.GetApplicationKeyMappingReference keyMapping
  = Eventhub.GetApplicationKeyMappingReference keyMapping'
  <-> Eventhub.types.ConsumerKey keyMapping
      = Eventhub.types.ConsumerKey keyMapping'
      /\ Eventhub.types.KeyManager_ keyMapping
         = Eventhub.types.KeyManager_ keyMapping'.
Proof.
  intros Hfree Hfree'. unfold Eventhub.GetApplicationKeyMappingReference.
  split; [by apply app_colon_inj|]. by intros [-> ->].
Qed.

Lemma GetApplicationKeyMappingReference_witness :
  freeOf ":" (Eventhub.types.ConsumerKey Fixture.keyMapping)
  /\ (Eventhub.GetApplicationKeyMappingReference Fixture.keyMapping
      = Eventhub.GetApplicationKeyMappingReference Fixture.keyMapping
      <-> Eventhub.types.ConsumerKey Fixture.keyMapping
          = Eventhub.types.ConsumerKey Fixture.keyMapping
          /\ Eventhub.types.KeyManager_ Fixture.keyMapping
             = Eventhub.types.KeyManager_ Fixture.keyMapping).
Proof.
  assert (freeOf ":" (Eventhub.types.ConsumerKey Fixture.keyMapping)) as Hfree
    by (simpl; by repeat split).
  split; [exact Hfree|].
  exact (GetApplicationKeyMappingReference_injective
           Fixture.keyMapping Fixture.keyMapping Hfree Hfree).
Defined.

(** ** Placeholders and the normalised path *)

Lemma matchPlaceholder_Some (s : string) (n : nat) :
  matchPlaceholder s = Some n ->
  exists name rest,
    s = "{" +:+ name +:+ "}" +:+ rest /\ name <> "" /\ freeOf "}" name.
Proof.
  destruct s as [|c s]; [done|]. simpl.
  destruct (Ascii.eqb_spec c "{") as [->|_]; [|done].
  destruct (bytesBeforeClose s) as [[|m]|] eqn:Hclose; try done. intros _.
  apply bytesBeforeClose_Some in Hclose as (name & rest & -> & Hlen & Hfree).
  exists name, rest. split; [done|]. split; [|done]. by destruct name.
Qed.

Lemma matchPlaceholder_placeholder (name rest : string) :
  name <> "" -> freeOf "}" name ->
  matchPlaceholder ("{" +:+ name +:+ "}" +:+ rest)
  = Some (String.length name + 2).
Proof.
  intros Hne Hfree.
  change ("{" +:+ name +:+ "}" +:+ rest)
    with (String "{" (name +:+ String "}" rest)).
  simpl. rewrite bytesBeforeClose_app by done. by destruct name.
Qed.

Lemma freeOf_drop (c : ascii) (k : nat) (s : string) :
  freeOf c s -> freeOf c (GoStrings.drop k s).
Proof.
  revert s. induction k as [|k IH]; intros [|c' s]; try done.
  intros [_ H]. simpl. by apply IH.
Qed.

(** A placeholder occurs in [s] when the pattern matches at one of its
    bytes. *)
Lemma hasPlaceholder_match (s : string) :
  hasPlaceholder s
  <-> exists k, matchPlaceholder (GoStrings.drop k s) <> None.
Proof.
  split.
  - intros (pre & name & post & Hne & Hfree & ->).
    exists (String.length pre).
    by rewrite drop_app_length, matchPlaceholder_placeholder.
  - intros [k Hk].
    destruct (matchPlaceholder (GoStrings.drop k s)) as [n|] eqn:Hmatch; [|done].
    apply matchPlaceholder_Some in Hmatch as (name & rest & Heq & Hne & Hfree).
    exists (GoStrings.take k s), name, rest. split; [done|]. split; [done|].
    by rewrite <- Heq, take_drop_id.
Qed.

(** Nowhere in a normalised path does the pattern match. *)
Lemma processOpenAPIPath_matchless (s : string) (k : nat) :
  matchPlaceholder (GoStrings.drop k (processOpenAPIPath s)) = None.
Proof.
  remember (String.length s) as n eqn:Hn.
  revert s Hn k. induction (lt_wf n) as [n _ IH]. intros s -> k.
  destruct s as [|c s]; [by destruct k|].
  destruct (Ascii.eqb_spec c "{") as [->|Hc].
  - destruct (bytesBeforeClose s) as [[|m]|] eqn:Hclose.
    + apply bytesBeforeClose_Some in Hclose as (name & rest & -> & Hlen & _).
      destruct name; [|done]. clear Hlen.
      change ("" +:+ String "}" rest) with (String "}" rest).
      rewrite processOpenAPIPath_empty_braces.
      destruct k as [|[|k]]; [done..|]. simpl.
      eapply IH; [|done]. simpl. lia.
    + apply bytesBeforeClose_Some in Hclose as (name & rest & -> & Hlen & Hfree).
      change (String "{" (name +:+ String "}" rest))
        with ("{" +:+ name +:+ "}" +:+ rest).
      rewrite processOpenAPIPath_placeholder by (done || by destruct name).
      do 8 (destruct k as [|k]; [done|]).
      change (GoStrings.drop (S (S (S (S (S (S (S (S k))))))))
                ("hardcode" +:+ processOpenAPIPath rest))
        with (GoStrings.drop k (processOpenAPIPath rest)).
      eapply IH; [|done]. simpl. rewrite str_length_app. simpl. lia.
    + apply bytesBeforeClose_None in Hclose.
      rewrite (processOpenAPIPath_unclosed (String "{" s)) by done.
      assert (freeOf "}" (GoStrings.drop k (String "{" s))) as Hfree
        by (by apply freeOf_drop).
      destruct (GoStrings.drop k (String "{" s)) as [|c t]; [done|].
      simpl. destruct (Ascii.eqb c "{"); [|done].
      destruct Hfree as [_ Hfree]. apply bytesBeforeClose_None in Hfree.
      by rewrite Hfree.
  - rewrite processOpenAPIPath_other by done.
    destruct k as [|k].
    + simpl. by destruct (Ascii.eqb_spec c "{").
    + simpl. eapply IH; [|done]. simpl. lia.
Qed.

(** A path in which the pattern matches nowhere is left as it is. *)
Lemma processOpenAPIPath_fixed (s : string) :
  (forall k, matchPlaceholder (GoStrings.drop k s) = None) ->
  processOpenAPIPath s = s.
Proof.
  unfold processOpenAPIPath. induction s as [|c s IH]; [done|]. intros Hno.
  pose proof (Hno 0) as H0. simpl in H0. simpl.
  destruct (Ascii.eqb_spec c "{") as [->|_].
  - destruct (bytesBeforeClose s) as [[|m]|]; try done;
      (f_equal; apply IH; intros k; apply (Hno (S k))).
  - f_equal. apply IH. intros k. apply (Hno (S k)).
Qed.

(** X6.  A normalised path holds no placeholder: whatever the schema path,
    no [{name}] with a name of one byte or more is left in what
    [processOpenAPIPath] returns. *)
Theorem processOpenAPIPath_leaves_no_placeholder (path : string) :
  ~ hasPlaceholder (processOpenAPIPath path).
Proof.
  intros [k Hk]%hasPlaceholder_match. apply Hk, processOpenAPIPath_matchless.
Qed.

(** X7.  [processOpenAPIPath] changes a path exactly when a placeholder
    occurs in it.  A path without braces, a path with [{}] and a path whose
    brace is never closed are returned as they are. *)
Theorem processOpenAPIPath_changes_placeholders_only (path : string) :
  (processOpenAPIPath path = path <-> ~ hasPlaceholder path)
  /\ (freeOf "{" path -> processOpenAPIPath path = path)
  /\ (freeOf "}" path -> processOpenAPIPath path = path)
  /\ (forall pre post,
        freeOf "{" pre -> freeOf "{" post ->
        processOpenAPIPath (pre +:+ "{}" +:+ post) = pre +:+ "{}" +:+ post).
Proof.
  split; [|split; [|split]].
  - split.
    + intros Heq [k Hk]%hasPlaceholder_match. apply Hk. rewrite <- Heq.
      apply processOpenAPIPath_matchless.
    + intros Hno. apply processOpenAPIPath_fixed. intros k.
      destruct (matchPlaceholder (GoStrings.drop k path)) eqn:Hmatch; [|done].
      exfalso. apply Hno, hasPlaceholder_match. exists k. by rewrite Hmatch.
  - intros Hfree. rewrite <- (str_app_empty_r path) at 1.
    by rewrite processOpenAPIPath_literal, str_app_empty_r.
  - apply processOpenAPIPath_unclosed.
  - intros pre post Hpre Hpost. rewrite processOpenAPIPath_literal by done.
    change ("{}" +:+ post) with (String "{" (String "}" post)).
    rewrite processOpenAPIPath_empty_braces. do 3 f_equal.
    rewrite <- (str_app_empty_r post) at 1.
    by rewrite processOpenAPIPath_literal, str_app_empty_r.
Qed.

(** ** The version suffix *)

Lemma HasSuffix_app_r (s a b : string) :
  GoStrings.HasSuffix s (a +:+ b) = true -> GoStrings.HasSuffix s b = true.
Proof.
  intros [p ->]%HasSuffix_inv. rewrite <- str_app_assoc. apply HasSuffix_app.
Qed.

(** X8.  The test of [removeVersionSuffix] decides nothing: the function
    returns [strings.TrimSuffix(str1, "/"+str2)] on every input.  So the
    result is [str1] itself, or [str1] without the bytes of ["/"+str2] at
    its end; a base path that ends with the version but has no slash
    before it is returned whole, and only one suffix is removed. *)
Theorem removeVersionSuffix_is_TrimSuffix (str1 str2 : string) :
  removeVersionSuffix str1 str2 = GoStrings.TrimSuffix str1 ("/" +:+ str2)
  /\ (removeVersionSuffix str1 str2 = str1
      \/ str1 = removeVersionSuffix str1 str2 +:+ "/" +:+ str2)
  /\ (GoStrings.HasSuffix str1 ("/" +:+ str2) = false ->
      removeVersionSuffix str1 str2 = str1)
  /\ removeVersionSuffix ((str1 +:+ "/" +:+ str2) +:+ "/" +:+ str2) str2
     = str1 +:+ "/" +:+ str2.
Proof.
  assert (removeVersionSuffix str1 str2
          = GoStrings.TrimSuffix str1 ("/" +:+ str2)) as Heq.
  { unfold removeVersionSuffix.
    destruct (GoStrings.HasSuffix str1 str2) eqn:Hsuffix; [done|].
    symmetry. apply TrimSuffix_not_suffix.
    destruct (GoStrings.HasSuffix str1 ("/" +:+ str2)) eqn:Hslash; [|done].
    apply HasSuffix_app_r in Hslash. congruence. }
  split; [done|]. split; [|split].
  - rewrite Heq.
    destruct (GoStrings.HasSuffix str1 ("/" +:+ str2)) eqn:Hslash.
    + right. apply HasSuffix_inv in Hslash as [p ->].
      by rewrite TrimSuffix_app.
    + left. by apply TrimSuffix_not_suffix.
  - intros Hslash. rewrite Heq. by apply TrimSuffix_not_suffix.
  - unfold removeVersionSuffix.
    replace ((str1 +:+ "/" +:+ str2) +:+ "/" +:+ str2)
      with (((str1 +:+ "/" +:+ str2) +:+ "/") +:+ str2)
      by apply str_app_assoc.
    rewrite HasSuffix_app, str_app_assoc. apply TrimSuffix_app.
Qed.

(** ** What the extraction emits *)

(** X9.  [findMatchingAPKOperation] never returns an operation whose path
    fails to compile as a regular expression, and never one it was not
    given: what it returns is one of the declared operations, its verb
    equals the schema verb under [strings.EqualFold], and its path compiled
    and matched the normalised schema path.  When it returns nothing, every
    declared operation fails one of the two tests. *)
Theorem findMatchingAPKOperation_sound (L : Lib) (path verb : string)
  (operations : list OperationFromDP) :
  match findMatchingAPKOperation L path verb operations with
  | Some operationFromDP =>
      operationFromDP ∈ operations
      /\ strings_EqualFold L (Verb operationFromDP) verb = true
      /\ regexp_MatchString L (Path operationFromDP) (processOpenAPIPath path)
         = Some true
  | None =>
      forall operationFromDP,
        operationFromDP ∈ operations ->
        strings_EqualFold L (Verb operationFromDP) verb = false
        \/ regexp_MatchString L (Path operationFromDP)
             (processOpenAPIPath path) <> Some true
  end.
Proof.
  induction operations as [|op operations IH]; simpl.
  - intros op Hin. by apply not_elem_of_nil in Hin.
  - destruct (strings_EqualFold L (Verb op) verb) eqn:Hverb.
    + unfold matchRegex at 1.
      destruct (regexp_MatchString L (Path op) (processOpenAPIPath path))
        as [[|]|] eqn:Hmatch.
      * split; [by left|done].
      * rewrite findMatchingAPKOperation_normalised.
        destruct (findMatchingAPKOperation L path verb operations) as [op'|].
        -- destruct IH as (Hin & ? & ?). split; [by right|done].
        -- intros op' [->|Hin]%elem_of_cons; [right; congruence|by apply IH].
      * rewrite findMatchingAPKOperation_normalised.
        destruct (findMatchingAPKOperation L path verb operations) as [op'|].
        -- destruct IH as (Hin & ? & ?). split; [by right|done].
        -- intros op' [->|Hin]%elem_of_cons; [right; congruence|by apply IH].
    + destruct (findMatchingAPKOperation L path verb operations) as [op'|].
      * destruct IH as (Hin & ? & ?). split; [by right|done].
      * intros op' [->|Hin]%elem_of_cons; [by left|by apply IH].
Qed.

Lemma omap_length_le {A B : Type} (f : A -> option B) (l : list A) :
  length (omap f l) <= length l.
Proof.
  induction l as [|x l IH]; [done|]. simpl.
  change (list_omap A B f l) with (omap f l). destruct (f x); simpl; lia.
Qed.

Section extraction_facts.
Variable L : Lib.
Variable K : Consts.
Variable operations : list OperationFromDP.
Variable apimEndpoints : list APIMEndpoint.

Lemma extractOne_apiOperations (pairs : list (string * string))
  (st : Extraction) :
  map (fun op => (Target op, OpVerb op, OpScopes op))
      (apiOperations (foldl (extractOne L K operations apimEndpoints) st pairs))
  = map (fun op => (Target op, OpVerb op, OpScopes op)) (apiOperations st)
    ++ map (fun m => (m.1.1, m.1.2, Scopes m.2))
         (matchedOperations L operations pairs).
Proof.
  revert st. induction pairs as [|[path verb] pairs IH]; intros st; simpl.
  { by rewrite app_nil_r. }
  rewrite IH. unfold extractOne.
  destruct (findMatchingAPKOperation L path verb operations) as [op|]; [|done].
  simpl. by rewrite map_app, <- app_assoc.
Qed.

Lemma extractOne_constants (pairs : list (string * string)) (st : Extraction) :
  let fixed (op : APIOperation PolicySlice) :=
    ID op = "" /\ AuthType op = "Application & Application User"
    /\ ThrottlingPolicy op = "Unlimited" /\ UsedProductIDs op = []
    /\ Fault (OperationPolicies_ op) = [] in
  Forall fixed (apiOperations st) ->
  Forall fixed
    (apiOperations (foldl (extractOne L K operations apimEndpoints) st pairs)).
Proof.
  intros fixed. revert st.
  induction pairs as [|[path verb] pairs IH]; intros st Hst; [done|].
  simpl. apply IH. unfold extractOne.
  destruct (findMatchingAPKOperation L path verb operations) as [op|]; [|done].
  simpl. apply Forall_app. split; [done|]. by apply Forall_singleton.
Qed.

(** [scopewrappers[scope] = ...] on a map whose keys are distinct. *)
Lemma setScope_keys (scope : string) (w : ScopeWrapper)
  (m : list (string * ScopeWrapper)) :
  map fst (setScope scope w m)
  = if decide (scope ∈ map fst m) then map fst m else map fst m ++ [scope].
Proof.
  induction m as [|[k v] m IH]; [done|]. cbn [setScope map fst].
  destruct (String.eqb_spec k scope) as [->|Hne]; cbn [map fst].
  - rewrite decide_True; [done|]. apply elem_of_cons. by left.
  - rewrite IH. destruct (decide (scope ∈ map fst m)) as [Hin|Hin].
    + rewrite decide_True; [done|]. apply elem_of_cons. by right.
    + rewrite decide_False; [done|].
      intros [?|?]%elem_of_cons; congruence.
Qed.

Lemma setScope_values (scope : string) (m : list (string * ScopeWrapper)) :
  Forall (fun kv => kv.2 = scopeWrapperOf kv.1) m ->
  Forall (fun kv => kv.2 = scopeWrapperOf kv.1)
         (setScope scope (scopeWrapperOf scope) m).
Proof.
  induction 1 as [|[k v] m Hkv Hm IH]; simpl.
  - by apply Forall_singleton.
  - destruct (String.eqb_spec k scope) as [->|Hne]; by constructor.
Qed.

Lemma setScope_fold (scopes : list string) (m : list (string * ScopeWrapper)) :
  let m' := foldl (fun m scope => setScope scope (scopeWrapperOf scope) m)
                  m scopes in
  (NoDup (map fst m) -> NoDup (map fst m'))
  /\ (Forall (fun kv => kv.2 = scopeWrapperOf kv.1) m ->
      Forall (fun kv => kv.2 = scopeWrapperOf kv.1) m')
  /\ (forall k, k ∈ map fst m' <-> k ∈ map fst m \/ k ∈ scopes).
Proof.
  revert m. induction scopes as [|scope scopes IH]; intros m; simpl.
  { split; [done|]. split; [done|]. intros k. split; [by left|].
    intros [?|Hk]; [done|]. by apply not_elem_of_nil in Hk. }
  destruct (IH (setScope scope (scopeWrapperOf scope) m))
    as (Hnodup & Hvalues & Hkeys).
  split; [|split].
  - intros Hm. apply Hnodup. rewrite setScope_keys. case_decide; [done|].
    apply NoDup_app. split; [done|]. split; [|apply NoDup_singleton].
    intros k Hk ->%list_elem_of_singleton. done.
  - intros Hm. by apply Hvalues, setScope_values.
  - intros k. rewrite Hkeys, setScope_keys, elem_of_cons.
    destruct (decide (scope ∈ map fst m)) as [Hin|Hin].
    + split; [tauto|]. intros [?|[->|?]]; auto.
    + rewrite elem_of_app, list_elem_of_singleton. tauto.
Qed.

Lemma extractOne_scopewrappers (pairs : list (string * string))
  (st : Extraction) :
  let st' := foldl (extractOne L K operations apimEndpoints) st pairs in
  (NoDup (map fst (scopewrappers st)) -> NoDup (map fst (scopewrappers st')))
  /\ (Forall (fun kv => kv.2 = scopeWrapperOf kv.1) (scopewrappers st) ->
      Forall (fun kv => kv.2 = scopeWrapperOf kv.1) (scopewrappers st'))
  /\ (forall k,
        k ∈ map fst (scopewrappers st')
        <-> k ∈ map fst (scopewrappers st)
            \/ exists m, m ∈ matchedOperations L operations pairs
                         /\ k ∈ Scopes m.2).
Proof.
  revert st. induction pairs as [|[path verb] pairs IH]; intros st; simpl.
  { split; [done|]. split; [done|]. intros k. split; [by left|].
    intros [?|(m & Hm & _)]; [done|]. by apply not_elem_of_nil in Hm. }
  destruct (IH (extractOne L K operations apimEndpoints st (path, verb)))
    as (Hnodup & Hvalues & Hkeys).
  unfold extractOne in *.
  destruct (findMatchingAPKOperation L path verb operations) as [op|]; simpl.
  - simpl in *.
    destruct (setScope_fold (Scopes op) (scopewrappers st))
      as (Hnodup1 & Hvalues1 & Hkeys1).
    split; [auto|]. split; [auto|].
    intros k. rewrite Hkeys, Hkeys1. split.
    + intros [[?|?]|(m & Hm & Hk)]; [by left| |].
      * right. exists (path, verb, op). split; [by left|done].
      * right. exists m. split; [by right|done].
    + intros [?|(m & [->|Hm]%elem_of_cons & Hk)]; [by left; left| |].
      * by left; right.
      * right. by exists m.
  - split; [done|]. split; [done|]. apply Hkeys.
Qed.

End extraction_facts.

(** X10.  For a REST event whose schema parses, [extractOperations] emits
    one operation for each (path, verb) pair of the schema that finds a
    declared operation, in the order the pairs are visited, and none for a
    pair that finds none.  The emitted operation carries the path and the
    verb as the schema writes them, not those of the declared operation,
    and the scopes of the declared operation; its id is empty, its
    authentication type and throttling policy are fixed. *)
Theorem extractOperations_emits_matched_pairs (L : Lib) (K : Consts)
  (R : Run) (event : APICPEvent) (apimEndpoints : list APIMEndpoint)
  (paths : list (string * list string)) :
  strings_ToUpper L (APIType (API_ event)) = "REST" ->
  yaml_Unmarshal_OpenAPIPaths L (Definition_ (API_ event)) = Ok paths ->
  let matched :=
    matchedOperations L (Operations (API_ event)) (schemaPairs R paths) in
  let '(apiOperations, _, err) :=
    extractOperations L K R event apimEndpoints in
  err = None
  /\ map (fun op => (Target op, OpVerb op, OpScopes op)) apiOperations
     = map (fun m => (m.1.1, m.1.2, Scopes m.2)) matched
  /\ length apiOperations <= length (schemaPairs R paths)
  /\ Forall (fun op =>
               ID op = "" /\ AuthType op = "Application & Application User"
               /\ ThrottlingPolicy op = "Unlimited" /\ UsedProductIDs op = []
               /\ Fault (OperationPolicies_ op) = [])
            apiOperations.
Proof.
  intros Htype Hpaths matched. unfold extractOperations.
  rewrite Htype, Hpaths. simpl. split; [done|].
  assert (map (fun op => (Target op, OpVerb op, OpScopes op))
              (map (readOperation
                      (heap (accumulators
                               (extractREST L K R event apimEndpoints paths))))
                   (apiOperations
                      (extractREST L K R event apimEndpoints paths)))
          = map (fun m => (m.1.1, m.1.2, Scopes m.2)) matched) as Hmap.
  { rewrite map_map. unfold extractREST. subst matched.
    pose proof (extractOne_apiOperations L K (Operations (API_ event))
                  apimEndpoints (schemaPairs R paths) initialExtraction) as H.
    simpl in H. by rewrite <- H. }
  split; [done|]. split.
  - apply (f_equal length) in Hmap. rewrite !length_map in Hmap.
    rewrite length_map, Hmap. unfold matched, matchedOperations.
    apply omap_length_le.
  - apply Forall_map.
    pose proof (extractOne_constants L K (Operations (API_ event))
                  apimEndpoints (schemaPairs R paths) initialExtraction) as H.
    simpl in H. by apply H.
Qed.

Lemma extractOperations_matched_witness :
  let event := Fixture.createEvent [Fixture.postOrder []] [] [] in
  strings_ToUpper Fixture.lib (APIType (API_ event)) = "REST"
  /\ yaml_Unmarshal_OpenAPIPaths Fixture.lib (Definition_ (API_ event))
     = Ok Fixture.petstorePaths
  /\ map (fun op => (Target op, OpVerb op, OpScopes op))
       (extractOperations Fixture.lib Fixture.consts (Fixture.run "id")
          event []).1.1
     = [("/orders", "post", [])].
Proof.
  intros event. split; [reflexivity|]. split; [reflexivity|].
  pose proof (extractOperations_emits_matched_pairs
                Fixture.lib Fixture.consts (Fixture.run "id") event []
                Fixture.petstorePaths eq_refl eq_refl) as H.
  cbv zeta in H.
  destruct (extractOperations Fixture.lib Fixture.consts (Fixture.run "id")
              event []) as [[ops scopes] err].
  simpl in H. destruct H as (_ & H & _). simpl. rewrite H. reflexivity.
Defined.

(** X11.  The scopes [extractOperations] returns for a REST event whose
    schema parses are the scopes of the matched operations and no others:
    no scope name is returned twice, however many operations carry it, a
    scope of an operation that no pair of the schema matched is not
    returned, and each scope is returned with its name as display name and
    description, without bindings and not shared. *)
Theorem extractOperations_scopes_of_matched (L : Lib) (K : Consts)
  (R : Run) (event : APICPEvent) (apimEndpoints : list APIMEndpoint)
  (paths : list (string * list string)) :
  strings_ToUpper L (APIType (API_ event)) = "REST" ->
  yaml_Unmarshal_OpenAPIPaths L (Definition_ (API_ event)) = Ok paths ->
  (forall (A : Type) (l : list A), range R A l ≡ₚ l) ->
  let matched :=
    matchedOperations L (Operations (API_ event)) (schemaPairs R paths) in
  let scopes := (extractOperations L K R event apimEndpoints).1.2 in
  NoDup (map (fun w => ScopeName (Scope_ w)) scopes)
  /\ (forall w,
        w ∈ scopes
        <-> exists m, m ∈ matched
                      /\ ScopeName (Scope_ w) ∈ Scopes m.2
                      /\ w = scopeWrapperOf (ScopeName (Scope_ w))).
Proof.
  intros Htype Hpaths Hrange matched scopes. subst scopes.
  unfold extractOperations. rewrite Htype, Hpaths. simpl.
  unfold extractREST.
  destruct (extractOne_scopewrappers L K (Operations (API_ event))
              apimEndpoints (schemaPairs R paths) initialExtraction)
    as (Hnodup & Hvalues & Hkeys).
  set (st := foldl _ initialExtraction _) in *. simpl in *.
  specialize (Hnodup (NoDup_nil_2)). specialize (Hvalues (Forall_nil_2 _)).
  assert (map (fun w => ScopeName (Scope_ w)) (map snd (scopewrappers st))
          = map fst (scopewrappers st)) as Hnames.
  { rewrite map_map. apply map_ext_Forall.
    eapply Forall_impl; [exact Hvalues|]. by intros [k w]; simpl; intros ->. }
  split.
  - rewrite (Hrange _ (scopewrappers st)). by rewrite Hnames.
  - intros w. rewrite (Hrange _ (scopewrappers st)). split.
    + intros ([k w'] & -> & Hin)%list_elem_of_fmap.
      pose proof (proj1 (Forall_forall _ _) Hvalues _ Hin) as Hw.
      simpl in *. subst w'. simpl.
      destruct (proj1 (Hkeys k)) as [Hk|(m & Hm & Hk)].
      * apply list_elem_of_fmap. by exists (k, scopeWrapperOf k).
      * by apply not_elem_of_nil in Hk.
      * by exists m.
    + intros (m & Hm & Hk & Hw).
      assert (ScopeName (Scope_ w) ∈ map fst (scopewrappers st)) as Hin.
      { apply Hkeys. right. by exists m. }
      apply list_elem_of_fmap in Hin as ([k w'] & Hk' & Hin).
      pose proof (proj1 (Forall_forall _ _) Hvalues _ Hin) as Hw'.
      simpl in *. subst w' k. rewrite Hw. apply list_elem_of_fmap.
      by exists (ScopeName (Scope_ w), scopeWrapperOf (ScopeName (Scope_ w))).
Qed.

Lemma extractOperations_scopes_witness :
  let event :=
    Fixture.createEvent [Sample.postOrderScoped ["read"; "write"; "read"]]
                        [] [] in
  strings_ToUpper Fixture.lib (APIType (API_ event)) = "REST"
  /\ yaml_Unmarshal_OpenAPIPaths Fixture.lib (Definition_ (API_ event))
     = Ok Fixture.petstorePaths
  /\ (forall (A : Type) (l : list A), range (Fixture.run "id") A l ≡ₚ l)
  /\ NoDup (map (fun w => ScopeName (Scope_ w))
              (extractOperations Fixture.lib Fixture.consts (Fixture.run "id")
                 event []).1.2).
Proof.
  intros event.
  assert (forall (A : Type) (l : list A), range (Fixture.run "id") A l ≡ₚ l)
    as Hrange by done.
  split; [reflexivity|]. split; [reflexivity|]. split; [exact Hrange|].
  exact (proj1 (extractOperations_scopes_of_matched
                  Fixture.lib Fixture.consts (Fixture.run "id") event []
                  Fixture.petstorePaths eq_refl eq_refl Hrange)).
Defined.

(** ** Events that yield no operations *)

Section apiData_lists.
Variable L : Lib.
Variable K : Consts.
Variable R : Run.
Variable cfg : result Config.
Variable event : APICPEvent.

Lemma apiData_operations :
  let extracted :=
    operationsAndScopes L K R event
      (apimEndpints (sandLoop R (MultiEndpoints (API_ event)))) in
  GoMap.get "operations" (apiData L K R cfg event)
  = Some (YSeq (map yamlAPIOperation extracted.1))
  /\ GoMap.get "scopes" (apiData L K R cfg event)
     = Some (YSeq (map yamlScopeWrapper extracted.2)).
Proof.
  unfold apiData. destruct (operationsAndScopes _ _ _ _ _) as [operations scopes].
  rewrite !get_setAPIPolicies, !get_setPrimaryEndpoints_other, !get_setMaxTps,
    !get_setCORS, !get_deleteEmptyEndpoints, !get_setSubtypeConfiguration
    by done.
  by split.
Qed.

End apiData_lists.

Lemma mapM_id {A : Type} (f : A -> option A) (l : list A) :
  (forall x, x ∈ l -> f x = Some x) -> mapM f l = Some l.
Proof.
  induction l as [|x l IH]; intros Hf; [done|]. simpl.
  rewrite (Hf x) by (by left). simpl.
  rewrite IH; [done|]. intros y Hy. apply Hf. by right.
Qed.

(** Without operations nothing is annotated, and nothing is asked of the
    keys. *)
Lemma annotatePath_nil (L : Lib) (entry : Yaml * Yaml) :
  annotatePath L [] entry = Some entry.
Proof.
  destruct entry as [path pathContent]. unfold annotatePath.
  destruct pathContent; try done.
  rewrite mapM_id; [done|]. by intros [verb verbContent] _.
Qed.

Lemma rewriteOpenAPI_nil (L : Lib) (scopes : list ScopeWrapper)
  (openAPI : list (Yaml * Yaml)) :
  is_Some (rewriteOpenAPI L [] scopes (Some openAPI)).
Proof.
  unfold rewriteOpenAPI. cbn [default from_option id].
  destruct (GoMap.get "paths" openAPI) as [[| | | | | |paths]|];
    try (by eexists).
  rewrite mapM_id; [by eexists|]. intros entry _. apply annotatePath_nil.
Qed.

Lemma rewriteDefinition_nil (L : Lib) (api : API) (scopes : list ScopeWrapper) :
  yaml_Unmarshal L (Definition_ api) <> Ok None ->
  is_Some (rewriteDefinition L api [] scopes).
Proof.
  intros Hmap. unfold rewriteDefinition.
  destruct (strings_EqualFold L (APIType api) "rest"); [|by eexists].
  unfold ConvertYAMLToMap.
  destruct (yaml_Unmarshal L (Definition_ api)) as [[openAPI|]|];
    [|done|by eexists].
  destruct (rewriteOpenAPI_nil L scopes openAPI) as [r ->]. simpl.
  destruct (yaml_Marshal L (YMap r)); by eexists.
Qed.

(** X12.  For an event whose type reads [GRAPHQL] in upper case the
    declared operations never reach the API definition: whatever the event
    declares, the document lists no operations and no scopes.  When the
    type is not [rest] under [strings.EqualFold], [createAPIYaml] returns,
    and the definition it returns is the text of the event. *)
Theorem graphql_operations_are_dropped (L : Lib) (K : Consts) (R : Run)
  (cfg : result Config) (event : APICPEvent) :
  strings_ToUpper L (APIType (API_ event)) = "GRAPHQL" ->
  let data := apiData L K R cfg event in
  GoMap.get "operations" data = Some (YSeq [])
  /\ GoMap.get "scopes" data = Some (YSeq [])
  /\ (strings_EqualFold L (APIType (API_ event)) "rest" = false ->
      createAPIYaml L K R cfg event
      = Some (marshalOrEmpty L (apiDocument data), Definition_ (API_ event),
              marshalOrEmpty L (YMap (endpointsData R event)))).
Proof.
  intros Htype data.
  destruct (apiData_operations L K R cfg event) as [Hops Hscopes].
  fold data in Hops, Hscopes. rewrite Hops, Hscopes.
  unfold createAPIYaml, definitionOf, operationsAndScopes, extractOperations.
  rewrite Htype. simpl. split; [done|]. split; [done|].
  intros Hrest. unfold rewriteDefinition. by rewrite Hrest.
Qed.

Lemma graphql_operations_witness :
  strings_ToUpper Fixture.lib (APIType (API_ Sample.graphqlEvent)) = "GRAPHQL"
  /\ Operations (API_ Sample.graphqlEvent) = [Fixture.postOrder []]
  /\ GoMap.get "operations"
       (apiData Fixture.lib Fixture.consts (Fixture.run "id") Fixture.config
          Sample.graphqlEvent)
     = Some (YSeq []).
Proof.
  split; [reflexivity|]. split; [reflexivity|].
  exact (proj1 (graphql_operations_are_dropped
                  Fixture.lib Fixture.consts (Fixture.run "id") Fixture.config
                  Sample.graphqlEvent eq_refl)).
Defined.

(** X13.  When the schema of a REST event cannot be read as a list of paths
    the synthesis goes on without operations: the API definition lists no
    operations and no scopes, [createAPIYaml] returns, and when the schema
    cannot be read as a tree either the definition returned is the text of
    the event. *)
Theorem unparsable_schema_yields_no_operations (L : Lib) (K : Consts)
  (R : Run) (cfg : result Config) (event : APICPEvent) (err : string) :
  strings_ToUpper L (APIType (API_ event)) = "REST" ->
  yaml_Unmarshal_OpenAPIPaths L (Definition_ (API_ event)) = Err err ->
  let data := apiData L K R cfg event in
  GoMap.get "operations" data = Some (YSeq [])
  /\ GoMap.get "scopes" data = Some (YSeq [])
  /\ (exists definition,
        createAPIYaml L K R cfg event
        = Some (marshalOrEmpty L (apiDocument data), definition,
                marshalOrEmpty L (YMap (endpointsData R event))))
  /\ (forall err', ConvertYAMLToMap L (Definition_ (API_ event)) = Err err' ->
        definitionOf L K R event = Some (Definition_ (API_ event))).
Proof.
  intros Htype Hpaths data.
  destruct (apiData_operations L K R cfg event) as [Hops Hscopes].
  fold data in Hops, Hscopes. rewrite Hops, Hscopes.
  unfold createAPIYaml, definitionOf, operationsAndScopes, extractOperations.
  rewrite Htype, Hpaths. simpl. split; [done|]. split; [done|]. split.
  - destruct (rewriteDefinition_nil L (API_ event) []) as [definition ->].
    + intros Hnil%yaml_Unmarshal_nil. congruence.
    + by exists definition.
  - intros err' Hconvert. unfold rewriteDefinition. rewrite Hconvert.
    by destruct (strings_EqualFold L _ _).
Qed.

Lemma unparsable_schema_witness :
  strings_ToUpper Fixture.lib (APIType (API_ Sample.unparsableEvent)) = "REST"
  /\ yaml_Unmarshal_OpenAPIPaths Fixture.lib
       (Definition_ (API_ Sample.unparsableEvent))
     = Err "yaml: unmarshal errors"
  /\ definitionOf Fixture.lib Fixture.consts (Fixture.run "id")
       Sample.unparsableEvent
     = Some "paths: [".
Proof.
  split; [reflexivity|]. split; [reflexivity|].
  exact (proj2 (proj2 (proj2 (unparsable_schema_yields_no_operations
                                Fixture.lib Fixture.consts (Fixture.run "id")
                                Fixture.config Sample.unparsableEvent _
                                eq_refl eq_refl)))
           "yaml: unmarshal errors" eq_refl).
Defined.

(** X14.  [createAPIYaml] returns whenever the definition, if it parses at
    all, parses to a map that is not nil and whose keys under [paths] are
    strings: the assertions [path.(string)] and [verb.(string)] of the
    rewriting then hold and the assignment to [openAPI["components"]] has a
    map to write to.  On a REST event whose definition parses to the nil
    map, as a null document does, that assignment panics and the function
    does not return. *)
Theorem createAPIYaml_returns_on_string_keys (L : Lib) (K : Consts)
  (R : Run) (cfg : result Config) (event : APICPEvent) :
  (rewritable L (Definition_ (API_ event)) ->
   exists definition,
     createAPIYaml L K R cfg event
     = Some (marshalOrEmpty L (apiDocument (apiData L K R cfg event)),
             definition, marshalOrEmpty L (YMap (endpointsData R event))))
  /\ (strings_EqualFold L (APIType (API_ event)) "rest" = true ->
      ConvertYAMLToMap L (Definition_ (API_ event)) = Ok None ->
      createAPIYaml L K R cfg event = None).
Proof.
  split; [apply createAPIYaml_returns|apply createAPIYaml_nil_map].
Qed.

Lemma createAPIYaml_returns_witness :
  let event := Fixture.createEvent [Fixture.postOrder []] [] [] in
  let nullEvent := withDefinition event "~" in
  rewritable Fixture.lib (Definition_ (API_ event))
  /\ is_Some (createAPIYaml Fixture.lib Fixture.consts (Fixture.run "id")
                Fixture.config event)
  /\ ConvertYAMLToMap Fixture.lib (Definition_ (API_ nullEvent)) = Ok None
  /\ createAPIYaml Fixture.lib Fixture.consts (Fixture.run "id")
       Fixture.config nullEvent
     = None.
Proof.
  intros event nullEvent.
  assert (rewritable Fixture.lib (Definition_ (API_ event))) as Hkeys.
  { intros openAPI [= <-]. eexists. split; [reflexivity|].
    unfold stringKeyed. simpl. repeat constructor; simpl; eauto. }
  split; [exact Hkeys|]. split.
  - destruct (proj1 (createAPIYaml_returns_on_string_keys
                       Fixture.lib Fixture.consts (Fixture.run "id")
                       Fixture.config event) Hkeys) as [definition ->].
    by eexists.
  - split; [reflexivity|].
    exact (proj2 (createAPIYaml_returns_on_string_keys
                    Fixture.lib Fixture.consts (Fixture.run "id")
                    Fixture.config nullEvent) eq_refl eq_refl).
Defined.

(** ** The optional blocks of the API definition *)

Lemma set_not_nil (k : string) (v : Yaml) (m : list (Yaml * Yaml)) :
  0 < length (GoMap.set k v m).
Proof.
  destruct m as [|[k' v'] m]; simpl; [lia|].
  destruct (GoMap.isKey k k'); simpl; lia.
Qed.

Section optional_blocks.
Variable L : Lib.
Variable K : Consts.
Variable R : Run.
Variable cfg : result Config.
Variable event : APICPEvent.

Let api := API_ event.

Lemma initialData_optional
  (operations : list (APIOperation (list OperationPolicy)))
  (scopes : list ScopeWrapper) :
  GoMap.get "subtypeConfiguration" (initialData R cfg api operations scopes)
  = None
  /\ GoMap.get "corsConfiguration" (initialData R cfg api operations scopes)
     = None
  /\ GoMap.get "maxTps" (initialData R cfg api operations scopes) = None.
Proof. by repeat split. Qed.

Lemma apiData_subtypeConfiguration :
  GoMap.get "subtypeConfiguration" (apiData L K R cfg event)
  = if negb (String.eqb (APISubType api) "")
       && negb (String.eqb (LLMProviderID (AIConfiguration api)) "")
       && negb (String.eqb (LLMProviderName (AIConfiguration api)) "")
       && negb (String.eqb (LLMProviderAPIVersion (AIConfiguration api)) "")
    then Some (GoMap.lit
                 [("subtype", YStr (APISubType api));
                  ("_configuration",
                   YStr ("{" +:+ quote +:+ "llmProviderId" +:+ quote +:+ ":"
                         +:+ quote +:+ LLMProviderID (AIConfiguration api)
                         +:+ quote +:+ "}"))])
    else None.
Proof.
  unfold apiData. fold api.
  destruct (operationsAndScopes _ _ _ _ _) as [operations scopes].
  rewrite get_setAPIPolicies, get_setPrimaryEndpoints_other, get_setMaxTps,
    get_setCORS, get_deleteEmptyEndpoints by done.
  unfold setSubtypeConfiguration.
  destruct (_ && _); [|done]. cbv zeta.
  change (0 <? length _) with true. cbv iota. by rewrite get_set_eq.
Qed.

Lemma apiData_corsConfiguration :
  GoMap.get "corsConfiguration" (apiData L K R cfg event)
  = match CORSPolicy api with
    | Some cors =>
        Some (GoMap.lit
                [("corsConfigurationEnabled", YBool true);
                 ("accessControlAllowOrigins",
                  GoMap.strings (AccessControlAllowOrigins cors));
                 ("accessControlAllowCredentials",
                  YBool (AccessControlAllowCredentials cors));
                 ("accessControlAllowHeaders",
                  GoMap.strings (AccessControlAllowHeaders cors));
                 ("accessControlAllowMethods",
                  GoMap.strings (AccessControlAllowMethods cors));
                 ("accessControlExposeHeaders",
                  GoMap.strings (AccessControlExposeHeaders cors))])
    | None => None
    end.
Proof.
  unfold apiData. fold api.
  destruct (operationsAndScopes _ _ _ _ _) as [operations scopes].
  rewrite get_setAPIPolicies, get_setPrimaryEndpoints_other, get_setMaxTps
    by done.
  unfold setCORS. destruct (CORSPolicy api) as [cors|].
  - by rewrite get_set_eq.
  - by rewrite get_deleteEmptyEndpoints, get_setSubtypeConfiguration.
Qed.

Lemma apiData_maxTps :
  GoMap.get "maxTps" (apiData L K R cfg event)
  = match ProdAIRL api, SandAIRL api with
    | None, None => None
    | _, _ => Some (YMap (maxTpsMap L api))
    end.
Proof.
  unfold apiData. fold api.
  destruct (operationsAndScopes _ _ _ _ _) as [operations scopes].
  rewrite get_setAPIPolicies, get_setPrimaryEndpoints_other by done.
  unfold setMaxTps.
  assert ((0 <? length (maxTpsMap L api))
          = match ProdAIRL api, SandAIRL api with
            | None, None => false
            | _, _ => true
            end) as ->.
  { unfold maxTpsMap.
    destruct (ProdAIRL api) as [prod|], (SandAIRL api) as [sand|];
      try done; apply Nat.ltb_lt;
      repeat (case_match; try apply set_not_nil); apply set_not_nil. }
  destruct (ProdAIRL api), (SandAIRL api); rewrite ?get_set_eq; try done.
  by rewrite get_setCORS, get_deleteEmptyEndpoints,
    get_setSubtypeConfiguration.
Qed.

End optional_blocks.

(** X15.  The three optional blocks of the API definition are written
    exactly when the event carries what they are made of:
    [corsConfiguration], enabled and with the five lists of the policy,
    exactly when the event has a CORS policy; [subtypeConfiguration]
    exactly when the subtype and the three fields of the AI configuration
    are all non-empty; [maxTps] exactly when the event has a production or
    a sandbox rate limit. *)
Theorem optional_blocks_follow_the_event (L : Lib) (K : Consts) (R : Run)
  (cfg : result Config) (event : APICPEvent) :
  let api := API_ event in
  let data := apiData L K R cfg event in
  (GoMap.get "corsConfiguration" data = None <-> CORSPolicy api = None)
  /\ (forall cors,
        CORSPolicy api = Some cors ->
        exists block,
          GoMap.get "corsConfiguration" data = Some (YMap block)
          /\ GoMap.get "corsConfigurationEnabled" block = Some (YBool true)
          /\ GoMap.get "accessControlAllowOrigins" block
             = Some (GoMap.strings (AccessControlAllowOrigins cors))
          /\ GoMap.get "accessControlAllowCredentials" block
             = Some (YBool (AccessControlAllowCredentials cors)))
  /\ (GoMap.get "subtypeConfiguration" data <> None
      <-> APISubType api <> ""
          /\ LLMProviderID (AIConfiguration api) <> ""
          /\ LLMProviderName (AIConfiguration api) <> ""
          /\ LLMProviderAPIVersion (AIConfiguration api) <> "")
  /\ (GoMap.get "maxTps" data = None
      <-> ProdAIRL api = None /\ SandAIRL api = None).
Proof.
  intros api data. subst data.
  rewrite apiData_corsConfiguration, apiData_subtypeConfiguration,
    apiData_maxTps. fold api.
  split; [|split; [|split]].
  - by destruct (CORSPolicy api).
  - intros cors ->. eexists. split; [reflexivity|]. by repeat split.
  - destruct (String.eqb_spec (APISubType api) ""),
      (String.eqb_spec (LLMProviderID (AIConfiguration api)) ""),
      (String.eqb_spec (LLMProviderName (AIConfiguration api)) ""),
      (String.eqb_spec (LLMProviderAPIVersion (AIConfiguration api)) "");
      simpl; split; try done; tauto.
  - destruct (ProdAIRL api), (SandAIRL api); split; try done; by intros [? ?].
Qed.

(** X16.  The rate-limit block.  A production limit writes its request
    count and its time unit in upper case, a sandbox limit likewise.  With
    a sandbox limit the block always has a
    [tokenBasedThrottlingConfiguration], be it empty, and that
    configuration carries [isTokenBasedThrottlingEnabled] only when the
    production limit set a token count: sandbox token counts alone are
    written without the flag.  With a production limit alone the
    configuration is written only when it sets a token count. *)
Theorem maxTps_token_configuration (L : Lib) (api : API) :
  let maxTps := maxTpsMap L api in
  let productionTokens :=
    exists prod,
      ProdAIRL api = Some prod
      /\ (PromptTokenCount prod <> None \/ CompletionTokenCount prod <> None
          \/ TotalTokenCount prod <> None) in
  (forall prod,
     ProdAIRL api = Some prod ->
     GoMap.get "production" maxTps = Some (YInt (RequestCount prod))
     /\ GoMap.get "productionTimeUnit" maxTps
        = Some (YStr (strings_ToUpper L (TimeUnit prod))))
  /\ (forall sand,
        SandAIRL api = Some sand ->
        GoMap.get "sandbox" maxTps = Some (YInt (RequestCount sand))
        /\ GoMap.get "sandboxTimeUnit" maxTps
           = Some (YStr (strings_ToUpper L (TimeUnit sand)))
        /\ exists tokenConfig,
             GoMap.get "tokenBasedThrottlingConfiguration" maxTps
             = Some (YMap tokenConfig)
             /\ (GoMap.get "isTokenBasedThrottlingEnabled" tokenConfig
                 = Some (YBool true) <-> productionTokens)
             /\ (GoMap.get "isTokenBasedThrottlingEnabled" tokenConfig = None
                 <-> ~ productionTokens)
             /\ GoMap.get "sandboxMaxPromptTokenCount" tokenConfig
                = YInt <$> PromptTokenCount sand
             /\ GoMap.get "sandboxMaxCompletionTokenCount" tokenConfig
                = YInt <$> CompletionTokenCount sand
             /\ GoMap.get "sandboxMaxTotalTokenCount" tokenConfig
                = YInt <$> TotalTokenCount sand)
  /\ (SandAIRL api = None ->
      GoMap.get "tokenBasedThrottlingConfiguration" maxTps <> None
      <-> productionTokens).
Proof.
  intros maxTps productionTokens.
  set (flag := match ProdAIRL api with
               | Some prod =>
                   bool_decide (PromptTokenCount prod <> None
                                \/ CompletionTokenCount prod <> None
                                \/ TotalTokenCount prod <> None)
               | None => false
               end).
  assert (flag = true <-> productionTokens) as Hflag.
  { subst flag productionTokens. destruct (ProdAIRL api) as [prod|].
    - rewrite bool_decide_eq_true. split; [by exists prod|].
      by intros (? & [= <-] & ?).
    - split; [done|]. by intros (? & [=] & _). }
  assert (forall sand,
            SandAIRL api = Some sand ->
            exists tokenConfig,
              GoMap.get "tokenBasedThrottlingConfiguration" maxTps
              = Some (YMap tokenConfig)
              /\ GoMap.get "isTokenBasedThrottlingEnabled" tokenConfig
                 = (if flag then Some (YBool true) else None)
              /\ GoMap.get "sandboxMaxPromptTokenCount" tokenConfig
                 = YInt <$> PromptTokenCount sand
              /\ GoMap.get "sandboxMaxCompletionTokenCount" tokenConfig
                 = YInt <$> CompletionTokenCount sand
              /\ GoMap.get "sandboxMaxTotalTokenCount" tokenConfig
                 = YInt <$> TotalTokenCount sand) as Hsand.
  { intros sand Hs. subst maxTps flag. unfold maxTpsMap. rewrite Hs.
    destruct (ProdAIRL api) as [[prc ptu [pp|] [pc|] [pt|]]|],
             sand as [src stu [sp|] [sc|] [st|]];
      eexists; (split; [reflexivity|]); by repeat split. }
  assert (SandAIRL api = None ->
          GoMap.get "tokenBasedThrottlingConfiguration" maxTps
          = if flag then
              Some (YMap match ProdAIRL api with
                         | Some prod =>
                             GoMap.set "isTokenBasedThrottlingEnabled"
                               (YBool true)
                               (setOpt "productionMaxTotalTokenCount"
                                  (TotalTokenCount prod)
                                  (setOpt "productionMaxCompletionTokenCount"
                                     (CompletionTokenCount prod)
                                     (setOpt "productionMaxPromptTokenCount"
                                        (PromptTokenCount prod) [])))
                         | None => []
                         end)
            else None) as Hprod.
  { intros Hs. subst maxTps flag. unfold maxTpsMap. rewrite Hs.
    by destruct (ProdAIRL api) as [[prc ptu [pp|] [pc|] [pt|]]|]. }
  split; [|split].
  - intros prod Hp. subst maxTps. unfold maxTpsMap. rewrite Hp.
    destruct prod as [prc ptu [pp|] [pc|] [pt|]],
             (SandAIRL api) as [[src stu [sp|] [sc|] [st|]]|];
      by split.
  - intros sand Hs. split; [|split].
    + subst maxTps. unfold maxTpsMap. rewrite Hs.
      by destruct (ProdAIRL api) as [[prc ptu [pp|] [pc|] [pt|]]|],
                  sand as [src stu [sp|] [sc|] [st|]].
    + subst maxTps. unfold maxTpsMap. rewrite Hs.
      by destruct (ProdAIRL api) as [[prc ptu [pp|] [pc|] [pt|]]|],
                  sand as [src stu [sp|] [sc|] [st|]].
    + destruct (Hsand sand Hs) as (tokenConfig & Hconfig & Henabled & Hrest).
      exists tokenConfig. split; [done|]. rewrite Henabled, <- Hflag.
      split; [|split; [|done]]; by destruct flag.
  - intros Hs. rewrite (Hprod Hs), <- Hflag. by destruct flag.
Qed.

(** ** The API-level policy and the model configurations *)

Lemma ReplaceAllByte_freeOf (s : string) (old new : ascii) :
  old <> new -> freeOf old (GoStrings.ReplaceAllByte s old new).
Proof.
  intros Hne. induction s as [|c s IH]; [done|]. simpl. split; [|done].
  destruct (Ascii.eqb_spec c old); congruence.
Qed.

Lemma apiData_apiPolicies (L : Lib) (K : Consts) (R : Run)
  (cfg : result Config) (event : APICPEvent) :
  GoMap.get "apiPolicies" (apiData L K R cfg event)
  = Some (yamlOperationPolicies
            {| Request :=
                 apiRequestPolicies L K (API_ event)
                   (apimEndpints (sandLoop R (MultiEndpoints (API_ event))));
               Response := []; Fault := [] |}).
Proof.
  unfold apiData. destruct (operationsAndScopes _ _ _ _ _) as [operations scopes].
  apply get_set_eq.
Qed.

(** X17.  The API definition always has [apiPolicies], with no response
    and no fault policy.  Its request list holds one policy, the weighted
    round robin of common type, exactly when the event has a model-based
    round robin and its type is not [GraphQL], and is empty otherwise.  The
    configuration string of that policy has no double quote in it, and is
    empty when [json.Marshal] fails: the policy is written all the same. *)
Theorem api_level_round_robin_policy (L : Lib) (K : Consts) (R : Run)
  (cfg : result Config) (event : APICPEvent) :
  let api := API_ event in
  let apimEndpints := apimEndpints (sandLoop R (MultiEndpoints api)) in
  let policies := apiRequestPolicies L K api apimEndpints in
  GoMap.get "apiPolicies" (apiData L K R cfg event)
  = Some (GoMap.lit
            [("request", YSeq (map yamlOperationPolicy policies));
             ("response", YSeq []); ("fault", YSeq [])])
  /\ (policies = []
      <-> AIModelBasedRoundRobin api = None \/ APIType api = "GraphQL")
  /\ (forall policy,
        policy ∈ policies ->
        policies = [policy]
        /\ PolicyName policy = ModelWeightedRoundRobin K
        /\ PolicyVersion policy = V1 K
        /\ PolicyType policy = CommonType K
        /\ exists rr singleQuoted,
             AIModelBasedRoundRobin api = Some rr
             /\ Parameters policy
                = Some (WeightedRoundRobinConfigs singleQuoted)
             /\ freeOf (Ascii.ascii_of_nat 34) singleQuoted
             /\ forall err,
                  json_Marshal L
                    (jsonModelBasedRoundRobinConfig
                       (convertAIModelWeightsToModelConfigs
                          (ProductionModels rr) apimEndpints true)
                       (convertAIModelWeightsToModelConfigs
                          (SandboxModels rr) apimEndpints false)
                       (GoStrings.itoa (OnQuotaExceedSuspendDuration rr)))
                  = Err err ->
                  singleQuoted = "").
Proof.
  intros api eps policies. split; [apply apiData_apiPolicies|].
  subst policies. unfold apiRequestPolicies.
  destruct (AIModelBasedRoundRobin api) as [rr|].
  - destruct (String.eqb_spec (APIType api) "GraphQL") as [Htype|Htype]; simpl.
    + split; [by split; [right|]|]. intros policy Hin.
      by apply not_elem_of_nil in Hin.
    + split; [split; [done|by intros [?|?]]|].
      intros policy ->%list_elem_of_singleton. simpl.
      repeat (split; [done|]). eexists rr, _.
      split; [done|]. split; [done|]. split.
      * by apply ReplaceAllByte_freeOf.
      * by intros err ->.
  - split; [by split; [left|]|]. intros policy Hin.
    by apply not_elem_of_nil in Hin.
Qed.

Lemma endpointIDFor_find (apimEndpoints : list APIMEndpoint)
  (target : string) :
  endpointIDFor apimEndpoints target
  = from_option EndpointUUID ""
      (List.find (fun endpoint =>
                    String.eqb (ProductionEndpointsURL
                                  (EndpointConfig_ endpoint)) target
                    || String.eqb (SandboxEndpointsURL
                                     (EndpointConfig_ endpoint)) target)
                 apimEndpoints).
Proof.
  induction apimEndpoints as [|endpoint rest IH]; [done|]. simpl.
  destruct (String.eqb (ProductionEndpointsURL _) target); [done|].
  by destruct (String.eqb (SandboxEndpointsURL _) target).
Qed.

(** X18.  [convertAIModelWeightsToModelConfigs] keeps the models and the
    weights in their order and ignores [isProd].  Each endpoint identifier
    is that of the first descriptor, of either stage, whose production URL
    or sandbox URL equals the endpoint of the weight, and the empty string
    when there is none.  A production descriptor has an empty sandbox URL
    and a sandbox descriptor an empty production URL, so a weight with an
    empty endpoint is given the identifier of the first descriptor the
    resolver made. *)
Theorem convertAIModelWeightsToModelConfigs_resolves_first
  (weights : list AIModelWeight) (apimEndpoints : list APIMEndpoint)
  (isProd : bool) :
  let configs :=
    convertAIModelWeightsToModelConfigs weights apimEndpoints isProd in
  let hasURL (url : string) (endpoint : APIMEndpoint) : bool :=
    String.eqb (ProductionEndpointsURL (EndpointConfig_ endpoint)) url
    || String.eqb (SandboxEndpointsURL (EndpointConfig_ endpoint)) url in
  map McModel configs = map Model weights
  /\ map McWeight configs = map Weight weights
  /\ configs
     = convertAIModelWeightsToModelConfigs weights apimEndpoints (negb isProd)
  /\ map McEndpointID configs
     = map (fun weight =>
              from_option EndpointUUID ""
                (List.find (hasURL (Endpoint weight)) apimEndpoints))
           weights
  /\ (forall (R : Run) (multiEndpoints : MultiEndpointsT) first,
        head (apimEndpints (sandLoop R multiEndpoints)) = Some first ->
        endpointIDFor (apimEndpints (sandLoop R multiEndpoints)) ""
        = EndpointUUID first).
Proof.
  intros configs hasURL. subst configs.
  unfold convertAIModelWeightsToModelConfigs. rewrite !map_map. simpl.
  split; [done|]. split; [done|]. split; [done|]. split.
  - apply map_ext. intros weight. apply endpointIDFor_find.
  - intros R multiEndpoints first. rewrite sandLoop_closed. simpl.
    destruct (ProdEndpoints multiEndpoints) as [|e l]; simpl.
    + destruct (SandEndpoints multiEndpoints) as [|e l]; simpl; [done|].
      by intros [= <-].
    + intros [= <-]. simpl.
      by destruct (String.eqb (endpointURL multiEndpoints e) "").
Qed.

(** ** The endpoint descriptors *)

Lemma stage_suffixes_differ (s t : string) :
  s +:+ "--PRODUCTION" <> t +:+ "--SANDBOX".
Proof.
  intros Heq.
  assert (String.length s + 3 = String.length t) as Hlen.
  { apply (f_equal String.length) in Heq. rewrite !str_length_app in Heq.
    simpl in Heq. lia. }
  assert (GoStrings.drop (String.length (s +:+ "--PRODUCTIO"))
            ((s +:+ "--PRODUCTIO") +:+ "N") = "N") as Hleft
    by apply drop_app_length.
  assert (GoStrings.drop (String.length (t +:+ "--SANDBO"))
            ((t +:+ "--SANDBO") +:+ "X") = "X") as Hright
    by apply drop_app_length.
  rewrite str_app_assoc in Hleft, Hright.
  change ("--PRODUCTIO" +:+ "N") with "--PRODUCTION" in Hleft.
  change ("--SANDBO" +:+ "X") with "--SANDBOX" in Hright.
  rewrite str_length_app in Hleft, Hright. simpl String.length in Hleft, Hright.
  rewrite Heq in Hleft.
  replace (String.length s + 11) with (String.length t + 8) in Hleft by lia.
  congruence.
Qed.

Lemma str_app_inv_tail (s t suffix : string) :
  s +:+ suffix = t +:+ suffix -> s = t.
Proof.
  intros Heq.
  assert (String.length s = String.length t) as Hlen.
  { apply (f_equal String.length) in Heq. rewrite !str_length_app in Heq. lia. }
  rewrite <- (take_app_length s suffix), Heq, Hlen. apply take_app_length.
Qed.

Lemma endpointURL_empty (multiEndpoints : MultiEndpointsT)
  (endpoint : EndpointConfig) :
  endpointURL multiEndpoints endpoint = "" <-> URL endpoint = "".
Proof.
  unfold endpointURL.
  destruct (String.eqb_spec (URL endpoint) "") as [->|Hne]; [done|].
  split; [|done]. intros Heq. apply (f_equal String.length) in Heq.
  rewrite !str_length_app in Heq. simpl in Heq. lia.
Qed.

Section descriptor_facts.
Variable R : Run.
Variable multiEndpoints : MultiEndpointsT.

Let N := length (ProdEndpoints multiEndpoints).
Let M := length (SandEndpoints multiEndpoints).
Let descriptors := apimEndpints (sandLoop R multiEndpoints).

Lemma descriptors_lookup (i : nat) (d : APIMEndpoint) :
  descriptors !! i = Some d ->
  (i < N /\ exists e, ProdEndpoints multiEndpoints !! i = Some e
                      /\ d = prodDescriptor R multiEndpoints i e)
  \/ (N <= i /\ exists e, SandEndpoints multiEndpoints !! (i - N) = Some e
                          /\ d = sandDescriptor R multiEndpoints N (i - N) e).
Proof.
  unfold descriptors. rewrite sandLoop_closed. simpl. fold N.
  intros [Hd|[Hge Hd]]%lookup_app_Some.
  - left. apply list_lookup_imap_Some in Hd as (e & He & ->).
    split; [|by exists e]. by apply lookup_lt_Some in He.
  - right. rewrite length_imap in Hge, Hd. fold N in Hge, Hd.
    apply list_lookup_imap_Some in Hd as (e & He & ->).
    split; [done|]. by exists e.
Qed.

Lemma descriptors_length : length descriptors = N + M.
Proof.
  unfold descriptors. rewrite sandLoop_closed. simpl.
  by rewrite length_app, !length_imap.
Qed.

End descriptor_facts.

(** X19.  The descriptors the two loops of [createAPIYaml] make, one for
    each multi-endpoint entry, production entries first.  The descriptor at
    position [i] carries the [i]-th identifier drawn in the run, with the
    suffix of its stage; its URL is the protocol, [://] and the URL of its
    entry, and is empty exactly when the URL of the entry is; its name is
    [Default Production Endpoint] or [Default Sandbox Endpoint] for the
    first of a stage.  A production descriptor and a sandbox descriptor
    never have the same identifier, whatever [uuid.New] returns. *)
Theorem endpoint_descriptors_follow_the_entries (R : Run)
  (multiEndpoints : MultiEndpointsT) :
  let N := length (ProdEndpoints multiEndpoints) in
  let M := length (SandEndpoints multiEndpoints) in
  let descriptors := apimEndpints (sandLoop R multiEndpoints) in
  length descriptors = N + M
  /\ (forall i e,
        ProdEndpoints multiEndpoints !! i = Some e ->
        exists d,
          descriptors !! i = Some d
          /\ DeploymentStage d = "PRODUCTION"
          /\ EndpointUUID d = uuid_New R i +:+ "--PRODUCTION"
          /\ ProductionEndpointsURL (EndpointConfig_ d)
             = endpointURL multiEndpoints e
          /\ (ProductionEndpointsURL (EndpointConfig_ d) = "" <-> URL e = "")
          /\ (i = 0 -> EndpointName d = "Default Production Endpoint"))
  /\ (forall j e,
        SandEndpoints multiEndpoints !! j = Some e ->
        exists d,
          descriptors !! (N + j) = Some d
          /\ DeploymentStage d = "SANDBOX"
          /\ EndpointUUID d = uuid_New R (N + j) +:+ "--SANDBOX"
          /\ SandboxEndpointsURL (EndpointConfig_ d)
             = endpointURL multiEndpoints e
          /\ (SandboxEndpointsURL (EndpointConfig_ d) = "" <-> URL e = "")
          /\ (j = 0 -> EndpointName d = "Default Sandbox Endpoint"))
  /\ (forall d d',
        d ∈ descriptors -> d' ∈ descriptors ->
        DeploymentStage d = "PRODUCTION" -> DeploymentStage d' = "SANDBOX" ->
        EndpointUUID d <> EndpointUUID d').
Proof.
  intros N M descriptors. split; [apply descriptors_length|].
  split; [|split].
  - intros i e He. exists (prodDescriptor R multiEndpoints i e).
    split; [|simpl; repeat split; try done].
    + subst descriptors. rewrite sandLoop_closed. simpl.
      apply lookup_app_l_Some. apply list_lookup_imap_Some. by exists e.
    + apply endpointURL_empty.
    + apply endpointURL_empty.
    + by intros ->.
  - intros j e He. exists (sandDescriptor R multiEndpoints N j e).
    split; [|simpl; repeat split; try done].
    + subst descriptors. rewrite sandLoop_closed. simpl.
      rewrite lookup_app_r by (rewrite length_imap; fold N; lia).
      rewrite length_imap. fold N. replace (N + j - N) with j by lia.
      apply list_lookup_imap_Some. by exists e.
    + apply endpointURL_empty.
    + apply endpointURL_empty.
    + by intros ->.
  - intros d d' [i Hd]%list_elem_of_lookup [i' Hd']%list_elem_of_lookup.
    apply descriptors_lookup in Hd as [(_ & e & _ & ->)|(_ & e & _ & ->)];
      apply descriptors_lookup in Hd' as [(_ & e' & _ & ->)|(_ & e' & _ & ->)];
      simpl; try done.
    intros _ _. apply stage_suffixes_differ.
Qed.

(** X20.  When [uuid.New] does not return the same identifier twice in the
    [N + M] calls of a run, no two descriptors have the same identifier. *)
Theorem endpoint_identifiers_distinct (R : Run)
  (multiEndpoints : MultiEndpointsT) :
  let N := length (ProdEndpoints multiEndpoints) in
  let M := length (SandEndpoints multiEndpoints) in
  (forall i j, i < N + M -> j < N + M ->
     uuid_New R i = uuid_New R j -> i = j) ->
  NoDup (map EndpointUUID (apimEndpints (sandLoop R multiEndpoints))).
Proof.
  intros N M Hinj. subst N M. apply NoDup_alt. intros i j id Hi Hj.
  apply list_lookup_fmap_Some in Hi as (d & -> & Hd).
  apply list_lookup_fmap_Some in Hj as (d' & Heq & Hd').
  pose proof (lookup_lt_Some _ _ _ Hd) as Hlt.
  pose proof (lookup_lt_Some _ _ _ Hd') as Hlt'.
  rewrite descriptors_length in Hlt, Hlt'.
  apply descriptors_lookup in Hd as [(? & e & _ & ->)|(? & e & _ & ->)];
    apply descriptors_lookup in Hd' as [(? & e' & _ & ->)|(? & e' & _ & ->)];
    simpl in Heq.
  - apply str_app_inv_tail in Heq. by apply Hinj.
  - by apply stage_suffixes_differ in Heq.
  - symmetry in Heq. by apply stage_suffixes_differ in Heq.
  - apply str_app_inv_tail in Heq.
    apply Hinj in Heq; lia.
Qed.

Lemma endpoint_identifiers_witness :
  let multiEndpoints :=
    {| Protocol := "https";
       ProdEndpoints := [Fixture.endpointAt "a.example.com"];
       SandEndpoints := [Fixture.endpointAt "b.example.com"] |} in
  (forall i j, i < 1 + 1 -> j < 1 + 1 ->
     uuid_New (Fixture.run "id") i = uuid_New (Fixture.run "id") j -> i = j)
  /\ NoDup (map EndpointUUID
              (apimEndpints (sandLoop (Fixture.run "id") multiEndpoints))).
Proof.
  intros multiEndpoints.
  assert (forall i j, i < 1 + 1 -> j < 1 + 1 ->
            uuid_New (Fixture.run "id") i = uuid_New (Fixture.run "id") j ->
            i = j) as Hinj.
  { intros [|[|i]] [|[|j]] Hi Hj Heq; try lia; try done. }
  split; [exact Hinj|].
  exact (endpoint_identifiers_distinct (Fixture.run "id") multiEndpoints Hinj).
Defined.

(** ** The create path of [POST /apis] *)

Section handler_facts.
Variable L : Lib.
Variable K : Consts.
Variable R : Run.
Variable cfg : result Config.

Lemma preparedEvent_fields (event : APICPEvent) :
  let prepared := preparedEvent L K event in
  Event prepared = Event event
  /\ APIName (API_ prepared) = APIName (API_ event)
  /\ APIVersion (API_ prepared) = APIVersion (API_ event)
  /\ APIType (API_ prepared) = APIType (API_ event)
  /\ Vhost (API_ prepared) = Vhost (API_ event).
Proof. unfold preparedEvent. by repeat case_match. Qed.

Lemma postAPIs_create (event : APICPEvent) :
  String.eqb (Event event) (DeleteEvent K) = false ->
  postAPIs L K R cfg (Ok event)
  = '(apiYaml, definition, endpointsYaml) ←
      createAPIYaml L K R cfg (preparedEvent L K event);
    let prepared := preparedEvent L K event in
    let zipFiles :=
      zipFilesOf L prepared apiYaml definition endpointsYaml
        (createDeployementYaml L cfg (Vhost (API_ prepared))) in
    let name :=
      "admin-" +:+ APIName (API_ prepared) +:+ "-"
      +:+ APIVersion (API_ prepared) +:+ ".zip" in
    let buf := (utils_CreateZipFile L zipFiles).1 in
    let calls := [CreateZipFileCall zipFiles; ImportAPICall name buf] in
    match utils_ImportAPI L name buf with
    | Err err =>
        Some ({| status := StatusServiceUnavailable; body := YStr err |},
              calls)
    | Ok (id, revisionID) =>
        Some ({| status := StatusOK;
                 body := GoMap.lit [("id", YStr id);
                                    ("revisionID", YStr revisionID)] |},
              calls)
    end.
Proof.
  intros Hevent. unfold postAPIs. rewrite Hevent.
  change (if strings_EqualFold L (APIType (API_ _)) "rest" then _ else _)
    with (preparedEvent L K event).
  destruct (createAPIYaml L K R cfg (preparedEvent L K event))
    as [[[apiYaml definition] endpointsYaml]|]; [|done].
  simpl. by destruct (utils_CreateZipFile L _).
Qed.

End handler_facts.

(** X21.  On an event that is not a delete event, once [createAPIYaml] has
    returned its three documents, the handler makes two outside calls and
    no more: it packs the files with [CreateZipFile] and hands whatever
    that call wrote, be there an error or not, to [ImportAPI] under the
    name [admin-<name>-<version>.zip].  The response is 503 with the error
    text when the import fails, and otherwise 200 with the [id] and the
    [revisionID] the import returned.  When [createAPIYaml] panics there is
    no response and no call. *)
Theorem create_event_imports_archive (L : Lib) (K : Consts) (R : Run)
  (cfg : result Config) (event : APICPEvent) :
  Event event <> DeleteEvent K ->
  let prepared := preparedEvent L K event in
  match createAPIYaml L K R cfg prepared with
  | None => postAPIs L K R cfg (Ok event) = None
  | Some (apiYaml, definition, endpointsYaml) =>
      let zipFiles :=
        zipFilesOf L prepared apiYaml definition endpointsYaml
          (createDeployementYaml L cfg (Vhost (API_ event))) in
      let archive := (utils_CreateZipFile L zipFiles).1 in
      let name :=
        "admin-" +:+ APIName (API_ event) +:+ "-"
        +:+ APIVersion (API_ event) +:+ ".zip" in
      exists response,
        postAPIs L K R cfg (Ok event)
        = Some (response,
                [CreateZipFileCall zipFiles; ImportAPICall name archive])
        /\ match utils_ImportAPI L name archive with
           | Err err => response = {| status := 503; body := YStr err |}
           | Ok (id, revisionID) =>
               response
               = {| status := 200;
                    body := YMap [(YStr "id", YStr id);
                                  (YStr "revisionID", YStr revisionID)] |}
           end
  end.
Proof.
  intros Hevent%String.eqb_neq prepared.
  rewrite (postAPIs_create L K R cfg event Hevent).
  destruct (preparedEvent_fields L K event) as (_ & Hname & Hversion & _ & Hvhost).
  cbv zeta in *. rewrite Hname, Hversion, Hvhost. fold prepared.
  destruct (createAPIYaml L K R cfg prepared)
    as [[[apiYaml definition] endpointsYaml]|]; [|done].
  simpl. destruct (utils_ImportAPI L _ _) as [[id revisionID]|err]; eauto.
Qed.

Lemma create_event_witness :
  let event := Fixture.createEvent [Fixture.postOrder []] [] [] in
  Event event <> DeleteEvent Fixture.consts
  /\ exists zipFiles archive,
       postAPIs Fixture.lib Fixture.consts (Fixture.run "id") Fixture.config
         (Ok event)
       = Some ({| status := 200;
                  body := YMap [(YStr "id", YStr "api-1");
                                (YStr "revisionID", YStr "rev-1")] |},
               [CreateZipFileCall zipFiles;
                ImportAPICall "admin-pets-1.0.zip" archive]).
Proof.
  intros event.
  assert (Event event <> DeleteEvent Fixture.consts) as Hevent by done.
  split; [exact Hevent|].
  pose proof (create_event_imports_archive
                Fixture.lib Fixture.consts (Fixture.run "id") Fixture.config
                event Hevent) as H.
  cbv zeta in H.
  destruct (createAPIYaml Fixture.lib Fixture.consts (Fixture.run "id")
              Fixture.config (preparedEvent Fixture.lib Fixture.consts event))
    as [[[apiYaml definition] endpointsYaml]|] eqn:Hcreate;
    [|by vm_compute in Hcreate].
  destruct H as (response & Hpost & Hresponse).
  simpl in Hresponse. subst response. eauto.
Defined.

(** X22.  What the handler does when it cannot go on.  A body that does
    not bind is answered with 400 and the error text, and no call is made.
    On a delete event, a configuration that was read and names no
    environment label makes the handler panic at [envLabel[0]], before any
    call; a configuration that could not be read leaves the label
    [Default], so that the handler does not panic; and a payload that
    [json.Marshal] refuses is answered with 500 and the error text, and no
    call is made. *)
Theorem handler_stops_before_any_call (L : Lib) (K : Consts) (R : Run)
  (cfg : result Config) (event : APICPEvent) :
  (forall err,
     postAPIs L K R cfg (Err err)
     = Some ({| status := 400; body := YMap [(YStr "error", YStr err)] |}, []))
  /\ (Event event = DeleteEvent K ->
      (forall config,
         cfg = Ok config -> EnvironmentLabels config = [] ->
         postAPIs L K R cfg (Ok event) = None)
      /\ (forall err,
            cfg = Err err ->
            exists response calls,
              postAPIs L K R cfg (Ok event) = Some (response, calls))
      /\ (forall label labels err,
            envLabelOf cfg = label :: labels ->
            json_Marshal L (undeployPayload event label) = Err err ->
            postAPIs L K R cfg (Ok event)
            = Some ({| status := 500; body := YStr err |}, []))).
Proof.
  split; [done|]. intros Hdelete. unfold postAPIs.
  rewrite Hdelete, String.eqb_refl. split; [|split].
  - intros config -> Hlabels. simpl. by rewrite Hlabels.
  - intros err ->. simpl.
    destruct (json_Marshal L _); [|by eauto].
    destruct (utils_DeleteAPIRevision L _ _ _); eauto.
  - intros label labels err -> Hjson. simpl. by rewrite Hjson.
Qed.

(** X23.  The files handed to the packer: three, or four with
    [endpoints.yaml], all in the directory [<name>-<version>] and no two
    under the same path; [api.yaml] comes first and the definition last,
    as [Definitions/schema.graphql] when the type reads [GRAPHQL] in upper
    case and as [Definitions/swagger.yaml] otherwise. *)
Theorem archive_files_are_distinct (L : Lib) (event : APICPEvent)
  (apiYaml definition endpointsYaml deploymentContent : string) :
  let api := API_ event in
  let dir := APIName api +:+ "-" +:+ APIVersion api in
  let zipFiles :=
    zipFilesOf L event apiYaml definition endpointsYaml deploymentContent in
  NoDup (map fst zipFiles)
  /\ (length zipFiles = 3 \/ length zipFiles = 4)
  /\ (forall file, file ∈ zipFiles -> exists rest, file.1 = dir +:+ rest)
  /\ head zipFiles = Some (dir +:+ "/api.yaml", apiYaml)
  /\ (dir +:+ "/deployment_environments.yaml", deploymentContent) ∈ zipFiles
  /\ last zipFiles
     = Some (dir +:+ (if String.eqb (strings_ToUpper L (APIType api)) "GRAPHQL"
                      then "/Definitions/schema.graphql"
                      else "/Definitions/swagger.yaml"),
             definition).
Proof.
  intros api dir zipFiles. subst zipFiles. unfold zipFilesOf. fold api dir.
  assert (forall a b : string, a <> b -> dir +:+ a <> dir +:+ b) as Hne.
  { intros a b Hab Heq. by apply (inj (String.app dir)) in Heq. }
  destruct (String.eqb (strings_ToUpper L (APIType api)) "GRAPHQL"),
           (negb (String.eqb endpointsYaml ("{}" +:+ newline)));
    simpl; (split; [|split; [|split; [|split; [|split]]]]);
    try done; try (by left); try (by right);
    try (repeat (apply NoDup_cons; split;
                 [rewrite ?elem_of_cons, elem_of_nil;
                  intros Hin; repeat destruct Hin as [Hin|Hin]; try done;
                  by apply Hne in Hin|]);
         apply NoDup_nil_2);
    try (intros file Hin; repeat (apply elem_of_cons in Hin as [->|Hin]);
         [eauto..|by apply not_elem_of_nil in Hin]);
    try (repeat (apply elem_of_cons; first [by left|right])).
Qed.

(** ** The rewritten schema *)

Lemma scopeNames_fold (scopes : list ScopeWrapper) (m : list (Yaml * Yaml)) :
  let m' := foldl (fun m scopeWrapper =>
                     GoMap.set (ScopeName (Scope_ scopeWrapper)) (YStr "") m)
                  m scopes in
  (forall w, w ∈ scopes ->
     GoMap.get (ScopeName (Scope_ w)) m' = Some (YStr ""))
  /\ (forall k, GoMap.get k m = Some (YStr "") ->
        GoMap.get k m' = Some (YStr ""))
  /\ (forall k, (forall w, w ∈ scopes -> ScopeName (Scope_ w) <> k) ->
        GoMap.get k m' = GoMap.get k m).
Proof.
  revert m. induction scopes as [|w0 scopes IH]; intros m; simpl.
  { split; [|done]. intros w Hw. by apply not_elem_of_nil in Hw. }
  destruct (IH (GoMap.set (ScopeName (Scope_ w0)) (YStr "") m))
    as (Hin & Hkeep & Hother).
  split; [|split].
  - intros w [->|Hw]%elem_of_cons; [|by apply Hin].
    apply Hkeep, get_set_eq.
  - intros k Hk. apply Hkeep.
    destruct (decide (k = ScopeName (Scope_ w0))) as [->|Hne].
    + apply get_set_eq.
    + by rewrite get_set_ne.
  - intros k Hk. rewrite Hother.
    + apply get_set_ne. intros ->. by apply (Hk w0); [left|].
    + intros w Hw. apply Hk. by right.
Qed.

(** X24.  The schema [createAPIYaml] writes back for a REST event, read
    into a map that is not nil, differs from the schema it read in two
    places only, [paths] and [components].
    Under [components] it keeps every entry but [securitySchemes], and
    under [securitySchemes] every scheme but [default], which it writes
    anew: an [oauth2] scheme whose implicit flow lists every scope name
    returned by the extraction, each with an empty description, under
    [scopes] and under [x-scopes-bindings].  A [components] or a
    [securitySchemes] that is not a map is replaced by a map holding only
    what is written. *)
Theorem rewriteOpenAPI_adds_default_scheme (L : Lib)
  (operations : list (APIOperation (list OperationPolicy)))
  (scopes : list ScopeWrapper) (openAPI rewritten : list (Yaml * Yaml)) :
  rewriteOpenAPI L operations scopes (Some openAPI) = Some rewritten ->
  let oldComponents :=
    match GoMap.get "components" openAPI with
    | Some (YMap m) => m
    | _ => []
    end in
  let oldSchemes :=
    match GoMap.get "securitySchemes" oldComponents with
    | Some (YMap m) => m
    | _ => []
    end in
  (forall k, k <> "paths" -> k <> "components" ->
     GoMap.get k rewritten = GoMap.get k openAPI)
  /\ exists components securitySchemes names,
       GoMap.get "components" rewritten = Some (YMap components)
       /\ (forall k, k <> "securitySchemes" ->
             GoMap.get k components = GoMap.get k oldComponents)
       /\ GoMap.get "securitySchemes" components = Some (YMap securitySchemes)
       /\ (forall k, k <> "default" ->
             GoMap.get k securitySchemes = GoMap.get k oldSchemes)
       /\ GoMap.get "default" securitySchemes
          = Some (GoMap.lit
                    [("type", YStr "oauth2");
                     ("flows",
                      GoMap.lit
                        [("implicit",
                          GoMap.lit
                            [("authorizationUrl", YStr "https://test.com");
                             ("scopes", YMap names);
                             ("x-scopes-bindings", YMap names)])])])
       /\ (forall w, w ∈ scopes ->
             GoMap.get (ScopeName (Scope_ w)) names = Some (YStr ""))
       /\ (forall k, (forall w, w ∈ scopes -> ScopeName (Scope_ w) <> k) ->
             GoMap.get k names = None).
Proof.
  intros Hrewrite oldComponents oldSchemes. revert Hrewrite.
  unfold rewriteOpenAPI. cbn [default from_option id].
  set (step := match GoMap.get "paths" openAPI with
               | Some (YMap paths) => _
               | _ => Some openAPI
               end).
  assert (forall o, step = Some o ->
            forall k, k <> "paths" -> GoMap.get k o = GoMap.get k openAPI)
    as Hstep.
  { subst step.
    destruct (GoMap.get "paths" openAPI) as [[| | | | | |paths]|];
      try (by intros o [= <-]).
    destruct (mapM (annotatePath L operations) paths) as [paths'|]; [|done].
    simpl. intros o [= <-] k Hk. by apply get_set_ne. }
  destruct step as [o|]; [|done]. simpl. specialize (Hstep o eq_refl).
  rewrite (Hstep "components") by done. fold oldComponents oldSchemes.
  intros [= <-]. split.
  - intros k Hk1 Hk2. rewrite get_set_ne by done. by apply Hstep.
  - eexists _, _, _. split; [apply get_set_eq|].
    split; [intros; by apply get_set_ne|]. split; [apply get_set_eq|].
    split; [intros; by apply get_set_ne|]. split; [apply get_set_eq|].
    destruct (scopeNames_fold scopes []) as (Hin & _ & Hother).
    split; [done|]. intros k Hk. by rewrite Hother.
Qed.

Lemma rewriteOpenAPI_witness :
  let scopes := [scopeWrapperOf "read"] in
  exists rewritten,
    rewriteOpenAPI Fixture.lib [] scopes (Some Fixture.petstoreTree)
    = Some rewritten
    /\ GoMap.get "paths" rewritten = GoMap.get "paths" Fixture.petstoreTree
    /\ GoMap.get "openapi" rewritten = None.
Proof.
  intros scopes.
  destruct (rewriteOpenAPI Fixture.lib [] scopes (Some Fixture.petstoreTree))
    as [rewritten|] eqn:Hrewrite; [|by vm_compute in Hrewrite].
  exists rewritten. split; [done|]. split.
  - revert Hrewrite. vm_compute. by intros [= <-].
  - rewrite (proj1 (rewriteOpenAPI_adds_default_scheme
                      Fixture.lib [] scopes Fixture.petstoreTree rewritten
                      Hrewrite) "openapi") by done.
    reflexivity.
Defined.

(** X25.  What the rewriting does to one verb of the schema whose path key
    and verb key are strings.  It looks for the first operation whose
    target equals the path and whose verb equals the verb, both under
    [strings.EqualFold], and stops there.  With such an operation and a
    content that is a map it sets [x-auth-type], and [security] with the
    scopes of the operation when it has any, and leaves every other entry
    of the content alone; with no such operation, or a content that is no
    map, the content is returned as it is. *)
Theorem annotateVerb_first_operation (L : Lib)
  (operations : list (APIOperation (list OperationPolicy)))
  (path verb : string) (verbContent : Yaml) :
  let found :=
    List.find (fun operation =>
                 strings_EqualFold L path (Target operation)
                 && strings_EqualFold L verb (OpVerb operation))
              operations in
  exists annotated,
    annotateVerb L operations (YStr path) (YStr verb) verbContent
    = Some annotated
    /\ match found, verbContent with
       | Some operation, YMap verbContentMap =>
           exists annotatedMap,
             annotated = YMap annotatedMap
             /\ GoMap.get "x-auth-type" annotatedMap
                = Some (YStr "Application & Application User")
             /\ GoMap.get "security" annotatedMap
                = (if 0 <? length (OpScopes operation)
                   then Some (YSeq [GoMap.lit
                                      [("default",
                                        GoMap.strings (OpScopes operation))]])
                   else GoMap.get "security" verbContentMap)
             /\ (forall k, k <> "x-auth-type" -> k <> "security" ->
                   GoMap.get k annotatedMap = GoMap.get k verbContentMap)
       | _, _ => annotated = verbContent
       end.
Proof.
  induction operations as [|operation operations IH]; simpl.
  { exists verbContent. split; [done|]. by destruct verbContent. }
  destruct (strings_EqualFold L path (Target operation)); simpl; [|done].
  destruct (strings_EqualFold L verb (OpVerb operation)); simpl; [|done].
  destruct verbContent as [| | | | | |verbContentMap]; try (by eexists).
  eexists. split; [done|]. eexists. split; [done|].
  split; [apply get_set_eq|]. split.
  - rewrite get_set_ne by done.
    destruct (0 <? length (OpScopes operation)); [apply get_set_eq|done].
  - intros k Hk1 Hk2. rewrite get_set_ne by done.
    destruct (0 <? length (OpScopes operation)); [by apply get_set_ne|done].
Qed.

(** ** Policies that pile up *)

Lemma findMatchingAPKOperation_elem_of (L : Lib) (path verb : string)
  (operations : list OperationFromDP) (operationFromDP : OperationFromDP) :
  findMatchingAPKOperation L path verb operations = Some operationFromDP ->
  operationFromDP ∈ operations.
Proof.
  revert path. induction operations as [|op operations IH]; intros path; [done|].
  simpl. destruct (strings_EqualFold L (Verb op) verb).
  - destruct (matchRegex L (Path op) (processOpenAPIPath path)).
    + intros [= <-]. by left.
    + intros H. right. by eapply IH.
  - intros H. right. by eapply IH.
Qed.

Section piling.
Variable L : Lib.
Variable K : Consts.

Lemma fits_allocated (h : PolicyHeap) (t : PolicySlice) :
  fits h t -> GoSlice.cap t = 0 \/ GoSlice.arr t < length h.
Proof.
  intros [Hlen Hcap].
  destruct (h !! GoSlice.arr t) as [array|] eqn:Harray.
  - right. by apply lookup_lt_Some in Harray.
  - left. simpl in Hcap. lia.
Qed.

(** [append] on [s], seen from another slice value [t]. *)
Lemma appendPolicy_outOfReach (s t : PolicySlice) (p : OperationPolicy)
  (h : PolicyHeap) :
  fits h s -> fits h t -> outOfReach s t ->
  let '(s', h') := appendPolicy L s p h in
  GoSlice.read h' t = GoSlice.read h t /\ outOfReach s' t.
Proof.
  intros Hs Ht Hout.
  pose proof (appendPolicy_read L s p h Hs) as Happend.
  pose proof (fits_allocated h t Ht) as Halloc.
  unfold appendPolicy, GoSlice.append in *.
  destruct Hs as [Hlen Hcap], Ht as [Hlent Hcapt].
  destruct (Nat.ltb_spec (GoSlice.len s) (GoSlice.cap s)) as [Hlt|Hge].
  - destruct Happend as (_ & _ & _ & Hsame). split.
    + apply Hsame; [done|]. destruct Hout as [?|[?|?]]; [lia|by left|by right].
    + unfold outOfReach in *. simpl. destruct Hout as [?|[?|?]]; [lia|auto|].
      right. right. lia.
  - split; [by apply fits_grow|]. unfold outOfReach. simpl.
    destruct Halloc as [?|?]; [right; right; lia|right; left; lia].
Qed.

Lemma appendPolicy_apart (s r : PolicySlice) (p : OperationPolicy)
  (h : PolicyHeap) :
  fits h s -> fits h r -> apart s r ->
  let '(s', h') := appendPolicy L s p h in apart s' r.
Proof.
  intros Hs Hr Hapart. pose proof (fits_allocated h r Hr) as Halloc.
  unfold appendPolicy, GoSlice.append, apart in *.
  destruct (Nat.ltb_spec (GoSlice.len s) (GoSlice.cap s)) as [Hlt|Hge]; simpl.
  - destruct Hapart as [?|[?|?]]; [lia|auto|auto].
  - destruct Halloc as [?|?]; [auto|right; right; lia].
Qed.

Lemma apart_outOfReach (h : PolicyHeap) (s t : PolicySlice) :
  fits h t -> apart s t -> outOfReach s t.
Proof.
  intros [Hlen Hcap] [?|[?|?]]; unfold outOfReach; [auto|right; right; lia|auto].
Qed.

Lemma apart_sym (s t : PolicySlice) : apart s t -> apart t s.
Proof. unfold apart. intros [?|[?|?]]; auto. Qed.

Lemma extends_refl (a : Accumulators) : inOrder a -> extends a a [] [].
Proof. intros Ha. unfold extends. by rewrite !app_nil_r. Qed.

Lemma extends_trans (a a' a'' : Accumulators)
  (request response request' response' : list OperationPolicy) :
  extends a a' request response -> extends a' a'' request' response' ->
  extends a a'' (request ++ request') (response ++ response').
Proof.
  intros (_ & Hreq & Hresp & Ht) (Hord & Hreq' & Hresp' & Ht').
  split; [done|]. rewrite Hreq', Hresp', Hreq, Hresp, !app_assoc.
  split; [done|]. split; [done|].
  intros t Hsettled. destruct (Ht t Hsettled) as [Hsettled' Hread].
  destruct (Ht' t Hsettled') as [Hsettled'' Hread']. split; [done|].
  by rewrite Hread', Hread.
Qed.

Lemma extends_foldl {A : Type} (f : Accumulators -> A -> Accumulators)
  (request response : A -> list OperationPolicy) (l : list A)
  (a : Accumulators) :
  (forall a x, inOrder a -> extends a (f a x) (request x) (response x)) ->
  inOrder a ->
  extends a (foldl f a l) (flat_map request l) (flat_map response l).
Proof.
  intros Hf. revert a. induction l as [|x l IH]; intros a Ha; simpl.
  - by apply extends_refl.
  - eapply extends_trans; [by apply Hf|]. apply IH.
    by destruct (Hf a x Ha) as [? _].
Qed.

Lemma appendRequest_extends (a : Accumulators) (p : OperationPolicy) :
  inOrder a -> extends a (appendRequest L a p) [p] [].
Proof.
  intros [[Hreq Hresp] Hapart]. unfold extends, inOrder, settled, appendRequest.
  pose proof (appendPolicy_read L _ p _ Hreq) as Happend.
  pose proof (appendPolicy_apart _ _ p _ Hreq Hresp Hapart) as Hapart'.
  pose proof (fun t => appendPolicy_outOfReach
                         (requestOperationPolicies a) t p _ Hreq) as Hout.
  destruct (appendPolicy L _ p _) as [s h]. simpl.
  destruct Happend as (Hread & Hs & Hfits & _).
  destruct (Hout _ Hresp (apart_outOfReach _ _ _ Hresp Hapart))
    as [Hresp' _].
  split; [split; [split; auto|done]|]. split; [done|].
  split; [by rewrite app_nil_r|].
  intros t (Ht & Ht1 & Ht2). destruct (Hout t Ht Ht1) as [Hsame Hout'].
  split; [|done]. split; [auto|]. by split.
Qed.

Lemma appendResponse_extends (a : Accumulators) (p : OperationPolicy) :
  inOrder a -> extends a (appendResponse L a p) [] [p].
Proof.
  intros [[Hreq Hresp] Hapart%apart_sym].
  unfold extends, inOrder, settled, appendResponse.
  pose proof (appendPolicy_read L _ p _ Hresp) as Happend.
  pose proof (appendPolicy_apart _ _ p _ Hresp Hreq Hapart) as Hapart'.
  pose proof (fun t => appendPolicy_outOfReach
                         (responseOperationPolicies a) t p _ Hresp) as Hout.
  destruct (appendPolicy L _ p _) as [s h]. simpl.
  destruct Happend as (Hread & Hs & Hfits & _).
  destruct (Hout _ Hreq (apart_outOfReach _ _ _ Hreq Hapart))
    as [Hreq' _].
  split; [split; [split; auto|by apply apart_sym]|].
  split; [by rewrite app_nil_r|]. split; [done|].
  intros t (Ht & Ht1 & Ht2). destruct (Hout t Ht Ht2) as [Hsame Hout'].
  split; [|done]. split; [auto|]. by split.
Qed.

Lemma flat_map_singleton {A B : Type} (f : A -> B) (l : list A) :
  flat_map (fun x => [f x]) l = map f l.
Proof. induction l as [|x l IH]; [done|]. simpl. by rewrite IH. Qed.

Lemma flat_map_nil {A B : Type} (l : list A) :
  flat_map (fun _ : A => @nil B) l = [].
Proof. by induction l. Qed.

Lemma processFilter_extends (a : Accumulators) (f : Filter) :
  match f with
  | APKHeaders requestHeaders _ => RemoveHeaders requestHeaders = []
  | _ => True
  end ->
  inOrder a ->
  extends a (processFilter L K a f)
    (requestPoliciesOfFilter K f) (responsePoliciesOfFilter K f).
Proof.
  intros Hf Ha. destruct f as [requestHeaders responseHeaders|urls|url|]; simpl.
  - rewrite Hf. simpl.
    pose proof (extends_foldl
                  (fun a requestHeader =>
                     appendRequest L a (addHeaderPolicy K requestHeader))
                  (fun requestHeader => [addHeaderPolicy K requestHeader])
                  (fun _ => []) (AddHeaders requestHeaders) a
                  (fun a x => appendRequest_extends a _) Ha) as H1.
    rewrite flat_map_singleton, flat_map_nil in H1.
    set (a1 := foldl _ a (AddHeaders requestHeaders)) in *.
    pose proof (extends_foldl
                  (fun a responseHeader =>
                     appendResponse L a (addHeaderPolicy K responseHeader))
                  (fun _ => [])
                  (fun responseHeader => [addHeaderPolicy K responseHeader])
                  (AddHeaders responseHeaders) a1
                  (fun a x => appendResponse_extends a _) (proj1 H1)) as H2.
    rewrite flat_map_singleton, flat_map_nil in H2.
    set (a2 := foldl _ a1 (AddHeaders responseHeaders)) in *.
    pose proof (extends_foldl
                  (fun a responseHeader =>
                     appendResponse L a (removeHeaderPolicy K responseHeader))
                  (fun _ => [])
                  (fun responseHeader => [removeHeaderPolicy K responseHeader])
                  (RemoveHeaders responseHeaders) a2
                  (fun a x => appendResponse_extends a _) (proj1 H2)) as H3.
    rewrite flat_map_singleton, flat_map_nil in H3.
    pose proof (extends_trans _ _ _ _ _ _ _
                  (extends_trans _ _ _ _ _ _ _ H1 H2) H3) as H.
    by rewrite !app_nil_r in H.
  - pose proof (extends_foldl
                  (fun a url => appendRequest L a (mirrorPolicy K url))
                  (fun url => [mirrorPolicy K url]) (fun _ => []) urls a
                  (fun a x => appendRequest_extends a _) Ha) as H.
    by rewrite flat_map_singleton, flat_map_nil in H.
  - by apply appendRequest_extends.
  - by apply extends_refl.
Qed.

Lemma filters_extend (a : Accumulators) (filters : list Filter) :
  Forall (fun f =>
            match f with
            | APKHeaders requestHeaders _ => RemoveHeaders requestHeaders = []
            | _ => True
            end) filters ->
  inOrder a ->
  extends a (foldl (processFilter L K) a filters)
    (flat_map (requestPoliciesOfFilter K) filters)
    (flat_map (responsePoliciesOfFilter K) filters).
Proof.
  intros Hfilters. revert a.
  induction Hfilters as [|f filters Hf _ IH]; intros a Ha; simpl.
  - by apply extends_refl.
  - pose proof (processFilter_extends a f Hf Ha) as H.
    eapply extends_trans; [exact H|]. apply IH. by destruct H.
Qed.

Lemma extractOne_accumulates (operations : list OperationFromDP)
  (apimEndpoints : list APIMEndpoint) (pairs : list (string * string))
  (st : Extraction) (lists : list (list OperationPolicy * list OperationPolicy)) :
  Forall removesNoRequestHeader operations ->
  inOrder (accumulators st) -> recorded st lists ->
  let st' := foldl (extractOne L K operations apimEndpoints) st pairs in
  recorded st'
    (lists
     ++ accumulated K apimEndpoints
          (GoSlice.read (heap (accumulators st))
             (requestOperationPolicies (accumulators st)))
          (GoSlice.read (heap (accumulators st))
             (responseOperationPolicies (accumulators st)))
          (map snd (matchedOperations L operations pairs))).
Proof.
  intros Hops. revert st lists.
  induction pairs as [|[path verb] pairs IH]; intros st lists Ha Hrec.
  { simpl. by rewrite app_nil_r. }
  pose proof (findMatchingAPKOperation_elem_of L path verb operations) as Hin.
  cbn [foldl]. unfold matchedOperations. cbn [omap list_omap fst snd].
  fold (matchedOperations L operations pairs).
  unfold extractOne at 2. cbv beta iota zeta.
  destruct (findMatchingAPKOperation L path verb operations) as [op|] eqn:Hfind;
    cbn [fmap option_fmap option_map map snd]; [|by apply IH].
  specialize (Hin op eq_refl).
  pose proof (proj1 (Forall_forall _ _) Hops op Hin) as Hop.
  set (a0 := accumulators st) in *.
  set (a1 := match OpAIModelBasedRoundRobin op with
             | Some rr => appendRequest L a0 (roundRobinPolicy K rr apimEndpoints)
             | None => a0
             end).
  assert (extends a0 a1
            match OpAIModelBasedRoundRobin op with
            | Some rr => [roundRobinPolicy K rr apimEndpoints]
            | None => []
            end []) as H1.
  { subst a1. destruct (OpAIModelBasedRoundRobin op).
    - by apply appendRequest_extends.
    - by apply extends_refl. }
  pose proof (filters_extend a1 (Filters op) Hop (proj1 H1)) as H2.
  pose proof (extends_trans _ _ _ _ _ _ _ H1 H2) as H.
  simpl in H. fold (requestPoliciesOf K apimEndpoints op) in H.
  fold (responsePoliciesOf K op) in H.
  set (a2 := foldl (processFilter L K) a1 (Filters op)) in *.
  destruct H as (Hord & Hreq & Hresp & Hsettled).
  match goal with
  | |- recorded (foldl _ ?st1 _) _ => set (st1' := st1)
  end.
  specialize (IH st1' (lists ++ [(GoSlice.read (heap a2)
                                    (requestOperationPolicies a2),
                                  GoSlice.read (heap a2)
                                    (responseOperationPolicies a2))])).
  cbn [accumulated]. rewrite <- Hreq, <- Hresp.
  rewrite <- app_assoc in IH. apply IH; [done|].
  unfold recorded. simpl. apply Forall2_app.
  - eapply Forall2_impl; [exact Hrec|]. simpl.
    intros t e (Ht1 & Ht2 & Hr1 & Hr2). fold a0 in Ht1, Ht2, Hr1, Hr2.
    destruct (Hsettled _ Ht1) as [? ->]. destruct (Hsettled _ Ht2) as [? ->].
    done.
  - constructor; [|constructor]. simpl.
    destruct Hord as [[Hfreq Hfresp] Hapart].
    split; [|split; [|done]].
    + split; [done|]. split; [right; right; lia|].
      by apply (apart_outOfReach (heap a2)), apart_sym.
    + split; [done|]. split; [|right; right; lia].
      by apply (apart_outOfReach (heap a2)).
Qed.

End piling.

(** X26.  When no declared operation removes a request header, the
    policies of the operations pile up as [extractOperations] goes through
    the schema: the request list of an emitted operation holds the request
    policies of every operation matched before it, in the order they were
    matched, followed by its own (its round robin, then the headers to
    add, the mirrors and the redirect of its filters), and its response
    list likewise holds the response policies of all of them.  No list
    loses or gains a policy through the array it shares with another. *)
Theorem policies_pile_up_across_operations (L : Lib) (K : Consts) (R : Run)
  (event : APICPEvent) (apimEndpoints : list APIMEndpoint)
  (paths : list (string * list string)) :
  strings_ToUpper L (APIType (API_ event)) = "REST" ->
  yaml_Unmarshal_OpenAPIPaths L (Definition_ (API_ event)) = Ok paths ->
  Forall removesNoRequestHeader (Operations (API_ event)) ->
  let matched :=
    matchedOperations L (Operations (API_ event)) (schemaPairs R paths) in
  let emitted := (extractOperations L K R event apimEndpoints).1.1 in
  map (fun op => (Request (OperationPolicies_ op),
                  Response (OperationPolicies_ op)))
      emitted
  = accumulated K apimEndpoints [] [] (map snd matched).
Proof.
  intros Htype Hpaths Hremoves matched emitted. subst emitted.
  unfold extractOperations. rewrite Htype, Hpaths. simpl.
  unfold extractREST.
  assert (inOrder (accumulators initialExtraction)) as Hinit.
  { split; [repeat split; simpl; lia|]. by left. }
  assert (recorded initialExtraction []) as Hnone by constructor.
  pose proof (extractOne_accumulates L K (Operations (API_ event))
                apimEndpoints (schemaPairs R paths) initialExtraction []
                Hremoves Hinit Hnone) as Hrec.
  simpl in Hrec. fold matched in Hrec.
  change (GoSlice.read [] GoSlice.nilSlice) with (@nil OperationPolicy) in Hrec.
  revert Hrec. unfold recorded.
  generalize (accumulated K apimEndpoints [] [] (map snd matched)).
  set (st := foldl _ initialExtraction _).
  generalize (apiOperations st).
  induction 1 as [|op e ops lists (_ & _ & Hreq & Hresp) _ IH]; [done|].
  simpl. rewrite Hreq, Hresp, IH. by destruct e.
Qed.

Lemma policies_pile_up_witness :
  let event :=
    Fixture.createEvent
      [Fixture.getPet [Fixture.addToRequest ["X-A"]];
       Fixture.postOrder [APKMirrorRequest ["http://b"]]] [] [] in
  strings_ToUpper Fixture.lib (APIType (API_ event)) = "REST"
  /\ yaml_Unmarshal_OpenAPIPaths Fixture.lib (Definition_ (API_ event))
     = Ok Fixture.petstorePaths
  /\ Forall removesNoRequestHeader (Operations (API_ event))
  /\ map (fun op => Request (OperationPolicies_ op))
       (extractOperations Fixture.lib Fixture.consts (Fixture.run "id")
          event []).1.1
     = [[Fixture.addHeaderOf "X-A"];
        [Fixture.addHeaderOf "X-A"; Fixture.mirrorOf "http://b"]].
Proof.
  intros event.
  assert (Forall removesNoRequestHeader (Operations (API_ event))) as Hremoves
    by (repeat constructor).
  split; [reflexivity|]. split; [reflexivity|]. split; [exact Hremoves|].
  pose proof (policies_pile_up_across_operations
                Fixture.lib Fixture.consts (Fixture.run "id") event []
                Fixture.petstorePaths eq_refl eq_refl Hremoves) as H.
  cbv zeta in H.
  apply (f_equal (map fst)) in H. rewrite map_map in H. simpl in H.
  exact H.
Defined.

(** ** The entries of the endpoints document and the fields of the literal *)

(** X27.  Each descriptor of the resolver becomes an entry of the
    endpoints document with its identifier, its name and its stage.  The
    entry of a production descriptor has [production_endpoints] with the
    URL of the descriptor and no [sandbox_endpoints], and its security map
    has [production] and no [sandbox]; the entry of a sandbox descriptor
    is the mirror image.  No descriptor falls through both tests on the
    stage.  The security map always has [customParameters], the string
    [null]. *)
Theorem endpoints_document_entry_has_one_stage (R : Run)
  (multiEndpoints : MultiEndpointsT) (d : APIMEndpoint) :
  d ∈ apimEndpints (sandLoop R multiEndpoints) ->
  exists entry config security,
    endpointMapOf d = YMap entry
    /\ GoMap.get "id" entry = Some (YStr (EndpointUUID d))
    /\ GoMap.get "name" entry = Some (YStr (EndpointName d))
    /\ GoMap.get "deploymentStage" entry = Some (YStr (DeploymentStage d))
    /\ GoMap.get "endpointConfig" entry = Some (YMap config)
    /\ GoMap.get "endpoint_type" config = Some (YStr (Protocol multiEndpoints))
    /\ GoMap.get "endpoint_security" config = Some (YMap security)
    /\ GoMap.get "customParameters" security = Some (YStr "null")
    /\ (DeploymentStage d = "PRODUCTION"
        /\ GoMap.get "production_endpoints" config
           = Some (GoMap.lit
                     [("url",
                       YStr (ProductionEndpointsURL (EndpointConfig_ d)))])
        /\ GoMap.get "sandbox_endpoints" config = None
        /\ GoMap.get "production" security
           = Some (endpointsSecurityEntry
                     (EndpointSecurityProduction (EndpointConfig_ d)))
        /\ GoMap.get "sandbox" security = None
        \/ DeploymentStage d = "SANDBOX"
           /\ GoMap.get "sandbox_endpoints" config
              = Some (GoMap.lit
                        [("url",
                          YStr (SandboxEndpointsURL (EndpointConfig_ d)))])
           /\ GoMap.get "production_endpoints" config = None
           /\ GoMap.get "sandbox" security
              = Some (endpointsSecurityEntry
                        (EndpointSecuritySandbox (EndpointConfig_ d)))
           /\ GoMap.get "production" security = None).
Proof.
  intros [i Hd]%list_elem_of_lookup.
  apply descriptors_lookup in Hd as [(_ & e & _ & ->)|(_ & e & _ & ->)].
  - eexists _, _, _. split; [reflexivity|]. repeat (split; [reflexivity|]).
    left. by repeat split.
  - eexists _, _, _. split; [reflexivity|]. repeat (split; [reflexivity|]).
    right. by repeat split.
Qed.

Lemma endpoints_document_entry_witness :
  let multiEndpoints :=
    {| Protocol := "https";
       ProdEndpoints := [Fixture.endpointAt "a.example.com"];
       SandEndpoints := [] |} in
  let d :=
    prodDescriptor (Fixture.run "id") multiEndpoints 0
      (Fixture.endpointAt "a.example.com") in
  d ∈ apimEndpints (sandLoop (Fixture.run "id") multiEndpoints)
  /\ exists entry,
       endpointMapOf d = YMap entry
       /\ GoMap.get "id" entry = Some (YStr "id-0--PRODUCTION").
Proof.
  intros multiEndpoints d.
  assert (d ∈ apimEndpints (sandLoop (Fixture.run "id") multiEndpoints))
    as Hd by (by left).
  split; [exact Hd|].
  destruct (endpoints_document_entry_has_one_stage
              (Fixture.run "id") multiEndpoints d Hd)
    as (entry & _ & _ & Hentry & Hid & _).
  exists entry. split; [exact Hentry|]. exact Hid.
Defined.

(** X28.  The statements that follow the literal of [createAPIYaml] write
    eight keys and no others: every other key of the API definition holds,
    when the document is serialised, what the literal gave it.  So the
    provider is the configured one, or [admin] when the configuration
    cannot be read; the type is [GRAPHQL] only for the type [GraphQL]
    spelled so, and [HTTP] otherwise; the life cycle status is [CREATED];
    and there is one additional property for each property of the event,
    never displayed. *)
Theorem literal_fields_survive (L : Lib) (K : Consts) (R : Run)
  (cfg : result Config) (event : APICPEvent) :
  let api := API_ event in
  let data := apiData L K R cfg event in
  let extracted :=
    operationsAndScopes L K R event
      (apimEndpints (sandLoop R (MultiEndpoints api))) in
  (forall k,
     k ∉ ["subtypeConfiguration"; "endpointConfig"; "corsConfiguration";
          "maxTps"; "primaryProductionEndpointId";
          "primarySandboxEndpointId"; "endpointImplementationType";
          "apiPolicies"] ->
     GoMap.get k data
     = GoMap.get k (initialData R cfg api extracted.1 extracted.2))
  /\ GoMap.get "provider" data
     = Some (YStr match cfg with
                  | Ok config => Provider config
                  | Err _ => "admin"
                  end)
  /\ GoMap.get "type" data
     = Some (YStr (if String.eqb (APIType api) "GraphQL"
                   then "GRAPHQL" else "HTTP"))
  /\ GoMap.get "lifeCycleStatus" data = Some (YStr "CREATED")
  /\ exists properties,
       GoMap.get "additionalProperties" data = Some (YSeq properties)
       /\ length properties = length (range R _ (APIProperties api))
       /\ Forall (fun property =>
                    GoMap.get "display"
                      match property with YMap m => m | _ => [] end
                    = Some (YBool false))
                 properties.
Proof.
  intros api data extracted.
  assert (forall k,
            k ∉ ["subtypeConfiguration"; "endpointConfig";
                 "corsConfiguration"; "maxTps"; "primaryProductionEndpointId";
                 "primarySandboxEndpointId"; "endpointImplementationType";
                 "apiPolicies"] ->
            GoMap.get k data
            = GoMap.get k (initialData R cfg api extracted.1 extracted.2))
    as Hframe.
  { intros k Hk. subst data extracted. unfold apiData. fold api.
    destruct (operationsAndScopes _ _ _ _ _) as [operations scopes].
    rewrite !not_elem_of_cons in Hk.
    destruct Hk as (? & ? & ? & ? & ? & ? & ? & ? & _).
    by rewrite get_setAPIPolicies, get_setPrimaryEndpoints_other,
      get_setMaxTps, get_setCORS, get_deleteEmptyEndpoints,
      get_setSubtypeConfiguration. }
  assert (forall k : string,
            k ∈ ["provider"; "type"; "lifeCycleStatus";
                 "additionalProperties"] ->
            k ∉ ["subtypeConfiguration"; "endpointConfig";
                 "corsConfiguration"; "maxTps"; "primaryProductionEndpointId";
                 "primarySandboxEndpointId"; "endpointImplementationType";
                 "apiPolicies"]) as Hkeys.
  { intros k Hk Hk'.
    repeat (apply elem_of_cons in Hk as [->|Hk];
            [repeat (apply elem_of_cons in Hk' as [[=]|Hk']);
             by apply not_elem_of_nil in Hk'|]).
    by apply not_elem_of_nil in Hk. }
  split; [done|].
  rewrite !Hframe by (apply Hkeys; repeat (first [by left|right])).
  split; [by destruct cfg|]. split; [done|]. split; [done|].
  eexists. split; [reflexivity|]. unfold createAdditionalProperties.
  rewrite !length_map. split; [done|].
  apply Forall_map, Forall_map, Forall_true. done.
Qed.
